(** * Moulder: the interactive polygon editor of [moulder/moulder.py]

    A shallow embedding of the editing engine of the [Moulder] canvas: the
    polygon / line / density lists, the selection markers, the draw buffer and
    the callbacks that mutate them ([_button_press_callback],
    [_button_release_callback], [_mouse_move_callback], [delete_polygon],
    [cancel_drawing], [new_polygon], [add_vertex], the [density] setter), and
    the two geometric routines [_get_polygon_vertice_id] and
    [_add_new_vertex].

    Modelling conventions.
    - Python floats are modelled as real numbers ([R]): rounding is not
      represented and [numpy.sqrt] is [sqrt].  Where the code can divide by
      zero, in [_add_new_vertex], the values are [npfloat]s: a number, an
      infinity or [nan], with numpy's division, [arccos] and [argmax].
    - A Python exception is a value of [PyError]; a callback is a function
      [State -> ... -> Result State] that gives the state the callback
      leaves, or the exception it raises before it has written anything.  An
      exception raised after the writes does not undo them: it is given
      apart, by [ending].
    - A numpy (n, 2) array is a [list point]; [patches.Polygon] and [Line2D]
      are records holding what the callbacks read and write.
    - The canvas (draw, draw_artist, blit), the Qt signals and the forward
      model behind [_update_data_plot] are external collaborators: they do
      not write to the fields below, are taken to return normally, and are
      left out.  Of [self.background] the model keeps whether it is [None],
      which [restore_region] refuses.
    - The model-to-screen transform of the model axes and matplotlib's
      [Patch.contains_point] are parameters of the development. *)

From Stdlib Require Import Reals Lra Lia List Bool Arith PeanoNat.
Import ListNotations.

(** ** Python results and list operations *)

Inductive PyError : Type :=
| IndexError
| TypeError
| AttributeError
| ValueError.

Definition Result (A : Type) : Type := (PyError + A)%type.

Definition ok {A : Type} (a : A) : Result A := inr a.
Definition raise {A : Type} (e : PyError) : Result A := inl e.

Definition bind {A B : Type} (m : Result A) (k : A -> Result B) : Result B :=
  match m with
  | inl e => inl e
  | inr a => k a
  end.

Notation "x <- m ;; k" := (bind m (fun x => k))
  (at level 61, m at next level, right associativity).

(** [l[i]]. *)
Definition getitem {A : Type} (l : list A) (i : nat) : Result A :=
  match nth_error l i with
  | Some a => ok a
  | None => raise IndexError
  end.

(** In-place update of the object stored at [l[i]]. *)
Fixpoint update_at {A : Type} (l : list A) (i : nat) (f : A -> A)
  : Result (list A) :=
  match l, i with
  | [], _ => raise IndexError
  | a :: t, O => ok (f a :: t)
  | a :: t, S j => t' <- update_at t j f ;; ok (a :: t')
  end.

(** [l[i] = a]. *)
Definition setitem {A : Type} (l : list A) (i : nat) (a : A)
  : Result (list A) :=
  update_at l i (fun _ => a).

(** [l.pop(i)], keeping the remaining list. *)
Fixpoint pop_at {A : Type} (l : list A) (i : nat) : Result (list A) :=
  match l, i with
  | [], _ => raise IndexError
  | _ :: t, O => ok t
  | a :: t, S j => t' <- pop_at t j ;; ok (a :: t')
  end.

(** [l.insert(i, a)]: Python clamps an index past the end. *)
Definition insert_at {A : Type} (l : list A) (i : nat) (a : A) : list A :=
  firstn i l ++ a :: skipn i l.

(** The loops [for line, poly in zip(self.lines, self.polygons)] touch the
    first [n] objects of each list, [n] the length of the shorter one. *)
Definition map_firstn {A : Type} (n : nat) (f : A -> A) (l : list A)
  : list A :=
  map f (firstn n l) ++ skipn n l.

(** Keep the entries whose position is not listed in [verts]
    ([[xy for i, xy in enumerate(poly.xy) if i not in verts]]). *)
Fixpoint drop_indices {A : Type} (verts : list nat) (i : nat) (l : list A)
  : list A :=
  match l with
  | [] => []
  | a :: t =>
      if existsb (Nat.eqb i) verts
      then drop_indices verts (S i) t
      else a :: drop_indices verts (S i) t
  end.

(** ** Numbers, points and numpy reductions *)

Definition point : Type := (R * R)%type.

Definition point_eq_dec (p q : point) : {p = q} + {p <> q}.
Proof.
  destruct p as [a b], q as [c d].
  destruct (Req_dec_T a c) as [Hac | Hac].
  - destruct (Req_dec_T b d) as [Hbd | Hbd].
    + left. now subst.
    + right. intros H. now inversion H.
  - right. intros H. now inversion H.
Defined.

(** [numpy.argmin] over the elements after the current best [b] (found at
    position [ib]); [i] is the position of the head of [l].  The first
    minimum wins. *)
Fixpoint argmin_aux (l : list R) (i ib : nat) (b : R) : nat :=
  match l with
  | [] => ib
  | x :: t =>
      if Rlt_dec x b then argmin_aux t (S i) i x
      else argmin_aux t (S i) ib b
  end.

Definition argmin (l : list R) : Result nat :=
  match l with
  | [] => raise ValueError
  | x :: t => ok (argmin_aux t 1 0 x)
  end.

Fixpoint amin_aux (l : list R) (b : R) : R :=
  match l with
  | [] => b
  | x :: t => if Rlt_dec x b then amin_aux t x else amin_aux t b
  end.

(** [d.min()]. *)
Definition amin (l : list R) : Result R :=
  match l with
  | [] => raise ValueError
  | x :: t => ok (amin_aux t x)
  end.

Fixpoint first_max_aux (l : list R) (i ib : nat) (b : R) : nat :=
  match l with
  | [] => ib
  | x :: t =>
      if Rgt_dec x b then first_max_aux t (S i) i x
      else first_max_aux t (S i) ib b
  end.

(** The first position that holds the largest entry of a list of numbers. *)
Definition first_max (l : list R) : Result nat :=
  match l with
  | [] => raise ValueError
  | x :: t => ok (first_max_aux t 1 0 x)
  end.

(** A numpy float: a number, taken as a real, an infinity or [nan]. *)
Inductive npfloat : Type :=
| Num (r : R)
| PosInf
| NegInf
| NaN.

(** [a / b] for a finite [b >= 0] (a norm): numpy warns and goes on, a
    number over zero is [nan] when it is zero and an infinity otherwise. *)
Definition fdiv (a : npfloat) (b : R) : npfloat :=
  match a with
  | Num x =>
      if Req_dec_T b 0 then
        if Req_dec_T x 0 then NaN
        else if Rlt_dec 0 x then PosInf else NegInf
      else Num (x / b)
  | PosInf => PosInf
  | NegInf => NegInf
  | NaN => NaN
  end.

(** [numpy.arccos]: [nan] outside [[-1, 1]]. *)
Definition arccos (a : npfloat) : npfloat :=
  match a with
  | Num x =>
      if Rle_dec (-1) x then
        if Rle_dec x 1 then Num (acos x) else NaN
      else NaN
  | PosInf | NegInf | NaN => NaN
  end.

(** [a <= b] on floats: false as soon as one of them is [nan]. *)
Definition fle (a b : npfloat) : bool :=
  match a, b with
  | NaN, _ => false
  | _, NaN => false
  | NegInf, _ => true
  | _, PosInf => true
  | Num x, Num y => if Rle_dec x y then true else false
  | Num _, NegInf => false
  | PosInf, _ => false
  end.

(** [angle.argmax()], as numpy runs it: a [nan] in first place is the
    answer; after that an entry replaces the best one [b] (found at [ib])
    when it is not [<= b], and the scan stops at the first [nan].  So the
    first [nan] wins, and without a [nan] the first maximum. *)
Fixpoint argmax_aux (l : list npfloat) (i ib : nat) (b : npfloat) : nat :=
  match l with
  | [] => ib
  | x :: t =>
      if fle x b then argmax_aux t (S i) ib b
      else
        match x with
        | NaN => i
        | _ => argmax_aux t (S i) i x
        end
  end.

Definition argmax (l : list npfloat) : Result nat :=
  match l with
  | [] => raise ValueError
  | NaN :: _ => ok 0
  | x :: t => ok (argmax_aux t 1 0 x)
  end.

(** [numpy.roll(a, -1)]. *)
Definition roll_left {A : Type} (l : list A) : list A :=
  match l with
  | [] => []
  | a :: t => t ++ [a]
  end.

(** ** Drawable objects *)

Inductive Color : Type :=
| Black         (* 'k' of LINE_ARGS *)
| Transparent   (* [0, 0, 0, 0] *)
| Green.        (* [0, 1, 0, 0] *)

(** [matplotlib.patches.Polygon]: the vertex array [xy], the [animated] flag
    and the density its face colour was computed from. *)
Record Polygon : Type := mkPolygon {
  xy : list point;
  p_animated : bool;
  p_color : R
}.

Record Line2D : Type := mkLine {
  l_data : list point;
  l_color : Color;
  l_animated : bool
}.

Definition set_xy_raw (v : list point) (p : Polygon) : Polygon :=
  mkPolygon v (p_animated p) (p_color p).
Definition p_set_animated (b : bool) (p : Polygon) : Polygon :=
  mkPolygon (xy p) b (p_color p).
Definition p_set_color (d : R) (p : Polygon) : Polygon :=
  mkPolygon (xy p) (p_animated p) d.
Definition l_set_data (v : list point) (l : Line2D) : Line2D :=
  mkLine v (l_color l) (l_animated l).
Definition l_set_color (c : Color) (l : Line2D) : Line2D :=
  mkLine (l_data l) c (l_animated l).
Definition l_set_animated (b : bool) (l : Line2D) : Line2D :=
  mkLine (l_data l) (l_color l) b.

(** [Polygon.set_xy] of a closed patch (matplotlib 3.3 and later):
    [if nverts == 1 or nverts > 1 and (xy[0] != xy[-1]).any()] the first
    vertex is appended, so the array ends with the seam.  (Before 3.3 a
    one-row array was left as it was.)  Both the constructor
    [patches.Polygon(vertices)] and the assignment [poly.xy = ...] go
    through it; writes into the array returned by [poly.xy] do not.  The
    callbacks never hand it an empty array (which matplotlib refuses): a
    commit needs three points, an insertion adds a row, and a deletion
    leaves at least three rows. *)
Definition close_ring (v : list point) : list point :=
  match v with
  | [] => []
  | [p] => [p; p]
  | p :: _ => if point_eq_dec p (last v p) then v else v ++ [p]
  end.

(** The assignment [poly.xy = ...] goes through [set_xy]. *)
Definition set_xy (v : list point) (p : Polygon) : Polygon :=
  set_xy_raw (close_ring v) p.

(** ** Events and the editor state *)

(** A matplotlib mouse event: [inaxes] records [event.inaxes == self.modelax],
    [button] is the button number (0 when matplotlib gives [None]), [x, y] are
    pixels and [xdata, ydata] model coordinates. *)
Record Event : Type := mkEvent {
  ev_inaxes : bool;
  ev_button : nat;
  ev_x : R;
  ev_y : R;
  ev_xdata : R;
  ev_ydata : R
}.

(** The value of [self._ivert]: one index, or the list [[0, last]]. *)
Inductive vertex_ref : Type :=
| VIdx (i : nat)
| VPair (a b : nat).

Definition vref_indices (v : vertex_ref) : list nat :=
  match v with
  | VIdx i => [i]
  | VPair a b => [a; b]
  end.

Record State : Type := mkState {
  polygons : list Polygon;
  lines : list Line2D;
  densities : list R;
  density : R;                    (* self._density *)
  ipoly : option nat;             (* self._ipoly *)
  ivert : option vertex_ref;      (* self._ivert *)
  lastevent : option Event;       (* self._lastevent *)
  drawing : bool;                 (* self._drawing *)
  add_vertex_flag : bool;         (* self._add_vertex *)
  xy_buf : option (list point);   (* self._xy, None after a commit *)
  background : bool               (* self.background is not None *)
}.

Definition with_polygons (s : State) (v : list Polygon) : State :=
  mkState v (lines s) (densities s) (density s) (ipoly s) (ivert s)
          (lastevent s) (drawing s) (add_vertex_flag s) (xy_buf s)
          (background s).
Definition with_lines (s : State) (v : list Line2D) : State :=
  mkState (polygons s) v (densities s) (density s) (ipoly s) (ivert s)
          (lastevent s) (drawing s) (add_vertex_flag s) (xy_buf s)
          (background s).
Definition with_densities (s : State) (v : list R) : State :=
  mkState (polygons s) (lines s) v (density s) (ipoly s) (ivert s)
          (lastevent s) (drawing s) (add_vertex_flag s) (xy_buf s)
          (background s).
Definition with_density (s : State) (v : R) : State :=
  mkState (polygons s) (lines s) (densities s) v (ipoly s) (ivert s)
          (lastevent s) (drawing s) (add_vertex_flag s) (xy_buf s)
          (background s).
Definition with_ipoly (s : State) (v : option nat) : State :=
  mkState (polygons s) (lines s) (densities s) (density s) v (ivert s)
          (lastevent s) (drawing s) (add_vertex_flag s) (xy_buf s)
          (background s).
Definition with_ivert (s : State) (v : option vertex_ref) : State :=
  mkState (polygons s) (lines s) (densities s) (density s) (ipoly s) v
          (lastevent s) (drawing s) (add_vertex_flag s) (xy_buf s)
          (background s).
Definition with_lastevent (s : State) (v : option Event) : State :=
  mkState (polygons s) (lines s) (densities s) (density s) (ipoly s) (ivert s)
          v (drawing s) (add_vertex_flag s) (xy_buf s)
          (background s).
Definition with_drawing (s : State) (v : bool) : State :=
  mkState (polygons s) (lines s) (densities s) (density s) (ipoly s) (ivert s)
          (lastevent s) v (add_vertex_flag s) (xy_buf s)
          (background s).
Definition with_add_vertex (s : State) (v : bool) : State :=
  mkState (polygons s) (lines s) (densities s) (density s) (ipoly s) (ivert s)
          (lastevent s) (drawing s) v (xy_buf s)
          (background s).
Definition with_background (s : State) (v : bool) : State :=
  mkState (polygons s) (lines s) (densities s) (density s) (ipoly s) (ivert s)
          (lastevent s) (drawing s) (add_vertex_flag s) (xy_buf s) v.
Definition with_xy_buf (s : State) (v : option (list point)) : State :=
  mkState (polygons s) (lines s) (densities s) (density s) (ipoly s) (ivert s)
          (lastevent s) (drawing s) (add_vertex_flag s) v
          (background s).

(** [__init__] followed by [_init_markers]. *)
Definition init_state : State :=
  mkState [] [] [] 0%R None None None false false (Some []) false.

(** The tolerance range for mouse clicks on vertices, in pixels. *)
Definition epsilon : R := 5%R.

(** What the host delivers: mouse events, key presses and the density
    slider. *)
Inductive Input : Type :=
| Press (e : Event)
| Release (e : Event)
| Move (e : Event)
| KeyD          (* delete_polygon *)
| KeyN          (* new_polygon *)
| KeyEscape     (* cancel_drawing *)
| KeyR          (* reset view: no editing state is written *)
| KeyA          (* add_vertex *)
| SetDensity (value : R).

(** Distance between two vertices, for statements about the shape of a
    polygon. *)
Definition euclid (a b : point) : R :=
  sqrt ((fst a - fst b) ^ 2 + (snd a - snd b) ^ 2).

(** ** Sample data: a committed triangle and clicks on the model axes *)

Definition triangle : list point :=
  [(0, 0); (10, 0); (5, 10); (0, 0)]%R.

Definition triangle_poly : Polygon := mkPolygon triangle false 0%R.
Definition triangle_line : Line2D := mkLine triangle Green false.

(** A click of button [b] inside the model axes, at the same pixel and model
    coordinates. *)
Definition click (b : nat) (x y : R) : Event := mkEvent true b x y x y.

(** One triangle, selected as a whole, after the button was released. *)
Definition selected_state : State :=
  mkState [triangle_poly] [triangle_line] [0%R] 0%R
          (Some 0) None None false false None true.

(** The same with vertex 1 picked. *)
Definition vertex_state : State :=
  mkState [triangle_poly] [triangle_line] [0%R] 0%R
          (Some 0) (Some (VIdx 1)) None false false None true.

(** The same with the seam pair picked. *)
Definition seam_state : State :=
  mkState [triangle_poly] [triangle_line] [0%R] 0%R
          (Some 0) (Some (VPair 0 3)) None false false None true.

(** The triangle selected and the add-vertex mode armed. *)
Definition armed_state : State :=
  mkState [triangle_poly] [triangle_line] [0%R] 0%R
          (Some 0) None None false true None true.

(** Drawing with the given buffer, no polygon yet, pending density 7. *)
Definition drawing_state (buf : list point) : State :=
  mkState [] [] [] 7%R None None None true false (Some buf) true.

(** A square of five rows with its vertex 2 picked. *)
Definition square : list point :=
  [(0, 0); (10, 0); (10, 10); (0, 10); (0, 0)]%R.

Definition square_state : State :=
  mkState [mkPolygon square false 0%R] [mkLine square Green false] [0%R] 0%R
          (Some 0) (Some (VIdx 2)) None false false None true.

(** The triangle selected as a whole in the middle of a drag. *)
Definition dragging_state : State :=
  mkState [triangle_poly] [triangle_line] [0%R] 0%R
          (Some 0) None (Some (click 1 5 1)) false false None true.

(** The square with its seam pair picked. *)
Definition square_seam_state : State :=
  mkState [mkPolygon square false 0%R] [mkLine square Green false] [0%R] 0%R
          (Some 0) (Some (VPair 0 4)) None false false None true.

(** The triangle with its seam pair picked and the add-vertex mode armed. *)
Definition armed_seam_state : State :=
  mkState [triangle_poly] [triangle_line] [0%R] 0%R
          (Some 0) (Some (VPair 0 3)) None false true None true.

(** A primary-button event outside the model axes. *)
Definition outside : Event := mkEvent false 1 0 0 0 0.

(** The end-to-end scenario: new polygon, three primary clicks, one
    secondary click.  It leads to [selected_state]. *)
Definition draw_triangle : list Input :=
  [KeyN; Press (click 1 0 0); Press (click 1 10 0); Press (click 1 5 10);
   Press (click 3 5 10)].


(** Two polygons on a screen that shows two model units per pixel: the
    triangle and a second one far from it. *)
Definition halve (q : point) : point := ((fst q / 2)%R, (snd q / 2)%R).

Definition far_triangle : list point :=
  [(40, 0); (60, 0); (50, 20); (40, 0)]%R.

Definition two_polygons : list Polygon :=
  [triangle_poly; mkPolygon far_triangle false 0%R].

(** A stand-in for [Patch.contains_point]: the bounding box, on the screen,
    of the vertex array. *)
Definition Rle_bool (a b : R) : bool :=
  if Rle_dec a b then true else false.

Definition bbox_contains (tr : point -> point) (v : list point) (q : point)
  : bool :=
  existsb (fun r => Rle_bool (fst (tr r)) (fst q)) v
  && existsb (fun r => Rle_bool (fst q) (fst (tr r))) v
  && existsb (fun r => Rle_bool (snd (tr r)) (snd q)) v
  && existsb (fun r => Rle_bool (snd q) (snd (tr r))) v.

(** Primary presses at the pixels (8, 0), (1, 1) and (25, 4); the last
    two fields are the model coordinates of the pixel. *)
Definition near_vertex : Event := mkEvent true 1 8 0 16 0.
Definition near_seam : Event := mkEvent true 1 1 1 2 2.
Definition inside_far_triangle : Event := mkEvent true 1 25 4 50 8.

(** The identity projection and a patch that contains no point. *)
Definition id_transform (q : point) : point := q.
Definition contains_nothing (v : list point) (q : point) : bool := false.

(** ** The callbacks *)

Section Callbacks.

(** [poly.get_transform().transform]: model coordinates to pixels.  Every
    polygon of [self.polygons] was added to the model axes, so they share its
    data transform. *)
Variable transform : point -> point.

(** [poly.contains_point([x, y])] for the patch with vertex array [xy]. *)
Variable contains_point : list point -> point -> bool.

(** The index held by [self._ipoly], which Python refuses when it is
    [None]. *)
Definition the_index (i : option nat) : Result nat :=
  match i with
  | Some p => ok p
  | None => raise TypeError
  end.

(** The loop that takes the highlight off every polygon:
    [poly.set_animated(False); line.set_animated(False);
     line.set_color([0, 0, 0, 0])]. *)
Definition unhighlight (s : State) : State :=
  let n := Nat.min (length (lines s)) (length (polygons s)) in
  with_lines
    (with_polygons s (map_firstn n (p_set_animated false) (polygons s)))
    (map_firstn n
       (fun l => l_set_color Transparent (l_set_animated false l))
       (lines s)).

(** The same loop without the colour change (button release). *)
Definition unanimate (s : State) : State :=
  let n := Nat.min (length (lines s)) (length (polygons s)) in
  with_lines
    (with_polygons s (map_firstn n (p_set_animated false) (polygons s)))
    (map_firstn n (l_set_animated false) (lines s)).

(** [add_vertex]. *)
Definition add_vertex (s : State) : State :=
  with_add_vertex s (negb (add_vertex_flag s)).

(** [new_polygon]; the canvas is copied to [self.background]. *)
Definition new_polygon (s : State) : State :=
  let s := with_ipoly (with_ivert s None) None in
  let s := unhighlight s in
  let s := with_background s true in
  with_xy_buf (with_drawing s true) (Some []).

(** The [density] setter. *)
Definition set_density (s : State) (value : R) : Result State :=
  let s := with_density s value in
  match ipoly s with
  | Some p =>
      ds <- setitem (densities s) p value ;;
      ps <- update_at (polygons s) p (p_set_color value) ;;
      ok (with_polygons (with_densities s ds) ps)
  | None => ok s
  end.

(** [_make_polygon]. *)
Definition make_polygon (vertices : list point) (dens : R)
  : Polygon * Line2D :=
  let poly := mkPolygon (close_ring vertices) false dens in
  (poly, mkLine (xy poly) Black false).

(** [delete_polygon]: the state it leaves.  The canvas calls that follow
    its writes are in [delete_restores] and [ending]. *)
Definition delete_polygon (s : State) : Result State :=
  match drawing s, xy_buf s with
  | true, Some ((_ :: _) as buf) =>
      ok (with_xy_buf s (Some (removelast buf)))
  | _, _ =>
      match ivert s with
      | Some v =>
          p <- the_index (ipoly s) ;;
          poly <- getitem (polygons s) p ;;
          _ <- getitem (lines s) p ;;
          if 4 <? length (xy poly) then
            let poly' := set_xy (drop_indices (vref_indices v) 0 (xy poly)) poly in
            ps <- setitem (polygons s) p poly' ;;
            ls <- update_at (lines s) p (l_set_data (xy poly')) ;;
            ok (with_ivert (with_lines (with_polygons s ps) ls) None)
          else ok s
      | None =>
          match ipoly s with
          | Some p =>
              ps <- pop_at (polygons s) p ;;
              ls <- pop_at (lines s) p ;;
              ds <- pop_at (densities s) p ;;
              ok (with_ipoly
                    (with_densities (with_lines (with_polygons s ps) ls) ds)
                    None)
          | None => ok s
          end
      end
  end.

(** [cancel_drawing]. *)
Definition cancel_drawing (s : State) : State :=
  if add_vertex_flag s then with_add_vertex s false
  else unhighlight (with_xy_buf (with_drawing s false) (Some [])).

(** Pixel distance from the event to the image of a vertex:
    [numpy.sqrt((x - event.x)**2 + (y - event.y)**2)]. *)
Definition pixel_dist (e : Event) (q : point) : R :=
  sqrt ((fst (transform q) - ev_x e) ^ 2 + (snd (transform q) - ev_y e) ^ 2).

(** The first loop of [_get_polygon_vertice_id]: per polygon, the smallest
    distance and the index where it is reached. *)
Fixpoint nearest_per_polygon (polys : list Polygon) (e : Event)
  : Result (list R * list nat) :=
  match polys with
  | [] => ok ([], [])
  | poly :: rest =>
      let d := map (pixel_dist e) (xy poly) in
      m <- amin d ;;
      i <- argmin d ;;
      r <- nearest_per_polygon rest e ;;
      ok (m :: fst r, i :: snd r)
  end.

(** The second loop: the first polygon, counting from [i], that contains the
    point. *)
Fixpoint first_containing (polys : list Polygon) (pt : point) (i : nat)
  : option nat :=
  match polys with
  | [] => None
  | poly :: rest =>
      if contains_point (xy poly) pt then Some i
      else first_containing rest pt (S i)
  end.

(** [_get_polygon_vertice_id]. *)
Definition get_polygon_vertice_id (polys : list Polygon) (e : Event)
  : Result (option nat * option vertex_ref) :=
  r <- nearest_per_polygon polys e ;;
  let distances := fst r in
  let indices := snd r in
  p <- argmin distances ;;
  dp <- getitem distances p ;;
  if Rge_dec dp epsilon then
    ok (first_containing polys (ev_x e, ev_y e) 0, None)
  else
    v <- getitem indices p ;;
    poly <- getitem polys p ;;
    let last := length (xy poly) - 1 in
    if (v =? 0) || (v =? last) then ok (Some p, Some (VPair 0 last))
    else ok (Some p, Some (VIdx v)).

(** The angle at the event between the vectors to the two ends of a segment:
    [arccos(sum(u*v) / sqrt(sum(u**2)) / sqrt(sum(v**2)))]. *)
Definition subtended_angle (e : Event) (a b : point) : npfloat :=
  let ux := (fst a - ev_xdata e)%R in
  let uy := (snd a - ev_ydata e)%R in
  let vx := (fst b - ev_xdata e)%R in
  let vy := (snd b - ev_ydata e)%R in
  arccos (fdiv (fdiv (Num (ux * vx + uy * vy)) (sqrt (ux ^ 2 + uy ^ 2)))
               (sqrt (vx ^ 2 + vy ^ 2))).

(** The [angle] array of [_add_new_vertex]: one entry per segment of the
    ring, the last vertex of the array (the seam) left out and the ring
    closed by [numpy.roll]. *)
Definition segment_angles (vertices : list point) (e : Event)
  : list npfloat :=
  let ring := removelast vertices in
  map (fun ab => subtended_angle e (fst ab) (snd ab))
      (combine ring (roll_left ring)).

(** [_add_new_vertex], on the vertex array of the selected polygon. *)
Definition add_new_vertex (vertices : list point) (e : Event)
  : Result (list point) :=
  a <- argmax (segment_angles vertices e) ;;
  let position := a + 1 in
  ok (firstn position vertices
        ++ (ev_xdata e, ev_ydata e) :: skipn position vertices).

(** [_button_press_callback]: the state it leaves.  The canvas calls that
    follow its writes are in [press_restores] and [ending]. *)
Definition button_press_callback (s : State) (e : Event) : Result State :=
  if negb (ev_inaxes e) then ok s
  else if (ev_button e =? 1) && negb (drawing s)
          && negb (length (polygons s) =? 0) then
    let s := with_lastevent s (Some e) in
    if negb (add_vertex_flag s) then
      let s := unhighlight s in
      r <- get_polygon_vertice_id (polygons s) e ;;
      let s := with_ivert (with_ipoly s (fst r)) (snd r) in
      match ipoly s with
      | Some p =>
          _ <- getitem (densities s) p ;;
          ps <- update_at (polygons s) p (p_set_animated true) ;;
          ls <- update_at (lines s) p
                  (fun l => l_set_color Green (l_set_animated true l)) ;;
          ok (with_background (with_lines (with_polygons s ps) ls) true)
      | None => ok s
      end
    else
      match ipoly s with
      | Some p =>
          old <- getitem (polygons s) p ;;
          vertices <- add_new_vertex (xy old) e ;;
          dens <- getitem (densities s) p ;;
          let pl := make_polygon vertices dens in
          _ <- getitem (lines s) p ;;
          ps <- pop_at (polygons s) p ;;
          ls <- pop_at (lines s) p ;;
          let ps := insert_at ps p (fst pl) in
          let ls := insert_at ls p (snd pl) in
          ls <- update_at ls p (l_set_color Green) ;;
          ok (with_lines (with_polygons s ps) ls)
      | None => ok s
      end
  else if drawing s then
    if ev_button e =? 1 then
      match xy_buf s with
      | Some buf =>
          ok (with_xy_buf s (Some (buf ++ [(ev_xdata e, ev_ydata e)])))
      | None => raise AttributeError
      end
    else if ev_button e =? 3 then
      match xy_buf s with
      | Some buf =>
          if 3 <=? length buf then
            let pl := make_polygon buf (density s) in
            let ps := polygons s ++ [fst pl] in
            let ls := lines s ++ [snd pl] in
            let ds := densities s ++ [density s] in
            let i := length ps - 1 in
            ls <- update_at ls i (l_set_color Green) ;;
            ok (with_ipoly
                  (with_drawing
                     (with_xy_buf
                        (with_densities (with_lines (with_polygons s ps) ls) ds)
                        None)
                     false)
                  (Some i))
          else ok s
      | None => raise TypeError
      end
    else ok s
  else ok s.

(** [_button_release_callback]; it drops the saved background. *)
Definition button_release_callback (s : State) (e : Event) : State :=
  if negb (ev_inaxes e) then s
  else if negb (ev_button e =? 1) then s
  else
    let s := if add_vertex_flag s then with_add_vertex s false else s in
    match ivert s, ipoly s with
    | None, None => s
    | _, _ =>
        with_lastevent
          (with_ivert (unanimate (with_background s false)) None) None
    end.

(** [self.polygons[p].xy[v] = x, y]: one row, or the two rows of the pair. *)
Definition assign_rows (v : vertex_ref) (pt : point) (rows : list point)
  : Result (list point) :=
  match v with
  | VIdx i => setitem rows i pt
  | VPair a b => rows' <- setitem rows a pt ;; setitem rows' b pt
  end.

(** [xy[:, 0] += dx; xy[:, 1] += dy]. *)
Definition translate (dx dy : R) (rows : list point) : list point :=
  map (fun q => ((fst q + dx)%R, (snd q + dy)%R)) rows.

(** [_mouse_move_callback]: the state it leaves.  The canvas calls that
    follow its writes are in [move_restores] and [ending]. *)
Definition mouse_move_callback (s : State) (e : Event) : Result State :=
  if negb (ev_inaxes e) then ok s
  else if negb (ev_button e =? 1) then ok s
  else
    match ivert s, ipoly s with
    | None, None => ok s
    | _, _ =>
        if add_vertex_flag s then ok s
        else
          let x := ev_xdata e in
          let y := ev_ydata e in
          new_xy <-
            match ivert s with
            | Some v =>
                p <- the_index (ipoly s) ;;
                poly <- getitem (polygons s) p ;;
                assign_rows v (x, y) (xy poly)
            | None =>
                match lastevent s with
                | None => raise AttributeError
                | Some le =>
                    let dx := (x - ev_xdata le)%R in
                    let dy := (y - ev_ydata le)%R in
                    p <- the_index (ipoly s) ;;
                    poly <- getitem (polygons s) p ;;
                    ok (translate dx dy (xy poly))
                end
            end ;;
          p <- the_index (ipoly s) ;;
          ps <- update_at (polygons s) p (set_xy_raw new_xy) ;;
          ls <- update_at (lines s) p (l_set_data new_xy) ;;
          ok (with_lastevent (with_lines (with_polygons s ps) ls) (Some e))
    end.

(** ** The event loop *)

Definition step (s : State) (i : Input) : Result State :=
  match i with
  | Press e => button_press_callback s e
  | Release e => ok (button_release_callback s e)
  | Move e => mouse_move_callback s e
  | KeyD => delete_polygon s
  | KeyN => ok (new_polygon s)
  | KeyEscape => ok (cancel_drawing s)
  | KeyR => ok s
  | KeyA => ok (add_vertex s)
  | SetDensity value => set_density s value
  end.

Fixpoint run (s : State) (l : list Input) : Result State :=
  match l with
  | [] => ok s
  | i :: t => s' <- step s i ;; run s' t
  end.

(** ** The saved background *)

(** [self.canvas.restore_region(self.background)]: the canvas refuses
    [None] with a [TypeError]. *)
Definition restore_region (s : State) : Result unit :=
  if background s then ok tt else raise TypeError.

(** Whether [_button_press_callback], its writes done, goes on to
    [restore_region]: it does after adding a point to the draw buffer. *)
Definition press_restores (s : State) (e : Event) : bool :=
  if negb (ev_inaxes e) then false
  else if (ev_button e =? 1) && negb (drawing s)
          && negb (length (polygons s) =? 0) then false
  else if drawing s then ev_button e =? 1
  else false.

(** The same for [delete_polygon]: after taking a point off the draw buffer
    and after removing a vertex. *)
Definition delete_restores (s : State) : bool :=
  match drawing s, xy_buf s with
  | true, Some (_ :: _) => true
  | _, _ =>
      match ivert s, ipoly s with
      | Some _, Some p =>
          match nth_error (polygons s) p with
          | Some poly => 4 <? length (xy poly)
          | None => false
          end
      | _, _ => false
      end
  end.

(** The same for [_mouse_move_callback]: after every drag. *)
Definition move_restores (s : State) (e : Event) : bool :=
  if negb (ev_inaxes e) then false
  else if negb (ev_button e =? 1) then false
  else
    match ivert s, ipoly s with
    | None, None => false
    | _, _ => negb (add_vertex_flag s)
    end.

(** How a callback that has done its writes ends: [ok tt] when it returns,
    the exception when it raises.  [step s i] is the state it leaves in
    both cases. *)
Definition ending (s : State) (i : Input) : Result unit :=
  let restores :=
    match i with
    | Press e => press_restores s e
    | Move e => move_restores s e
    | KeyD => delete_restores s
    | _ => false
    end in
  if restores then restore_region s else ok tt.

(** States the editor can be in: those produced from [init_state] by the
    callbacks, one event at a time.  A callback that raises before it has
    written anything leaves the editor in the state it was in and is not a
    step; one that raises after its writes ([ending]) is a step to the state
    it has written. *)
Inductive reachable : State -> Prop :=
| reach_init : reachable init_state
| reach_step (s : State) (i : Input) (s' : State) :
    reachable s -> step s i = ok s' -> reachable s'.

(** ** Invariants of the selection markers *)

(** What the unguarded [self.polygons[self._ipoly]], [self.lines[...]] and
    [self.densities[...]] need when a vertex is selected. *)
Definition selection_valid (s : State) : Prop :=
  ivert s <> None ->
  exists p,
    ipoly s = Some p
    /\ p < length (polygons s)
    /\ p < length (lines s)
    /\ p < length (densities s).

(** Number of rows of each polygon's vertex array. *)
Definition row_counts (s : State) : list nat :=
  map (@length point) (map xy (polygons s)).

Definition vref_in_range (v : vertex_ref) (n : nat) : Prop :=
  Forall (fun i => i < n) (vref_indices v).

(** The inductive strengthening: the three lists have one length, the
    selected polygon exists, the selected vertex rows exist in it, no vertex
    is selected while drawing, every vertex array has at least three rows,
    and there is a draw buffer while drawing. *)
Record wf (s : State) : Prop := mkWf {
  wf_lines : length (lines s) = length (polygons s);
  wf_densities : length (densities s) = length (polygons s);
  wf_ipoly : forall p, ipoly s = Some p -> p < length (polygons s);
  wf_ivert :
    forall v, ivert s = Some v ->
    exists p n,
      ipoly s = Some p
      /\ nth_error (row_counts s) p = Some n
      /\ vref_in_range v n;
  wf_drawing : drawing s = true -> ivert s = None;
  wf_rows : Forall (fun n => 3 <= n) (row_counts s);
  wf_buffer : drawing s = true -> xy_buf s <> None
}.

(** ** Vocabulary for the insertion rule *)

(** The ring of a closed vertex array of [n + 1] rows has [n] vertices; the
    segment that starts at vertex [j] ends at vertex [ring_next n j]. *)
Definition ring_next (n j : nat) : nat := S j mod n.

Definition row (v : list point) (j : nat) : point := nth j v (0%R, 0%R).

(** Twice the signed area of the triangle [a b c]: positive when [c] is to
    the left of the line from [a] to [b]. *)
Definition cross (a b c : point) : R :=
  ((fst b - fst a) * (snd c - snd a) - (snd b - snd a) * (fst c - fst a))%R.

(** A strictly convex ring: at least three vertices, the array closed by its
    first vertex, and for every segment all the other vertices strictly on
    one and the same side of its line. *)
Definition strictly_convex (v : list point) : Prop :=
  let n := length v - 1 in
  4 <= length v
  /\ row v n = row v 0
  /\ ((forall j k, j < n -> k < n -> k <> j -> k <> ring_next n j ->
         (0 < cross (row v j) (row v (ring_next n j)) (row v k))%R)
      \/ (forall j k, j < n -> k < n -> k <> j -> k <> ring_next n j ->
            (cross (row v j) (row v (ring_next n j)) (row v k) < 0)%R)).

Definition midpoint (a b : point) : point :=
  (((fst a + fst b) / 2)%R, ((snd a + snd b) / 2)%R).

(** The cosine of the angle at [m] between the vectors to [a] and to [b],
    for [m] different from both:
    [(a - m) . (b - m) / |a - m| / |b - m|]. *)
Definition cosine_at (m a b : point) : R :=
  let ux := (fst a - fst m)%R in
  let uy := (snd a - snd m)%R in
  let vx := (fst b - fst m)%R in
  let vy := (snd b - snd m)%R in
  ((ux * vx + uy * vy) / sqrt (ux ^ 2 + uy ^ 2) / sqrt (vx ^ 2 + vy ^ 2))%R.

(** The angle under which the event sees segment [j] of the ring, when it is
    at neither end of it. *)
Definition edge_angle (v : list point) (e : Event) (j : nat) : R :=
  acos (cosine_at (ev_xdata e, ev_ydata e)
                  (row v j) (row v (ring_next (length v - 1) j))).

(** [m] is on the segment from [a] to [b], ends included: on its line, and
    the vectors from [m] to the two ends do not point the same way. *)
Definition on_segment (a b m : point) : Prop :=
  cross a b m = 0%R
  /\ ((fst a - fst m) * (fst b - fst m)
      + (snd a - snd m) * (snd b - snd m) <= 0)%R.

(** Segment [i] of the ring has two different ends and its midpoint is on no
    other segment of the ring.  This holds for every segment of a polygon
    whose boundary does not meet itself, convex or not. *)
Definition clear_midpoint (v : list point) (i : nat) : Prop :=
  let n := length v - 1 in
  row v i <> row v (ring_next n i)
  /\ forall j, j < n -> j <> i ->
       ~ on_segment (row v j) (row v (ring_next n j))
                    (midpoint (row v i) (row v (ring_next n i))).

(** Continuity at [m] of a function of a point of the plane. *)
Definition cont2 (f : point -> R) (m : point) : Prop :=
  forall eps : R, (0 < eps)%R ->
  exists delta : R,
    (0 < delta)%R
    /\ forall q : point,
         (Rabs (fst q - fst m) < delta)%R ->
         (Rabs (snd q - snd m) < delta)%R ->
         (Rabs (f q - f m) < eps)%R.

(** ** The data plot, the model and further vocabulary *)

Fixpoint amax_aux (l : list R) (b : R) : R :=
  match l with
  | [] => b
  | x :: t => if Rgt_dec x b then amax_aux t x else amax_aux t b
  end.

(** [predicted.max()]. *)
Definition amax (l : list R) : Result R :=
  match l with
  | [] => raise ValueError
  | x :: t => ok (amax_aux t x)
  end.

(** [_update_data_plot]: the pair [(vmin, vmax)] handed to
    [dataax.set_ylim], from the predicted values and the data bounds
    [self.dmin] and [self.dmax]; 1.2 is written 12 / 10. *)
Definition data_ylim (predicted : list R) (dmin dmax : R)
  : Result (R * R) :=
  lo <- amin predicted ;;
  hi <- amax predicted ;;
  ok ((12 / 10 * Rmin lo dmin)%R, (12 / 10 * Rmax hi dmax)%R).

(** [model]: for each polygon, the vertex array and the density handed to
    [fatiando.mesher.Polygon]; [zip] stops at the shorter list. *)
Definition model (s : State) : list (list point * R) :=
  map (fun pd => (xy (fst pd), snd pd)) (combine (polygons s) (densities s)).

(** The model coordinates of an event, as the draw buffer stores them. *)
Definition data_coords (e : Event) : point := (ev_xdata e, ev_ydata e).

(** A click as the host delivers it: a press and the release that follows
    it at the same place. *)
Definition click_events (e : Event) : list Input := [Press e; Release e].

(** A vertex array that ends with its first row. *)
Definition ring_closed (v : list point) : Prop :=
  v <> [] /\ nth_error v 0 = nth_error v (length v - 1).

Definition all_closed (s : State) : Prop :=
  Forall (fun q => ring_closed (xy q)) (polygons s).

(** A vertex reference as the hit-test makes it for an array of [n] rows:
    the seam pair, or one row strictly between the seam rows. *)
Definition fresh_ref (v : vertex_ref) (n : nat) : Prop :=
  match v with
  | VIdx i => 0 < i < n - 1
  | VPair a b => a = 0 /\ b = n - 1
  end.

(** What is drawn agrees with what is stored: each face colour is the
    colour of the stored density, each outline has the rows of its
    polygon. *)
Definition display_consistent (s : State) : Prop :=
  map p_color (polygons s) = densities s
  /\ map l_data (lines s) = map xy (polygons s).

(** The highlight is off: a polygon that is not animated, an outline that
    is neither animated nor green. *)
Definition quiet (sel : option nat) (ps : list Polygon) (ls : list Line2D)
  : Prop :=
  forall j, sel <> Some j ->
    (forall q, nth_error ps j = Some q -> p_animated q = false)
    /\ (forall l, nth_error ls j = Some l ->
                  l_animated l = false /\ l_color l <> Green).

(** Only the selected polygon can be highlighted, and nothing is selected
    while drawing. *)
Record highlight_ok (s : State) : Prop := mkHighlight {
  hl_quiet : quiet (ipoly s) (polygons s) (lines s);
  hl_drawing : drawing s = true -> ipoly s = None
}.

(** The selected vertex reference is the one the hit-test makes for the
    current rows of the selected polygon. *)
Definition selection_fresh (s : State) : Prop :=
  forall v p poly,
    ivert s = Some v -> ipoly s = Some p ->
    nth_error (polygons s) p = Some poly ->
    fresh_ref v (length (xy poly)).

(** A press that arrives while the add-vertex mode is armed and the seam
    pair is still the selected vertex. *)
Definition stale_insertion (s : State) (i : Input) : Prop :=
  add_vertex_flag s = true
  /\ (exists a b, ivert s = Some (VPair a b))
  /\ (exists e, i = Press e).

(** There is a saved background while drawing and while a vertex is
    selected. *)
Definition canvas_ok (s : State) : Prop :=
  (drawing s = true -> background s = true)
  /\ (ivert s <> None -> background s = true).

(** ** Facts about the list operations *)

(** Read a field of a state built with the [with_*] functions. *)
Ltac fields :=
  cbn [polygons lines densities density ipoly ivert lastevent drawing
       add_vertex_flag xy_buf background with_polygons with_lines
       with_densities with_density with_ipoly with_ivert with_lastevent
       with_drawing with_add_vertex with_xy_buf with_background].

Ltac bind_inv H :=
  match type of H with
  | bind ?m _ = _ =>
      let E := fresh "E" in
      let err := fresh "err" in
      destruct m as [err |] eqn:E; cbn [bind] in H; [discriminate |]
  end.

Lemma ok_inj {A : Type} (a b : A) : ok a = ok b -> a = b.
Proof. intros H. now inversion H. Qed.

Lemma update_at_some {A : Type} (f : A -> A) (l : list A) (i : nat) (a : A) :
  nth_error l i = Some a ->
  exists l', update_at l i f = ok l' /\ length l' = length l
             /\ nth_error l' i = Some (f a)
             /\ (forall j, j <> i -> nth_error l' j = nth_error l j).
Proof.
  revert i. induction l as [| b t IH]; intros [| i] H; simpl in H; try discriminate.
  - inversion H; subst. exists (f a :: t). repeat split; auto.
    intros [| j] Hj; [congruence | reflexivity].
  - destruct (IH i H) as (t' & Hu & Hlen & Hi & Hother).
    exists (b :: t'). simpl. rewrite Hu. simpl. repeat split; auto.
    intros [| j] Hj; simpl; auto.
Qed.

Lemma update_at_inv {A : Type} (f : A -> A) (l l' : list A) (i : nat) :
  update_at l i f = ok l' ->
  exists a, nth_error l i = Some a /\ length l' = length l
            /\ nth_error l' i = Some (f a)
            /\ (forall j, j <> i -> nth_error l' j = nth_error l j).
Proof.
  intros H. destruct (nth_error l i) as [a |] eqn:E.
  - destruct (update_at_some f l i a E) as (l2 & Hu & rest).
    rewrite Hu in H. inversion H; subst. exists a. auto.
  - exfalso. revert i l' H E.
    induction l as [| b t IH]; intros [| i] l' H E; simpl in *; try discriminate.
    destruct (update_at t i f) as [e | t'] eqn:Eu; simpl in H; try discriminate.
    eapply IH; eauto.
Qed.

Lemma update_at_error {A : Type} (f : A -> A) (l : list A) (i : nat) (err : PyError) :
  update_at l i f = inl err -> err = IndexError /\ length l <= i.
Proof.
  revert i. induction l as [| b t IH]; intros [| i] H; simpl in H.
  - inversion H. split; [reflexivity | simpl; lia].
  - inversion H. split; [reflexivity | simpl; lia].
  - discriminate.
  - destruct (update_at t i f) as [e | t'] eqn:Eu; simpl in H; try discriminate.
    inversion H; subst. destruct (IH i Eu). split; [assumption | simpl; lia].
Qed.

Lemma getitem_some {A : Type} (l : list A) (i : nat) (a : A) :
  getitem l i = ok a <-> nth_error l i = Some a.
Proof.
  unfold getitem. destruct (nth_error l i); split; intros H;
    try discriminate; inversion H; reflexivity.
Qed.

Lemma getitem_error {A : Type} (l : list A) (i : nat) (err : PyError) :
  getitem l i = inl err -> err = IndexError /\ length l <= i.
Proof.
  unfold getitem. destruct (nth_error l i) eqn:E; intros H; try discriminate.
  inversion H. split; [reflexivity | now apply nth_error_None].
Qed.

Lemma getitem_lt {A : Type} (l : list A) (i : nat) :
  i < length l -> exists a, getitem l i = ok a /\ nth_error l i = Some a.
Proof.
  intros H. unfold getitem. destruct (nth_error l i) as [a |] eqn:E.
  - exists a. auto.
  - apply nth_error_None in E. lia.
Qed.

Lemma pop_at_lt {A : Type} (l : list A) (i : nat) :
  i < length l ->
  exists l', pop_at l i = ok l' /\ l' = firstn i l ++ skipn (S i) l
             /\ S (length l') = length l.
Proof.
  revert i. induction l as [| b t IH]; intros [| i] H; simpl in H; try lia.
  - exists t. auto.
  - destruct (IH i ltac:(lia)) as (t' & Hp & Heq & Hlen).
    exists (b :: t'). simpl. rewrite Hp. simpl. subst t'. repeat split; auto.
Qed.

Lemma pop_at_inv {A : Type} (l l' : list A) (i : nat) :
  pop_at l i = ok l' ->
  i < length l /\ l' = firstn i l ++ skipn (S i) l /\ S (length l') = length l.
Proof.
  intros H. destruct (Nat.lt_ge_cases i (length l)) as [Hlt | Hge].
  - destruct (pop_at_lt l i Hlt) as (l2 & Hp & rest). rewrite Hp in H.
    inversion H; subst. auto.
  - exfalso. revert i l' H Hge.
    induction l as [| b t IH]; intros [| i] l' H Hge; simpl in *;
      try discriminate; try lia.
    destruct (pop_at t i) as [e | t'] eqn:Ep; simpl in H; try discriminate.
    eapply IH; eauto. lia.
Qed.

Lemma pop_at_error {A : Type} (l : list A) (i : nat) (err : PyError) :
  pop_at l i = inl err -> err = IndexError /\ length l <= i.
Proof.
  revert i. induction l as [| b t IH]; intros [| i] H; simpl in H.
  - inversion H. split; [reflexivity | simpl; lia].
  - inversion H. split; [reflexivity | simpl; lia].
  - discriminate.
  - destruct (pop_at t i) as [e | t'] eqn:Ep; simpl in H; try discriminate.
    inversion H; subst. destruct (IH i Ep). split; [assumption | simpl; lia].
Qed.

Lemma map_firstn_length {A : Type} (n : nat) (f : A -> A) (l : list A) :
  length (map_firstn n f l) = length l.
Proof.
  unfold map_firstn. rewrite length_app, length_map, <- length_app.
  now rewrite firstn_skipn.
Qed.

Lemma insert_after_pop {A : Type} (l : list A) (i : nat) (a : A) :
  i < length l ->
  insert_at (firstn i l ++ skipn (S i) l) i a = firstn i l ++ a :: skipn (S i) l.
Proof.
  intros H. unfold insert_at.
  assert (Hf : length (firstn i l) = i) by (rewrite length_firstn; lia).
  rewrite firstn_app, Hf, Nat.sub_diag, firstn_O, app_nil_r.
  rewrite firstn_all2 by lia.
  rewrite skipn_app, Hf, Nat.sub_diag, skipn_O.
  rewrite skipn_all2 by lia. reflexivity.
Qed.

Lemma nth_error_replaced {A : Type} (l : list A) (i : nat) (a : A) :
  i < length l ->
  let l' := firstn i l ++ a :: skipn (S i) l in
  length l' = length l
  /\ nth_error l' i = Some a
  /\ (forall j, j <> i -> nth_error l' j = nth_error l j).
Proof.
  intros H l'. subst l'.
  assert (Hf : length (firstn i l) = i) by (rewrite length_firstn; lia).
  repeat split.
  - rewrite length_app. cbn [length]. rewrite Hf, length_skipn. lia.
  - rewrite nth_error_app2 by lia. now rewrite Hf, Nat.sub_diag.
  - intros j Hj. destruct (Nat.lt_ge_cases j i) as [Hlt | Hge].
    + rewrite nth_error_app1 by lia. rewrite nth_error_firstn.
      apply Nat.ltb_lt in Hlt. now rewrite Hlt.
    + rewrite nth_error_app2 by lia. rewrite Hf.
      destruct (j - i) as [| k] eqn:E; [lia |]. cbn [nth_error].
      rewrite nth_error_skipn. f_equal. lia.
Qed.

Lemma last_nth_error {A : Type} (l : list A) (d : A) :
  l <> [] -> nth_error l (length l - 1) = Some (last l d).
Proof.
  induction l as [| a t IH]; intros H; [congruence |].
  destruct t as [| b t']; [reflexivity |].
  cbn [length last] in *. rewrite <- IH by discriminate.
  replace (S (S (length t')) - 1) with (S (S (length t') - 1)) by lia.
  reflexivity.
Qed.

Lemma setitem_lt {A : Type} (l : list A) (i : nat) (a : A) :
  i < length l ->
  exists l', setitem l i a = ok l' /\ length l' = length l
             /\ nth_error l' i = Some a
             /\ (forall j, j <> i -> nth_error l' j = nth_error l j).
Proof.
  intros H. destruct (nth_error l i) as [b |] eqn:E.
  - apply (update_at_some (fun _ => a)) in E. exact E.
  - apply nth_error_None in E. lia.
Qed.

(** ** Drawing and committing a polygon *)

(** C2. In Drawing mode a secondary click on the model axes with at least
    three buffered points appends exactly one polygon, built from the buffer
    (closed by matplotlib) with the pending density, appends that density,
    selects the new polygon, discards the buffer and leaves Drawing mode; with
    fewer than three points the click changes nothing, so the polygon list is
    the same and the editor is still drawing.  The polygon and line lists
    have one length, as in every state the editor reaches. *)
Theorem commit_on_secondary_click (s : State) (e : Event) (buf : list point) :
  ev_inaxes e = true ->
  ev_button e = 3 ->
  drawing s = true ->
  xy_buf s = Some buf ->
  length (lines s) = length (polygons s) ->
  (3 <= length buf ->
   exists s',
     button_press_callback s e = ok s'
     /\ polygons s' = polygons s ++ [mkPolygon (close_ring buf) false (density s)]
     /\ densities s' = densities s ++ [density s]
     /\ length (lines s') = S (length (lines s))
     /\ ipoly s' = Some (length (polygons s))
     /\ xy_buf s' = None
     /\ drawing s' = false)
  /\ (length buf < 3 ->
      button_press_callback s e = ok s
      /\ drawing s = true).
Proof.
  intros Hin Hb Hd Hbuf Hlen. unfold button_press_callback.
  rewrite Hin, Hb, Hd, Hbuf. cbn -[Nat.leb update_at]. split.
  - intros H3. apply Nat.leb_le in H3. rewrite H3.
    set (line := mkLine (close_ring buf) Black false).
    assert (Hnth : nth_error (lines s ++ [line])
                     (length (polygons s ++ [mkPolygon (close_ring buf) false (density s)]) - 1)
                   = Some line).
    { rewrite length_app. simpl.
      replace (length (polygons s) + 1 - 1) with (length (lines s)) by lia.
      rewrite nth_error_app2 by lia. now rewrite Nat.sub_diag. }
    destruct (update_at_some (l_set_color Green) _ _ _ Hnth) as (ls' & Hu & Hl & _).
    rewrite Hu. cbn [bind]. eexists. split; [reflexivity |]. cbn -[close_ring].
    repeat split; auto.
    all: rewrite ?Hl, !length_app; simpl; try f_equal; lia.
  - intros H3. apply Nat.leb_gt in H3. rewrite H3. auto.
Qed.

(** ** Deleting at the minimum size *)

(** C5. With a vertex selected in a polygon whose vertex array has exactly
    four entries (the editor not drawing, the polygon and its outline in
    their lists), [delete_polygon] returns normally and leaves the whole
    state as it was: the polygon, the polygon list and the densities are
    identical. *)
Theorem delete_vertex_at_minimum
  (s : State) (p : nat) (v : vertex_ref) (poly : Polygon) :
  drawing s = false ->
  ivert s = Some v ->
  ipoly s = Some p ->
  nth_error (polygons s) p = Some poly ->
  p < length (lines s) ->
  length (xy poly) = 4 ->
  delete_polygon s = ok s.
Proof.
  intros Hd Hv Hp Hpoly Hline Hlen. unfold delete_polygon.
  rewrite Hd, Hv, Hp. cbn [the_index bind ok].
  apply getitem_some in Hpoly. rewrite Hpoly. cbn [bind ok].
  destruct (getitem_lt (lines s) p Hline) as (l & Hl & _). rewrite Hl.
  cbn [bind]. rewrite Hlen. reflexivity.
Qed.

(** ** Deleting a vertex *)

Lemma drop_indices_past {A : Type} (i k : nat) (l : list A) :
  i < k -> drop_indices [i] k l = l.
Proof.
  revert k. induction l as [| a t IH]; intros k H; cbn [drop_indices existsb];
    [reflexivity |].
  destruct (Nat.eqb_spec k i) as [-> | _]; [lia |].
  cbn [orb]. f_equal. apply IH. lia.
Qed.

Lemma drop_indices_single {A : Type} (i k : nat) (l : list A) :
  k <= i ->
  drop_indices [i] k l = firstn (i - k) l ++ skipn (S (i - k)) l.
Proof.
  revert k. induction l as [| a t IH]; intros k H.
  - cbn [drop_indices]. now rewrite firstn_nil, skipn_nil.
  - cbn [drop_indices existsb]. destruct (Nat.eqb_spec k i) as [-> | Hne].
    + cbn [orb]. rewrite Nat.sub_diag. cbn [firstn skipn app].
      apply drop_indices_past. lia.
    + cbn [orb]. rewrite (IH (S k)) by lia.
      replace (i - k) with (S (i - S k)) by lia. reflexivity.
Qed.

Lemma nth_error_removed {A : Type} (l : list A) (i : nat) :
  i < length l ->
  let w := firstn i l ++ skipn (S i) l in
  S (length w) = length l
  /\ (forall j, j < i -> nth_error w j = nth_error l j)
  /\ (forall j, i <= j -> nth_error w j = nth_error l (S j)).
Proof.
  intros H w. subst w.
  assert (Hf : length (firstn i l) = i) by (rewrite length_firstn; lia).
  repeat split.
  - rewrite length_app, Hf, length_skipn. lia.
  - intros j Hj. rewrite nth_error_app1 by lia. rewrite nth_error_firstn.
    apply Nat.ltb_lt in Hj. now rewrite Hj.
  - intros j Hj. rewrite nth_error_app2 by lia. rewrite Hf, nth_error_skipn.
    f_equal. lia.
Qed.

(** A ring that already ends with its first vertex is left alone by
    [set_xy]. *)
Lemma close_ring_closed (v : list point) :
  2 <= length v ->
  nth_error v 0 = nth_error v (length v - 1) ->
  close_ring v = v.
Proof.
  intros H2 H. destruct v as [| q [| r t]]; try (simpl in H2; lia).
  unfold close_ring.
  rewrite (last_nth_error (q :: r :: t) q ltac:(discriminate)) in H.
  cbn [nth_error] in H.
  destruct (point_eq_dec q (last (q :: r :: t) q)) as [_ | Hd];
    [reflexivity | congruence].
Qed.

(** C4 (as the code has it). With a vertex array of at least five entries
    that ends with its first vertex, deleting a selected vertex that is
    neither row 0 nor the last row removes exactly that row: the array has
    one entry less, the rows before it keep their position and coordinates,
    the rows after it move up by one with their coordinates, and the other
    polygons and all densities are unchanged. *)
Theorem delete_interior_vertex
  (s : State) (p i : nat) (poly : Polygon) (line : Line2D) :
  drawing s = false ->
  ipoly s = Some p ->
  ivert s = Some (VIdx i) ->
  nth_error (polygons s) p = Some poly ->
  nth_error (lines s) p = Some line ->
  5 <= length (xy poly) ->
  0 < i < length (xy poly) - 1 ->
  nth_error (xy poly) 0 = nth_error (xy poly) (length (xy poly) - 1) ->
  exists s' poly',
    delete_polygon s = ok s'
    /\ nth_error (polygons s') p = Some poly'
    /\ S (length (xy poly')) = length (xy poly)
    /\ (forall j, j < i -> nth_error (xy poly') j = nth_error (xy poly) j)
    /\ (forall j, i <= j -> nth_error (xy poly') j = nth_error (xy poly) (S j))
    /\ (forall q, q <> p -> nth_error (polygons s') q = nth_error (polygons s) q)
    /\ length (polygons s') = length (polygons s)
    /\ densities s' = densities s
    /\ ivert s' = None
    /\ ipoly s' = Some p.
Proof.
  intros Hd Hp Hv Hpoly Hline H5 Hi Hseam.
  set (w := firstn i (xy poly) ++ skipn (S i) (xy poly)).
  destruct (nth_error_removed (xy poly) i ltac:(lia)) as (Lw & Bw & Aw).
  fold w in Lw, Bw, Aw.
  assert (Hdrop : drop_indices [i] 0 (xy poly) = w).
  { rewrite drop_indices_single by lia. now rewrite Nat.sub_0_r. }
  assert (Hclose : close_ring w = w).
  { apply close_ring_closed.
    - lia.
    - rewrite Bw by lia. rewrite Aw by lia. rewrite Hseam. f_equal. lia. }
  destruct (setitem_lt (polygons s) p (set_xy w poly))
    as (ps & Hps & Lps & Nps & Ops).
  { apply nth_error_Some. congruence. }
  destruct (update_at_some (l_set_data (xy (set_xy w poly))) _ _ _ Hline)
    as (ls & Hls & _).
  unfold delete_polygon. rewrite Hd, Hv, Hp. cbn [the_index bind ok vref_indices].
  apply getitem_some in Hpoly, Hline. rewrite Hpoly. cbn [bind ok].
  rewrite Hline. cbn [bind ok].
  replace (4 <? length (xy poly)) with true by (symmetry; apply Nat.ltb_lt; lia).
  rewrite Hdrop, Hps. cbn [bind ok]. rewrite Hls. cbn [bind ok].
  eexists. exists (set_xy w poly). split; [reflexivity |].
  cbn [polygons densities ivert ipoly with_ivert with_lines with_polygons].
  unfold set_xy at 2 3 4. cbn [xy set_xy_raw]. rewrite Hclose.
  repeat split; auto.
Qed.

(** ** Cancelling *)

Lemma map_xy_map_firstn (n : nat) (b : bool) (l : list Polygon) :
  map xy (map_firstn n (p_set_animated b) l) = map xy l.
Proof.
  unfold map_firstn. rewrite map_app, map_map. cbn [p_set_animated xy].
  rewrite <- map_app. now rewrite firstn_skipn.
Qed.

(** C6 (as the code has it). When the add-vertex flag is set, the cancel
    command clears that flag and nothing else.  Otherwise it leaves Drawing
    mode and empties the draw buffer; the selection markers, the vertex
    arrays and the densities stay as they were. *)
Theorem cancel_drawing_effect (s : State) :
  (add_vertex_flag s = true ->
   cancel_drawing s = with_add_vertex s false)
  /\ (add_vertex_flag s = false ->
      drawing (cancel_drawing s) = false
      /\ xy_buf (cancel_drawing s) = Some []
      /\ add_vertex_flag (cancel_drawing s) = false
      /\ ipoly (cancel_drawing s) = ipoly s
      /\ ivert (cancel_drawing s) = ivert s
      /\ map xy (polygons (cancel_drawing s)) = map xy (polygons s)
      /\ densities (cancel_drawing s) = densities s).
Proof.
  unfold cancel_drawing. split; intros H; rewrite H; [reflexivity |].
  cbn -[Nat.min map_firstn]. repeat split; auto.
  apply map_xy_map_firstn.
Qed.

(** ** Inserting a vertex in add-vertex mode *)

Lemma first_max_aux_bound (l : list R) (i ib : nat) (b : R) :
  ib < i -> first_max_aux l i ib b < i + length l.
Proof.
  revert i ib b. induction l as [| x t IH]; intros i ib b H; cbn [first_max_aux length].
  - lia.
  - destruct (Rgt_dec x b).
    + specialize (IH (S i) i x ltac:(lia)). lia.
    + specialize (IH (S i) ib b ltac:(lia)). lia.
Qed.

Lemma first_max_bound (l : list R) (a : nat) :
  first_max l = ok a -> a < length l.
Proof.
  destruct l as [| x t]; cbn [first_max]; intros H; [discriminate |].
  inversion H. pose proof (first_max_aux_bound t 1 0 x ltac:(lia)). simpl. lia.
Qed.

Lemma argmax_aux_bound (l : list npfloat) (i ib : nat) (b : npfloat) :
  ib < i -> argmax_aux l i ib b < i + length l.
Proof.
  revert i ib b. induction l as [| x t IH]; intros i ib b H;
    cbn [argmax_aux length]; [lia |].
  pose proof (IH (S i) ib b ltac:(lia)) as Hkeep.
  pose proof (IH (S i) i x ltac:(lia)) as Htake.
  destruct (fle x b); [lia |]. destruct x; lia.
Qed.

Lemma argmax_bound (l : list npfloat) (a : nat) :
  argmax l = ok a -> a < length l.
Proof.
  destruct l as [| x t]; cbn [argmax]; intros H; [discriminate |].
  assert (Haux : forall b, argmax_aux t 1 0 b < length (x :: t)).
  { intros b. pose proof (argmax_aux_bound t 1 0 b ltac:(lia)).
    cbn [length]. lia. }
  destruct x; apply ok_inj in H; subst a; try apply Haux.
  cbn [length]. lia.
Qed.

Lemma roll_left_length {A : Type} (l : list A) :
  length (roll_left l) = length l.
Proof.
  destruct l as [| a t]; cbn [roll_left]; [reflexivity |].
  rewrite length_app. simpl. lia.
Qed.

Lemma removelast_length {A : Type} (l : list A) :
  length (removelast l) = length l - 1.
Proof.
  rewrite removelast_firstn_len, length_firstn. lia.
Qed.

Lemma segment_angles_length (v : list point) (e : Event) :
  length (segment_angles v e) = length v - 1.
Proof.
  unfold segment_angles.
  rewrite length_map, length_combine, roll_left_length, removelast_length. lia.
Qed.

(** On an array of at least two rows [_add_new_vertex] returns: there is a
    segment, its position [a] is below the seam, and the new row sits at
    [a + 1]. *)
Lemma add_new_vertex_total (v : list point) (e : Event) :
  2 <= length v ->
  exists a,
    argmax (segment_angles v e) = ok a
    /\ a < length v - 1
    /\ add_new_vertex v e
       = ok (firstn (a + 1) v ++ (ev_xdata e, ev_ydata e) :: skipn (a + 1) v).
Proof.
  intros H. unfold add_new_vertex.
  destruct (argmax (segment_angles v e)) as [err | a] eqn:E.
  - destruct (segment_angles v e) as [| x t] eqn:E2;
      [| destruct x; discriminate].
    apply (f_equal (@length npfloat)) in E2.
    rewrite segment_angles_length in E2. simpl in E2. lia.
  - exists a. split; [reflexivity |]. split; [| reflexivity].
    apply argmax_bound in E. now rewrite segment_angles_length in E.
Qed.

Lemma close_ring_length (v : list point) :
  length v <= length (close_ring v) <= S (length v).
Proof.
  unfold close_ring. destruct v as [| q [| r t]]; [simpl; lia | simpl; lia |].
  destruct (point_eq_dec q (last (q :: r :: t) q)); [lia |].
  rewrite length_app. simpl. lia.
Qed.

Lemma inserted_length {A : Type} (v : list A) (k : nat) (a : A) :
  length (firstn k v ++ a :: skipn k v) = S (length v).
Proof.
  rewrite length_app. cbn [length]. rewrite length_firstn, length_skipn. lia.
Qed.

(** A primary press on the model axes while the add-vertex mode is armed and
    a polygon is selected: the polygon is replaced by one with the extra
    vertex; the markers and the armed flag are not written. *)
Lemma press_armed
  (s : State) (e : Event) (p : nat) (poly : Polygon) (line : Line2D) (d : R) :
  ev_inaxes e = true ->
  ev_button e = 1 ->
  drawing s = false ->
  add_vertex_flag s = true ->
  ipoly s = Some p ->
  nth_error (polygons s) p = Some poly ->
  nth_error (lines s) p = Some line ->
  nth_error (densities s) p = Some d ->
  2 <= length (xy poly) ->
  exists s' vertices,
    button_press_callback s e = ok s'
    /\ add_new_vertex (xy poly) e = ok vertices
    /\ length vertices = S (length (xy poly))
    /\ nth_error (polygons s') p = Some (mkPolygon (close_ring vertices) false d)
    /\ length (polygons s') = length (polygons s)
    /\ length (lines s') = length (lines s)
    /\ (forall j, j <> p -> nth_error (polygons s') j = nth_error (polygons s) j)
    /\ densities s' = densities s
    /\ add_vertex_flag s' = true
    /\ ipoly s' = Some p
    /\ ivert s' = ivert s
    /\ drawing s' = false
    /\ xy_buf s' = xy_buf s
    /\ lastevent s' = Some e.
Proof.
  intros Hin Hb Hd Ha Hp Hpoly Hline Hdens H2.
  assert (Hpl : p < length (polygons s)) by (apply nth_error_Some; congruence).
  assert (Hll : p < length (lines s)) by (apply nth_error_Some; congruence).
  destruct (add_new_vertex_total (xy poly) e H2) as (a & _ & _ & Hadd).
  unfold button_press_callback. rewrite Hin, Hb, Hd.
  destruct (length (polygons s) =? 0) eqn:E0; [apply Nat.eqb_eq in E0; lia |].
  cbn -[add_new_vertex make_polygon insert_at].
  rewrite Ha, Hp. cbn -[add_new_vertex make_polygon insert_at].
  apply getitem_some in Hpoly, Hline, Hdens.
  rewrite Hpoly. cbn [bind ok]. rewrite Hadd. cbn [bind ok].
  rewrite Hdens. cbn [bind ok]. rewrite Hline. cbn [bind ok].
  destruct (pop_at_lt (polygons s) p Hpl) as (ps & Hps & Eps & _).
  destruct (pop_at_lt (lines s) p Hll) as (ls & Hls & Els & _).
  rewrite Hps. cbn [bind ok]. rewrite Hls. cbn [bind ok]. subst ps ls.
  rewrite !insert_after_pop by assumption.
  set (vertices := firstn (a + 1) (xy poly)
                     ++ (ev_xdata e, ev_ydata e) :: skipn (a + 1) (xy poly)) in *.
  destruct (nth_error_replaced (polygons s) p (fst (make_polygon vertices d)) Hpl)
    as (Lp & Np & Op).
  destruct (nth_error_replaced (lines s) p (snd (make_polygon vertices d)) Hll)
    as (Ll & Nl & _).
  destruct (update_at_some (l_set_color Green) _ _ _ Nl) as (ls' & Hu & Lu & _).
  rewrite Hu. cbn [bind ok]. eexists. exists vertices.
  split; [reflexivity |]. cbn -[make_polygon close_ring].
  repeat split; auto.
  - apply inserted_length.
  - congruence.
Qed.

Lemma update_at_map_xy (l l' : list Polygon) (i : nat) (f : Polygon -> Polygon) :
  (forall q, xy (f q) = xy q) ->
  update_at l i f = ok l' -> map xy l' = map xy l.
Proof.
  intros Hf. revert i l'.
  induction l as [| a t IH]; intros [| i] l' H; cbn [update_at] in H;
    try discriminate.
  - inversion H. cbn [map]. now rewrite Hf.
  - destruct (update_at t i f) as [err | t'] eqn:E; cbn [bind] in H;
      try discriminate.
    inversion H. cbn [map]. f_equal. eapply IH; eauto.
Qed.

(** A press while the add-vertex mode is not armed and the editor is not
    drawing leaves every vertex array as it was. *)
Lemma press_unarmed_keeps_vertices (s s' : State) (e : Event) :
  add_vertex_flag s = false ->
  drawing s = false ->
  button_press_callback s e = ok s' ->
  map xy (polygons s') = map xy (polygons s).
Proof.
  intros Ha Hd. unfold button_press_callback. rewrite Hd.
  destruct (negb (ev_inaxes e)); [intros H; inversion H; reflexivity |].
  destruct ((ev_button e =? 1) && negb false && negb (length (polygons s) =? 0));
    [| intros H; inversion H; reflexivity].
  cbn -[unhighlight get_polygon_vertice_id]. rewrite Ha.
  cbn -[unhighlight get_polygon_vertice_id].
  assert (Hun : map xy (polygons (unhighlight (with_lastevent s (Some e))))
                = map xy (polygons s)).
  { cbn -[Nat.min map_firstn]. apply map_xy_map_firstn. }
  destruct (get_polygon_vertice_id _ e) as [err | r]; cbn [bind];
    [discriminate |].
  destruct (fst r) as [p |]; cbn -[unhighlight].
  - destruct (getitem _ p) as [err | d0]; cbn [bind]; [discriminate |].
    destruct (update_at _ p (p_set_animated true)) as [err | ps] eqn:Eps;
      cbn [bind]; [discriminate |].
    destruct (update_at (lines _) p _) as [err | ls] eqn:Els; cbn [bind];
      [discriminate |].
    intros H. inversion H. cbn -[unhighlight].
    apply update_at_map_xy in Eps; [| reflexivity]. congruence.
  - intros H. inversion H. cbn -[unhighlight]. exact Hun.
Qed.

(** A primary release on the model axes always leaves the add-vertex mode
    off. *)
Lemma release_disarms (s : State) (e : Event) :
  ev_inaxes e = true ->
  ev_button e = 1 ->
  add_vertex_flag (button_release_callback s e) = false.
Proof.
  intros Hin Hb. unfold button_release_callback. rewrite Hin, Hb.
  cbn [negb Nat.eqb]. destruct (add_vertex_flag s) eqn:Ha.
  - cbn -[unanimate]. now destruct (ivert s), (ipoly s).
  - destruct (ivert s), (ipoly s); cbn -[Nat.min map_firstn]; auto.
Qed.

(** C7 (as the code has it). An insertion click in armed add-vertex mode:
    the primary press inserts one vertex in the selected polygon and leaves
    the mode armed, and the primary release that ends the click disarms it.
    A later primary press therefore inserts nothing: every vertex array is
    what it was after the release. *)
Theorem armed_click_disarms_on_release
  (s : State) (e1 e2 : Event) (p : nat)
  (poly : Polygon) (line : Line2D) (d : R) :
  ev_inaxes e1 = true ->
  ev_button e1 = 1 ->
  ev_inaxes e2 = true ->
  ev_button e2 = 1 ->
  drawing s = false ->
  add_vertex_flag s = true ->
  ipoly s = Some p ->
  nth_error (polygons s) p = Some poly ->
  nth_error (lines s) p = Some line ->
  nth_error (densities s) p = Some d ->
  2 <= length (xy poly) ->
  exists s1 poly1,
    button_press_callback s e1 = ok s1
    /\ nth_error (polygons s1) p = Some poly1
    /\ S (length (xy poly)) <= length (xy poly1)
    /\ add_vertex_flag s1 = true
    /\ add_vertex_flag (button_release_callback s1 e2) = false
    /\ (forall e3 s3,
          button_press_callback (button_release_callback s1 e2) e3 = ok s3 ->
          map xy (polygons s3) = map xy (polygons s1)).
Proof.
  intros Hin1 Hb1 Hin2 Hb2 Hd Ha Hp Hpoly Hline Hdens H2.
  destruct (press_armed s e1 p poly line d Hin1 Hb1 Hd Ha Hp Hpoly Hline Hdens H2)
    as (s1 & vertices & Hpress & _ & Hlen & Hnew & _ & _ & _ & _ & Ha1 & Hp1
        & _ & Hd1 & _).
  exists s1, (mkPolygon (close_ring vertices) false d).
  split; [assumption |]. split; [assumption |].
  split; [cbn [xy]; pose proof (close_ring_length vertices); lia |].
  split; [assumption |].
  assert (Hrel : button_release_callback s1 e2
                 = with_lastevent
                     (with_ivert
                        (unanimate
                           (with_background (with_add_vertex s1 false) false))
                        None)
                     None).
  { unfold button_release_callback. rewrite Hin2, Hb2, Ha1.
    cbn -[unanimate]. rewrite Hp1. now destruct (ivert s1). }
  split; [now apply release_disarms |].
  intros e3 s3 H3.
  apply press_unarmed_keeps_vertices in H3.
  - rewrite H3, Hrel. cbn -[Nat.min map_firstn]. apply map_xy_map_firstn.
  - rewrite Hrel. reflexivity.
  - rewrite Hrel. cbn -[Nat.min map_firstn]. assumption.
Qed.

(** ** Dragging *)

(** Writing a point to the rows of a vertex reference that is in range. *)
Lemma assign_rows_in_range (v : vertex_ref) (pt : point) (rows : list point) :
  Forall (fun i => i < length rows) (vref_indices v) ->
  exists rows',
    assign_rows v pt rows = ok rows'
    /\ length rows' = length rows
    /\ (forall i, In i (vref_indices v) -> nth_error rows' i = Some pt)
    /\ (forall j, ~ In j (vref_indices v) -> nth_error rows' j = nth_error rows j).
Proof.
  intros H. destruct v as [i | a b]; cbn [vref_indices assign_rows] in *.
  - inversion H as [| ? ? Hi _]; subst.
    destruct (setitem_lt rows i pt Hi) as (r & Hs & Hl & Hn & Ho).
    exists r. repeat split; auto.
    + intros k [Hk | []]. now subst.
    + intros j Hj. apply Ho. intros ->. apply Hj. now left.
  - inversion H as [| ? ? Ha Hb']; subst. inversion Hb' as [| ? ? Hb _]; subst.
    destruct (setitem_lt rows a pt Ha) as (r & Hs & Hl & Hn & Ho).
    rewrite Hs. cbn [bind ok].
    destruct (setitem_lt r b pt ltac:(lia)) as (r2 & Hs2 & Hl2 & Hn2 & Ho2).
    exists r2. repeat split; auto; try lia.
    + intros k [Hk | [Hk | []]]; subst; auto.
      destruct (Nat.eq_dec k b) as [-> | Hne]; auto.
      rewrite Ho2 by assumption. assumption.
    + intros j Hj. rewrite Ho2, Ho; auto.
      * intros ->. apply Hj. now left.
      * intros ->. apply Hj. right. now left.
Qed.

(** The body of [_mouse_move_callback] once its guards are passed and the
    new rows [new_xy] are known: the polygon and its outline receive them
    and the event becomes the drag anchor. *)
Lemma move_commit
  (s : State) (e : Event) (p : nat) (poly : Polygon) (line : Line2D)
  (new_xy : list point) :
  nth_error (polygons s) p = Some poly ->
  nth_error (lines s) p = Some line ->
  exists ps ls,
    update_at (polygons s) p (set_xy_raw new_xy) = ok ps
    /\ update_at (lines s) p (l_set_data new_xy) = ok ls
    /\ nth_error ps p = Some (set_xy_raw new_xy poly)
    /\ (forall j, j <> p -> nth_error ps j = nth_error (polygons s) j)
    /\ length ps = length (polygons s)
    /\ length ls = length (lines s).
Proof.
  intros Hpoly Hline.
  destruct (update_at_some (set_xy_raw new_xy) _ _ _ Hpoly) as (ps & Hp & Lp & Np & Op).
  destruct (update_at_some (l_set_data new_xy) _ _ _ Hline) as (ls & Hl & Ll & _).
  exists ps, ls. repeat split; auto.
Qed.

(** C9. With the seam pair [[0, last]] as the selected vertex, a move with
    the primary button held writes the pointer's model coordinate to row 0
    and to the last row of the polygon's vertex array, so both seam rows hold
    the same new coordinate; the other rows are not written. *)
Theorem seam_drag_writes_both_rows
  (s : State) (e : Event) (p : nat) (poly : Polygon) (line : Line2D) :
  ev_inaxes e = true ->
  ev_button e = 1 ->
  add_vertex_flag s = false ->
  ipoly s = Some p ->
  nth_error (polygons s) p = Some poly ->
  nth_error (lines s) p = Some line ->
  xy poly <> [] ->
  ivert s = Some (VPair 0 (length (xy poly) - 1)) ->
  exists s' poly',
    mouse_move_callback s e = ok s'
    /\ nth_error (polygons s') p = Some poly'
    /\ length (xy poly') = length (xy poly)
    /\ nth_error (xy poly') 0 = Some (ev_xdata e, ev_ydata e)
    /\ nth_error (xy poly') (length (xy poly') - 1)
       = Some (ev_xdata e, ev_ydata e)
    /\ (forall j, j <> 0 -> j <> length (xy poly) - 1 ->
                  nth_error (xy poly') j = nth_error (xy poly) j).
Proof.
  intros Hin Hb Ha Hp Hpoly Hline Hne Hv.
  assert (Hlen : 0 < length (xy poly)).
  { destruct (xy poly); [congruence | simpl; lia]. }
  destruct (assign_rows_in_range (VPair 0 (length (xy poly) - 1))
              (ev_xdata e, ev_ydata e) (xy poly))
    as (rows & Hrows & Hl & Hset & Hkeep).
  { cbn [vref_indices]. repeat constructor; lia. }
  destruct (move_commit s e p poly line rows Hpoly Hline)
    as (ps & ls & Hps & Hls & Np & _).
  unfold mouse_move_callback. rewrite Hin, Hb, Hv, Ha, Hp.
  cbn [negb Nat.eqb the_index bind ok].
  apply getitem_some in Hpoly. rewrite Hpoly. cbn [bind ok].
  rewrite Hrows. cbn [bind ok]. rewrite Hps. cbn [bind ok]. rewrite Hls. cbn [bind ok].
  eexists. exists (set_xy_raw rows poly). split; [reflexivity |].
  cbn [polygons with_lastevent with_lines with_polygons xy set_xy_raw].
  split; [assumption |]. split; [assumption |].
  split; [apply Hset; now left |].
  split; [rewrite Hl; apply Hset; right; now left |].
  intros j H0 Hlast. apply Hkeep. cbn [vref_indices].
  intros [H | [H | []]]; congruence.
Qed.

Lemma euclid_translate (a b : point) (dx dy : R) :
  euclid ((fst a + dx)%R, (snd a + dy)%R) ((fst b + dx)%R, (snd b + dy)%R)
  = euclid a b.
Proof.
  unfold euclid. cbn [fst snd]. f_equal. ring.
Qed.

(** C8. With a polygon selected and no vertex selected, a move with the
    primary button held adds to every row of that polygon's vertex array the
    difference between the event's model position and the previous event's,
    and nothing else; the distance between any two of its vertices is the
    same before and after.  The other polygons are not touched. *)
Theorem polygon_drag_translates
  (s : State) (e le : Event) (p : nat) (poly : Polygon) (line : Line2D) :
  ev_inaxes e = true ->
  ev_button e = 1 ->
  add_vertex_flag s = false ->
  ivert s = None ->
  ipoly s = Some p ->
  lastevent s = Some le ->
  nth_error (polygons s) p = Some poly ->
  nth_error (lines s) p = Some line ->
  exists s' poly',
    mouse_move_callback s e = ok s'
    /\ nth_error (polygons s') p = Some poly'
    /\ xy poly'
       = map (fun q => ((fst q + (ev_xdata e - ev_xdata le))%R,
                        (snd q + (ev_ydata e - ev_ydata le))%R))
             (xy poly)
    /\ (forall i j a b a' b',
          nth_error (xy poly) i = Some a ->
          nth_error (xy poly) j = Some b ->
          nth_error (xy poly') i = Some a' ->
          nth_error (xy poly') j = Some b' ->
          euclid a' b' = euclid a b)
    /\ (forall q, q <> p -> nth_error (polygons s') q = nth_error (polygons s) q)
    /\ densities s' = densities s
    /\ lastevent s' = Some e.
Proof.
  intros Hin Hb Ha Hv Hp Hle Hpoly Hline.
  set (dx := (ev_xdata e - ev_xdata le)%R).
  set (dy := (ev_ydata e - ev_ydata le)%R).
  destruct (move_commit s e p poly line (translate dx dy (xy poly)) Hpoly Hline)
    as (ps & ls & Hps & Hls & Np & Op & _).
  unfold mouse_move_callback. rewrite Hin, Hb, Hv, Ha, Hp, Hle.
  cbn [negb Nat.eqb the_index bind ok].
  apply getitem_some in Hpoly. rewrite Hpoly. cbn [bind ok].
  fold dx dy. rewrite Hps. cbn [bind ok]. rewrite Hls. cbn [bind ok].
  eexists. exists (set_xy_raw (translate dx dy (xy poly)) poly).
  split; [reflexivity |].
  cbn [polygons densities lastevent with_lastevent with_lines with_polygons
       xy set_xy_raw].
  split; [assumption |]. split; [reflexivity |].
  split; [| repeat split; auto].
  intros i j a b a' b' Hi Hj Hi' Hj'. unfold translate in Hi', Hj'.
  rewrite nth_error_map in Hi', Hj'. unfold point in *. rewrite Hi in Hi'. rewrite Hj in Hj'.
  cbn [option_map] in Hi', Hj'. inversion Hi'; inversion Hj'.
  apply euclid_translate.
Qed.

(** ** Hit-testing *)

Lemma argmin_aux_spec (l : list R) (i ib : nat) (b : R) :
  ib < i ->
  (amin_aux l b <= b)%R
  /\ (forall x, In x l -> (amin_aux l b <= x)%R)
  /\ ((argmin_aux l i ib b = ib /\ amin_aux l b = b)
      \/ (i <= argmin_aux l i ib b
          /\ nth_error l (argmin_aux l i ib b - i) = Some (amin_aux l b))).
Proof.
  revert i ib b. induction l as [| x t IH]; intros i ib b H;
    cbn [argmin_aux amin_aux].
  - split; [lra |]. split; [intros x [] |]. now left.
  - destruct (Rlt_dec x b) as [Hlt | Hge].
    + destruct (IH (S i) i x ltac:(lia)) as (Hb & Hall & Hpos).
      split; [lra |]. split.
      * intros y [<- | Hy]; [assumption | now apply Hall].
      * right. destruct Hpos as [[-> ->] | [Hle Hn]].
        -- split; [lia |]. now rewrite Nat.sub_diag.
        -- split; [lia |].
           replace (argmin_aux t (S i) i x - i)
             with (S (argmin_aux t (S i) i x - S i)) by lia.
           exact Hn.
    + destruct (IH (S i) ib b ltac:(lia)) as (Hb & Hall & Hpos).
      split; [assumption |]. split.
      * intros y [<- | Hy]; [lra | now apply Hall].
      * destruct Hpos as [[-> ->] | [Hle Hn]]; [now left |].
        right. split; [lia |].
        replace (argmin_aux t (S i) ib b - i)
          with (S (argmin_aux t (S i) ib b - S i)) by lia.
        exact Hn.
Qed.

(** On a non-empty array [argmin] and [min] agree: the index returned holds
    the minimum, which is below every entry. *)
Lemma argmin_amin (l : list R) :
  l <> [] ->
  exists r m,
    argmin l = ok r /\ amin l = ok m
    /\ nth_error l r = Some m
    /\ (forall x, In x l -> (m <= x)%R).
Proof.
  destruct l as [| x t]; [congruence | intros _].
  destruct (argmin_aux_spec t 1 0 x ltac:(lia)) as (Hb & Hall & Hpos).
  exists (argmin_aux t 1 0 x), (amin_aux t x).
  split; [reflexivity |]. split; [reflexivity |]. split.
  - destruct Hpos as [[-> ->] | [Hle Hn]]; [reflexivity |].
    destruct (argmin_aux t 1 0 x) as [| r]; [lia |].
    cbn [nth_error]. replace (S r - 1) with r in Hn by lia. exact Hn.
  - intros y [<- | Hy]; [assumption | now apply Hall].
Qed.

Lemma nearest_per_polygon_spec (polys : list Polygon) (e : Event) :
  Forall (fun q => xy q <> []) polys ->
  exists ds ixs,
    nearest_per_polygon polys e = ok (ds, ixs)
    /\ length ds = length polys
    /\ length ixs = length polys
    /\ (forall q poly,
          nth_error polys q = Some poly ->
          exists m i vtx,
            nth_error ds q = Some m
            /\ nth_error ixs q = Some i
            /\ nth_error (xy poly) i = Some vtx
            /\ pixel_dist e vtx = m
            /\ (forall w, In w (xy poly) -> (m <= pixel_dist e w)%R)).
Proof.
  induction 1 as [| poly rest Hne Hrest IH].
  - exists [], []. repeat split; auto. intros [| q] poly H; discriminate.
  - destruct IH as (ds & ixs & Hrun & Hld & Hli & Hspec).
    destruct (argmin_amin (map (pixel_dist e) (xy poly)))
      as (r & m & Hr & Hm & Hnth & Hmin).
    { destruct (xy poly); [congruence | discriminate]. }
    exists (m :: ds), (r :: ixs). cbn [nearest_per_polygon].
    rewrite Hm, Hr, Hrun. cbn [bind ok fst snd length].
    split; [reflexivity |]. split; [lia |]. split; [lia |].
    intros [| q] poly' Hq; cbn [nth_error] in *.
    + inversion Hq; subst poly'. rewrite nth_error_map in Hnth.
      destruct (nth_error (xy poly) r) as [vtx |] eqn:Ev; [| discriminate].
      cbn [option_map] in Hnth. inversion Hnth.
      exists (pixel_dist e vtx), r, vtx. repeat split; auto.
      intros w Hw. rewrite H0. apply Hmin. now apply in_map.
    + now apply Hspec.
Qed.

Lemma first_containing_spec (polys : list Polygon) (pt : point) (k : nat) :
  match first_containing polys pt k with
  | Some q =>
      k <= q
      /\ (exists poly, nth_error polys (q - k) = Some poly
                       /\ contains_point (xy poly) pt = true)
      /\ (forall j poly, j < q - k -> nth_error polys j = Some poly ->
                         contains_point (xy poly) pt = false)
  | None =>
      forall poly, In poly polys -> contains_point (xy poly) pt = false
  end.
Proof.
  revert k. induction polys as [| poly rest IH]; intros k;
    cbn [first_containing].
  - intros poly [].
  - destruct (contains_point (xy poly) pt) eqn:E.
    + split; [lia |]. rewrite Nat.sub_diag. split.
      * exists poly. now split.
      * intros j poly' Hj. lia.
    + specialize (IH (S k)). destruct (first_containing rest pt (S k)) as [q |].
      * destruct IH as (Hle & (poly' & Hn & Hc) & Hbefore).
        split; [lia |].
        replace (q - k) with (S (q - S k)) by lia. split.
        -- exists poly'. now split.
        -- intros [| j] poly'' Hj Hnth; cbn [nth_error] in Hnth.
           ++ now inversion Hnth; subst.
           ++ apply (Hbefore j); [lia | assumption].
      * intros poly' [<- | Hin]; [assumption | now apply IH].
Qed.

(** The hit-test reads the vertex arrays only. *)
Lemma nearest_per_polygon_ext (polys polys' : list Polygon) (e : Event) :
  map xy polys = map xy polys' ->
  nearest_per_polygon polys e = nearest_per_polygon polys' e.
Proof.
  revert polys'. induction polys as [| q t IH]; intros [| q' t'] H;
    cbn [map] in H; try discriminate; [reflexivity |].
  inversion H as [[Hq Ht]]. cbn [nearest_per_polygon].
  rewrite Hq, (IH t' Ht). reflexivity.
Qed.

Lemma first_containing_ext (polys polys' : list Polygon) (pt : point) (k : nat) :
  map xy polys = map xy polys' ->
  first_containing polys pt k = first_containing polys' pt k.
Proof.
  revert polys' k. induction polys as [| q t IH]; intros [| q' t'] k H;
    cbn [map] in H; try discriminate; [reflexivity |].
  inversion H as [[Hq Ht]]. cbn [first_containing].
  rewrite Hq, (IH t' (S k) Ht). reflexivity.
Qed.

Lemma hit_test_ext (polys polys' : list Polygon) (e : Event) :
  map xy polys = map xy polys' ->
  get_polygon_vertice_id polys e = get_polygon_vertice_id polys' e.
Proof.
  intros H. unfold get_polygon_vertice_id.
  rewrite (nearest_per_polygon_ext polys polys' e H).
  destruct (nearest_per_polygon polys' e) as [? | r]; cbn [bind];
    [reflexivity |].
  destruct (argmin (fst r)) as [? | p]; cbn [bind]; [reflexivity |].
  destruct (getitem (fst r) p) as [? | dp]; cbn [bind]; [reflexivity |].
  rewrite (first_containing_ext polys polys' _ 0 H).
  destruct (Rge_dec dp epsilon); [reflexivity |].
  destruct (getitem (snd r) p) as [? | v]; cbn [bind]; [reflexivity |].
  assert (Hn : option_map xy (nth_error polys p)
               = option_map xy (nth_error polys' p)).
  { rewrite <- !nth_error_map. now rewrite H. }
  unfold getitem.
  destruct (nth_error polys p) as [q |], (nth_error polys' p) as [q' |];
    cbn [option_map] in Hn; try discriminate; [| reflexivity].
  inversion Hn as [Hq]. cbn [bind ok]. now rewrite Hq.
Qed.

(** A primary press on the model axes, not drawing, not armed, with at least
    one polygon: the selection markers become the answer of the hit-test on
    the polygons as they were. *)
Lemma press_stores_hit_test (s s' : State) (e : Event) :
  ev_inaxes e = true ->
  ev_button e = 1 ->
  drawing s = false ->
  polygons s <> [] ->
  add_vertex_flag s = false ->
  button_press_callback s e = ok s' ->
  get_polygon_vertice_id (polygons s) e = ok (ipoly s', ivert s').
Proof.
  intros Hin Hb Hdr Hne Ha. unfold button_press_callback.
  rewrite Hin, Hb, Hdr.
  destruct (polygons s) as [| q0 t] eqn:Epolys; [congruence |].
  cbn [negb andb Nat.eqb length]. rewrite <- Epolys.
  cbn [add_vertex_flag with_lastevent]. rewrite Ha. cbn [negb].
  set (u := unhighlight (with_lastevent s (Some e))).
  assert (Hxy : map xy (polygons u) = map xy (polygons s)).
  { subst u. cbn -[Nat.min map_firstn]. apply map_xy_map_firstn. }
  rewrite <- (hit_test_ext (polygons u) (polygons s) e Hxy).
  destruct (get_polygon_vertice_id (polygons u) e) as [? | [rp rv]];
    cbn [bind fst snd]; [discriminate |].
  fields. destruct rp as [p |].
  - destruct (getitem (densities u) p) as [? | d]; cbn [bind];
      [discriminate |].
    destruct (update_at (polygons u) p _) as [? | ps]; cbn [bind];
      [discriminate |].
    destruct (update_at (lines u) p _) as [? | ls]; cbn [bind];
      [discriminate |].
    intros Hs. apply ok_inj in Hs. subst s'. reflexivity.
  - intros Hs. apply ok_inj in Hs. subst s'. reflexivity.
Qed.

(** The cases of the hit-test, in terms of [pixel_dist] and [epsilon]. *)
Lemma hit_test_cases (polys : list Polygon) (e : Event) :
  polys <> [] ->
  Forall (fun q => xy q <> []) polys ->
  exists p poly i vtx,
    nth_error polys p = Some poly
    /\ nth_error (xy poly) i = Some vtx
    /\ (forall q poly' j w,
          nth_error polys q = Some poly' ->
          nth_error (xy poly') j = Some w ->
          (pixel_dist e vtx <= pixel_dist e w)%R)
    /\ ((pixel_dist e vtx < epsilon)%R ->
        get_polygon_vertice_id polys e
        = ok (Some p,
              Some (if (i =? 0) || (i =? length (xy poly) - 1)
                    then VPair 0 (length (xy poly) - 1)
                    else VIdx i)))
    /\ ((epsilon <= pixel_dist e vtx)%R ->
        exists r,
          get_polygon_vertice_id polys e = ok (r, None)
          /\ match r with
             | Some q =>
                 (exists poly',
                    nth_error polys q = Some poly'
                    /\ contains_point (xy poly') (ev_x e, ev_y e) = true)
                 /\ (forall j poly',
                       j < q -> nth_error polys j = Some poly' ->
                       contains_point (xy poly') (ev_x e, ev_y e) = false)
             | None =>
                 forall poly',
                   In poly' polys ->
                   contains_point (xy poly') (ev_x e, ev_y e) = false
             end).
Proof.
  intros Hne Hall.
  destruct (nearest_per_polygon_spec polys e Hall)
    as (ds & ixs & Hrun & Hld & Hli & Hspec).
  destruct (argmin_amin ds) as (p & dp & Hp & _ & Hdp & Hmin).
  { intros ->. destruct polys; [congruence | discriminate]. }
  assert (Hlt : p < length polys).
  { rewrite <- Hld. apply nth_error_Some. congruence. }
  destruct (getitem_lt polys p Hlt) as (poly & _ & Epoly).
  destruct (Hspec p poly Epoly) as (m & i & vtx & Hm & Hi & Hvtx & Hdm & _).
  assert (Hdist : pixel_dist e vtx = dp) by congruence.
  exists p, poly, i, vtx. split; [assumption |]. split; [assumption |].
  split.
  { intros q poly' j w Hq Hw.
    destruct (Hspec q poly' Hq) as (m' & _ & _ & Hm' & _ & _ & _ & Hbelow).
    apply Rle_trans with m'.
    - rewrite Hdist. apply Hmin. eapply nth_error_In; eauto.
    - apply Hbelow. eapply nth_error_In; eauto. }
  unfold get_polygon_vertice_id. rewrite Hrun. cbn [bind ok fst snd].
  rewrite Hp. cbn [bind ok].
  apply getitem_some in Hdp, Hi. rewrite Hdp. cbn [bind ok]. rewrite Hdist.
  split.
  - intros Hclose. destruct (Rge_dec dp epsilon) as [Hfar | _]; [lra |].
    rewrite Hi. cbn [bind ok].
    pose proof Epoly as Eg. apply getitem_some in Eg. rewrite Eg.
    cbn [bind ok].
    now destruct ((i =? 0) || (i =? length (xy poly) - 1)).
  - intros Hfar. destruct (Rge_dec dp epsilon) as [_ | Hclose]; [| lra].
    eexists. split; [reflexivity |].
    pose proof (first_containing_spec polys (ev_x e, ev_y e) 0) as Hfc.
    destruct (first_containing polys (ev_x e, ev_y e) 0) as [q |];
      [| assumption].
    rewrite Nat.sub_0_r in Hfc. destruct Hfc as (_ & Hq & Hbefore).
    split; assumption.
Qed.

(** C1. The hit-test run by a press (not drawing, at least one polygon, every
    vertex array non-empty) finds a vertex [vtx], row [i] of polygon [p],
    whose distance to the event is minimal over all rows of all polygons.
    The distance is the Euclidean one on the screen: between the image of the
    vertex under the model-to-screen transform and the pixel position
    [(event.x, event.y)].  When it is below 5 pixels the answer is the
    vertex hit [(p, i)], with the pair [[0, last]] in place of [i] when [i]
    is 0 or [last].  Otherwise the answer has no vertex and names the first
    polygon in list order that contains the pixel position, or no polygon
    when none does. *)
Theorem hit_test_resolution (polys : list Polygon) (e : Event) :
  polys <> [] ->
  Forall (fun q => xy q <> []) polys ->
  exists p poly i vtx,
    nth_error polys p = Some poly
    /\ nth_error (xy poly) i = Some vtx
    /\ (forall q poly' j w,
          nth_error polys q = Some poly' ->
          nth_error (xy poly') j = Some w ->
          (sqrt ((fst (transform vtx) - ev_x e) ^ 2
                 + (snd (transform vtx) - ev_y e) ^ 2)
           <= sqrt ((fst (transform w) - ev_x e) ^ 2
                    + (snd (transform w) - ev_y e) ^ 2))%R)
    /\ ((sqrt ((fst (transform vtx) - ev_x e) ^ 2
               + (snd (transform vtx) - ev_y e) ^ 2) < 5)%R ->
        get_polygon_vertice_id polys e
        = ok (Some p,
              Some (if (i =? 0) || (i =? length (xy poly) - 1)
                    then VPair 0 (length (xy poly) - 1)
                    else VIdx i)))
    /\ ((5 <= sqrt ((fst (transform vtx) - ev_x e) ^ 2
                    + (snd (transform vtx) - ev_y e) ^ 2))%R ->
        exists r,
          get_polygon_vertice_id polys e = ok (r, None)
          /\ match r with
             | Some q =>
                 (exists poly',
                    nth_error polys q = Some poly'
                    /\ contains_point (xy poly') (ev_x e, ev_y e) = true)
                 /\ (forall j poly',
                       j < q -> nth_error polys j = Some poly' ->
                       contains_point (xy poly') (ev_x e, ev_y e) = false)
             | None =>
                 forall poly',
                   In poly' polys ->
                   contains_point (xy poly') (ev_x e, ev_y e) = false
             end).
Proof.
  intros Hne Hall.
  destruct (hit_test_cases polys e Hne Hall)
    as (p & poly & i & vtx & Hp & Hi & Hmin & Hhit & Hmiss).
  exists p, poly, i, vtx. unfold pixel_dist, epsilon in *.
  repeat split; assumption.
Qed.

(** ** The selection markers stay valid *)

Lemma row_counts_length (s : State) :
  length (row_counts s) = length (polygons s).
Proof. unfold row_counts. now rewrite !length_map. Qed.

Lemma vref_in_range_mono (v : vertex_ref) (n m : nat) :
  n <= m -> vref_in_range v n -> vref_in_range v m.
Proof.
  intros H. unfold vref_in_range. apply Forall_impl. intros i Hi. lia.
Qed.

(** [wf] only looks at the lengths, the row counts and the markers. *)
Lemma wf_transfer (s s' : State) :
  wf s ->
  length (lines s') = length (lines s) ->
  length (densities s') = length (densities s) ->
  row_counts s' = row_counts s ->
  ipoly s' = ipoly s ->
  (ivert s' = ivert s \/ ivert s' = None) ->
  (drawing s' = true -> drawing s = true) ->
  (xy_buf s' = xy_buf s \/ xy_buf s' <> None) ->
  wf s'.
Proof.
  intros [Hl Hd Hp Hv Hdr Hrows Hbuf] El Ed Er Ep Ev Edr Eb.
  assert (Epl : length (polygons s') = length (polygons s)).
  { now rewrite <- !row_counts_length, Er. }
  constructor.
  - congruence.
  - congruence.
  - intros p H. rewrite Epl. apply Hp. congruence.
  - intros v H. destruct Ev as [Ev | Ev]; [| congruence].
    rewrite Er, Ep. apply Hv. congruence.
  - intros H. destruct Ev as [Ev | Ev]; [| assumption].
    rewrite Ev. apply Hdr. now apply Edr.
  - now rewrite Er.
  - intros H. destruct Eb as [Eb | Eb]; [| assumption].
    rewrite Eb. apply Hbuf. now apply Edr.
Qed.

Lemma row_counts_Forall (s : State) (P : nat -> Prop) :
  Forall P (row_counts s)
  <-> Forall (fun q => P (length (xy q))) (polygons s).
Proof.
  unfold row_counts. now rewrite !Forall_map.
Qed.

Lemma Forall_update_at {A : Type} (P : A -> Prop)
  (l l' : list A) (i : nat) (f : A -> A) :
  update_at l i f = ok l' ->
  Forall P l ->
  (forall a, nth_error l i = Some a -> P (f a)) ->
  Forall P l'.
Proof.
  revert i l'. induction l as [| a t IH]; intros [| i] l' H Hall Hf;
    cbn [update_at] in H; try discriminate.
  - apply ok_inj in H. subst l'. inversion Hall; subst.
    constructor; [now apply Hf | assumption].
  - destruct (update_at t i f) as [? | t'] eqn:E; cbn [bind] in H;
      [discriminate |].
    apply ok_inj in H. subst l'. inversion Hall; subst.
    constructor; [assumption |]. apply (IH i); auto.
Qed.

Lemma Forall_pop_at {A : Type} (P : A -> Prop) (l l' : list A) (i : nat) :
  pop_at l i = ok l' -> Forall P l -> Forall P l'.
Proof.
  revert i l'. induction l as [| a t IH]; intros [| i] l' H Hall;
    cbn [pop_at] in H; try discriminate.
  - apply ok_inj in H. subst l'. now inversion Hall.
  - destruct (pop_at t i) as [? | t'] eqn:E; cbn [bind] in H;
      [discriminate |].
    apply ok_inj in H. subst l'. inversion Hall; subst.
    constructor; [assumption |]. now apply (IH i).
Qed.

Lemma Forall_replaced {A : Type} (P : A -> Prop) (l : list A) (i : nat) (a : A) :
  Forall P l -> P a -> Forall P (firstn i l ++ a :: skipn (S i) l).
Proof.
  intros Hall Ha. apply Forall_app. split.
  - rewrite <- (firstn_skipn i l) in Hall. now apply Forall_app in Hall.
  - constructor; [assumption |].
    rewrite <- (firstn_skipn (S i) l) in Hall. now apply Forall_app in Hall.
Qed.

Lemma update_at_row_counts
  (l l' : list Polygon) (i : nat) (f : Polygon -> Polygon) :
  update_at l i f = ok l' ->
  (forall q, nth_error l i = Some q -> length (xy (f q)) = length (xy q)) ->
  map (@length point) (map xy l') = map (@length point) (map xy l).
Proof.
  revert i l'. induction l as [| a t IH]; intros [| i] l' H Hf;
    cbn [update_at] in H; try discriminate.
  - inversion H. cbn [map]. f_equal. now apply Hf.
  - bind_inv H. inversion H. cbn [map]. f_equal.
    apply (IH i); [assumption |]. intros q Hq. now apply Hf.
Qed.

Lemma wf_unhighlight (s : State) : wf s -> wf (unhighlight s).
Proof.
  intros H. apply (wf_transfer s); auto; cbn -[Nat.min map_firstn].
  - apply map_firstn_length.
  - unfold row_counts. cbn -[Nat.min map_firstn]. now rewrite map_xy_map_firstn.
Qed.

Lemma wf_unanimate (s : State) : wf s -> wf (unanimate s).
Proof.
  intros H. apply (wf_transfer s); auto; cbn -[Nat.min map_firstn].
  - apply map_firstn_length.
  - unfold row_counts. cbn -[Nat.min map_firstn]. now rewrite map_xy_map_firstn.
Qed.

Lemma wf_init : wf init_state.
Proof.
  constructor; try reflexivity; cbn; intros; try discriminate.
  constructor.
Qed.

Lemma wf_add_vertex (s : State) : wf s -> wf (add_vertex s).
Proof. intros H. apply (wf_transfer s); auto. Qed.

Lemma wf_new_polygon (s : State) : wf s -> wf (new_polygon s).
Proof.
  intros [Hl Hd _ _ _ Hrows _]. constructor; cbn -[Nat.min map_firstn].
  - now rewrite !map_firstn_length.
  - now rewrite map_firstn_length.
  - intros p H. discriminate.
  - intros v H. discriminate.
  - reflexivity.
  - unfold row_counts in *. cbn -[Nat.min map_firstn].
    now rewrite map_xy_map_firstn.
  - discriminate.
Qed.

Lemma wf_cancel_drawing (s : State) : wf s -> wf (cancel_drawing s).
Proof.
  intros H. unfold cancel_drawing. destruct (add_vertex_flag s).
  - apply (wf_transfer s); auto.
  - apply wf_unhighlight. apply (wf_transfer s); auto; cbn;
      [discriminate | right; discriminate].
Qed.

Lemma wf_button_release (s : State) (e : Event) :
  wf s -> wf (button_release_callback s e).
Proof.
  intros H. unfold button_release_callback.
  destruct (negb (ev_inaxes e)); [assumption |].
  destruct (negb (ev_button e =? 1)); [assumption |].
  assert (H1 : wf (if add_vertex_flag s then with_add_vertex s false else s)).
  { destruct (add_vertex_flag s); [apply (wf_transfer s); auto | assumption]. }
  set (s1 := if add_vertex_flag s then with_add_vertex s false else s) in *.
  destruct (ivert s1), (ipoly s1); try assumption;
    apply (wf_transfer (unanimate s1)); auto using wf_unanimate.
Qed.

Lemma wf_set_density (s s' : State) (value : R) :
  wf s -> set_density s value = ok s' -> wf s'.
Proof.
  intros H. unfold set_density. cbn [ipoly with_density densities polygons].
  destruct (ipoly s) as [p |] eqn:Ep.
  - intros Hs. bind_inv Hs. bind_inv Hs. inversion Hs; subst s'.
    apply update_at_inv in E as (_ & _ & Ld & _).
    apply (wf_transfer s); auto; cbn.
    unfold row_counts. cbn. f_equal.
    eapply update_at_map_xy; [| eassumption]. reflexivity.
  - intros Hs. inversion Hs. apply (wf_transfer s); auto.
Qed.

Lemma assign_rows_length (v : vertex_ref) (pt : point) (rows rows' : list point) :
  assign_rows v pt rows = ok rows' -> length rows' = length rows.
Proof.
  destruct v as [i | a b]; cbn [assign_rows]; unfold setitem; intros H.
  - now apply update_at_inv in H as (_ & _ & L & _).
  - bind_inv H. apply update_at_inv in E as (_ & _ & L1 & _).
    apply update_at_inv in H as (_ & _ & L2 & _). congruence.
Qed.

Lemma translate_length (dx dy : R) (rows : list point) :
  length (translate dx dy rows) = length rows.
Proof. apply length_map. Qed.

Lemma wf_mouse_move (s s' : State) (e : Event) :
  wf s -> mouse_move_callback s e = ok s' -> wf s'.
Proof.
  intros H. unfold mouse_move_callback.
  destruct (negb (ev_inaxes e)); [intros Hs; inversion Hs; now subst |].
  destruct (negb (ev_button e =? 1)); [intros Hs; inversion Hs; now subst |].
  assert (Hbody :
    forall new_xy p poly ps ls,
      nth_error (polygons s) p = Some poly ->
      length new_xy = length (xy poly) ->
      update_at (polygons s) p (set_xy_raw new_xy) = ok ps ->
      update_at (lines s) p (l_set_data new_xy) = ok ls ->
      wf (with_lastevent (with_lines (with_polygons s ps) ls) (Some e))).
  { intros new_xy p poly ps ls Hpoly Hlen Hps Hls.
    apply (wf_transfer s); auto; cbn.
    - now apply update_at_inv in Hls as (_ & _ & L & _).
    - unfold row_counts. cbn. eapply update_at_row_counts; [eassumption |].
      intros q Hq. cbn. congruence. }
  destruct (ivert s) as [v |] eqn:Ev.
  - destruct (add_vertex_flag s); [intros Hs; inversion Hs; now subst |].
    destruct (ipoly s) as [p0 |] eqn:Ep; cbn [the_index bind ok];
      [| discriminate].
    destruct (getitem (polygons s) p0) as [? | poly] eqn:Epoly; cbn [bind ok];
      [discriminate |].
    destruct (assign_rows v _ (xy poly)) as [? | rows] eqn:Erows; cbn [bind ok];
      [discriminate |].
    destruct (update_at (polygons s) p0 _) as [? | ps] eqn:Eps; cbn [bind ok];
      [discriminate |].
    destruct (update_at (lines s) p0 _) as [? | ls] eqn:Els; cbn [bind ok];
      [discriminate |].
    intros Hs. inversion Hs; subst s'. apply getitem_some in Epoly.
    apply (Hbody rows p0 poly ps ls); auto.
    eapply assign_rows_length; eauto.
  - destruct (ipoly s) as [p0 |] eqn:Ep;
      [| intros Hs; inversion Hs; now subst].
    destruct (add_vertex_flag s); [intros Hs; inversion Hs; now subst |].
    destruct (lastevent s) as [le |]; cbn [the_index bind ok];
      [| discriminate].
    destruct (getitem (polygons s) p0) as [? | poly] eqn:Epoly; cbn [bind ok];
      [discriminate |].
    destruct (update_at (polygons s) p0 _) as [? | ps] eqn:Eps; cbn [bind ok];
      [discriminate |].
    destruct (update_at (lines s) p0 _) as [? | ls] eqn:Els; cbn [bind ok];
      [discriminate |].
    intros Hs. inversion Hs; subst s'. apply getitem_some in Epoly.
    apply (Hbody (translate (ev_xdata e - ev_xdata le)
                            (ev_ydata e - ev_ydata le) (xy poly))
                 p0 poly ps ls); auto.
    apply translate_length.
Qed.

Lemma filter_from_succ (verts : list nat) (i : nat) :
  length (filter (fun x => S i <=? x) verts)
  + (if existsb (Nat.eqb i) verts then 1 else 0)
  <= length (filter (fun x => i <=? x) verts).
Proof.
  induction verts as [| x t IH]; cbn [filter existsb length]; [lia |].
  destruct (Nat.eqb_spec i x) as [-> | Hne]; cbn [orb].
  - rewrite Nat.leb_refl.
    replace (S x <=? x) with false by (symmetry; apply Nat.leb_gt; lia).
    cbn [length]. destruct (existsb (Nat.eqb x) t); lia.
  - destruct (Nat.leb_spec (S i) x); destruct (Nat.leb_spec i x);
      cbn [length]; lia.
Qed.

(** Dropping the rows listed in [verts] removes at most [length verts]
    rows. *)
Lemma drop_indices_length {A : Type} (verts : list nat) (i : nat) (l : list A) :
  length l
  <= length (drop_indices verts i l)
     + length (filter (fun x => i <=? x) verts).
Proof.
  revert i. induction l as [| a t IH]; intros i; cbn [drop_indices length];
    [lia |].
  pose proof (filter_from_succ verts i) as Hf. specialize (IH (S i)).
  destruct (existsb (Nat.eqb i) verts); cbn [length]; lia.
Qed.

Lemma rows_after_delete (v : vertex_ref) (rows : list point) :
  5 <= length rows ->
  3 <= length (close_ring (drop_indices (vref_indices v) 0 rows)).
Proof.
  intros H.
  pose proof (drop_indices_length (vref_indices v) 0 rows) as Hd.
  pose proof (close_ring_length (drop_indices (vref_indices v) 0 rows)) as Hc.
  assert (Hv : length (filter (fun x => 0 <=? x) (vref_indices v)) <= 2).
  { destruct v; cbn; lia. }
  lia.
Qed.

Lemma wf_delete_polygon (s s' : State) :
  wf s -> delete_polygon s = ok s' -> wf s'.
Proof.
  intros H. unfold delete_polygon.
  assert (Hrest :
    match ivert s with
    | Some v =>
        p <- the_index (ipoly s) ;;
        poly <- getitem (polygons s) p ;;
        _ <- getitem (lines s) p ;;
        if 4 <? length (xy poly) then
          let poly' := set_xy (drop_indices (vref_indices v) 0 (xy poly)) poly in
          ps <- setitem (polygons s) p poly' ;;
          ls <- update_at (lines s) p (l_set_data (xy poly')) ;;
          ok (with_ivert (with_lines (with_polygons s ps) ls) None)
        else ok s
    | None =>
        match ipoly s with
        | Some p =>
            ps <- pop_at (polygons s) p ;;
            ls <- pop_at (lines s) p ;;
            ds <- pop_at (densities s) p ;;
            ok (with_ipoly
                  (with_densities (with_lines (with_polygons s ps) ls) ds)
                  None)
        | None => ok s
        end
    end = ok s' -> wf s').
  { destruct (ivert s) as [v |] eqn:Ev.
    - destruct (the_index (ipoly s)) as [? | p] eqn:Ep; cbn [bind];
        [discriminate |].
      destruct (getitem (polygons s) p) as [? | poly] eqn:Epoly; cbn [bind];
        [discriminate |].
      destruct (getitem (lines s) p) as [? | line] eqn:Eline; cbn [bind];
        [discriminate |].
      destruct (Nat.ltb_spec 4 (length (xy poly))) as [H5 | _];
        [| intros Hs; inversion Hs; now subst].
      cbn zeta.
      destruct (setitem (polygons s) p _) as [? | ps] eqn:Eps; cbn [bind];
        [discriminate |].
      destruct (update_at (lines s) p _) as [? | ls] eqn:Els; cbn [bind];
        [discriminate |].
      intros Hs. apply ok_inj in Hs. subst s'.
      destruct H as [Hl Hd Hp _ _ Hrows Hbuf].
      pose proof Eps as Fps.
      apply update_at_inv in Eps as (_ & _ & Lp & _).
      apply update_at_inv in Els as (_ & _ & Ll & _).
      constructor; fields.
      + congruence.
      + congruence.
      + intros q Hq. rewrite Lp. now apply Hp.
      + intros w Hw. discriminate.
      + reflexivity.
      + apply row_counts_Forall. fields. apply row_counts_Forall in Hrows.
        eapply Forall_update_at; [exact Fps | exact Hrows |].
        intros a _. unfold set_xy. cbn [xy set_xy_raw].
        apply rows_after_delete. lia.
      + assumption.
    - destruct (ipoly s) as [p |] eqn:Ep; [| intros Hs; inversion Hs; now subst].
      destruct (pop_at (polygons s) p) as [? | ps] eqn:Eps; cbn [bind];
        [discriminate |].
      destruct (pop_at (lines s) p) as [? | ls] eqn:Els; cbn [bind];
        [discriminate |].
      destruct (pop_at (densities s) p) as [? | ds] eqn:Eds; cbn [bind];
        [discriminate |].
      intros Hs. apply ok_inj in Hs. subst s'.
      destruct H as [Hl Hd _ _ Hdr Hrows Hbuf].
      pose proof Eps as Fps.
      apply pop_at_inv in Eps as (_ & _ & Lp).
      apply pop_at_inv in Els as (_ & _ & Ll).
      apply pop_at_inv in Eds as (_ & _ & Ld).
      constructor; fields.
      + lia.
      + lia.
      + intros q Hq. discriminate.
      + intros w Hw. congruence.
      + assumption.
      + apply row_counts_Forall. fields. apply row_counts_Forall in Hrows.
        eapply Forall_pop_at; eauto.
      + assumption. }
  destruct (drawing s) eqn:Edr; [| exact Hrest].
  destruct (xy_buf s) as [[| b buf] |]; try exact Hrest.
  intros Hs. inversion Hs. apply (wf_transfer s); auto.
  right. discriminate.
Qed.

Lemma argmin_aux_bound (l : list R) (i ib : nat) (b : R) :
  ib < i -> argmin_aux l i ib b < i + length l.
Proof.
  revert i ib b. induction l as [| x t IH]; intros i ib b H; cbn [argmin_aux length].
  - lia.
  - destruct (Rlt_dec x b).
    + specialize (IH (S i) i x ltac:(lia)). lia.
    + specialize (IH (S i) ib b ltac:(lia)). lia.
Qed.

Lemma argmin_bound (l : list R) (r : nat) :
  argmin l = ok r -> r < length l.
Proof.
  destruct l as [| x t]; cbn [argmin]; intros H; [discriminate |].
  inversion H. pose proof (argmin_aux_bound t 1 0 x ltac:(lia)). simpl. lia.
Qed.

Lemma nearest_per_polygon_range
  (polys : list Polygon) (e : Event) (ds : list R) (ixs : list nat) :
  nearest_per_polygon polys e = ok (ds, ixs) ->
  length ds = length polys
  /\ length ixs = length polys
  /\ (forall q poly i,
        nth_error polys q = Some poly -> nth_error ixs q = Some i ->
        i < length (xy poly)).
Proof.
  revert ds ixs. induction polys as [| poly rest IH]; intros ds ixs;
    cbn [nearest_per_polygon].
  - intros H. inversion H. repeat split; auto.
    intros [| q] poly i Hq; discriminate.
  - destruct (amin (map (pixel_dist e) (xy poly))) as [? | m]; cbn [bind];
      [discriminate |].
    destruct (argmin (map (pixel_dist e) (xy poly))) as [? | i0] eqn:Ei;
      cbn [bind]; [discriminate |].
    destruct (nearest_per_polygon rest e) as [? | [ds' ixs']] eqn:Er;
      cbn [bind]; [discriminate |].
    intros H. inversion H; subst ds ixs. cbn [fst snd length].
    destruct (IH ds' ixs' eq_refl) as (Ld & Li & Hrange).
    split; [lia |]. split; [lia |].
    intros [| q] poly' i Hq Hi; cbn [nth_error] in *.
    + inversion Hq; inversion Hi; subst.
      apply argmin_bound in Ei. now rewrite length_map in Ei.
    + now apply (Hrange q).
Qed.

(** What the hit-test returns is in range: the polygon index exists, and a
    vertex is only returned together with its polygon and within its rows. *)
Lemma hit_test_range
  (polys : list Polygon) (e : Event)
  (rp : option nat) (rv : option vertex_ref) :
  get_polygon_vertice_id polys e = ok (rp, rv) ->
  (forall p, rp = Some p -> p < length polys)
  /\ (forall v, rv = Some v ->
        exists p poly,
          rp = Some p /\ nth_error polys p = Some poly
          /\ vref_in_range v (length (xy poly))).
Proof.
  unfold get_polygon_vertice_id.
  destruct (nearest_per_polygon polys e) as [? | [ds ixs]] eqn:Er; cbn [bind];
    [discriminate |].
  cbn [fst snd].
  destruct (nearest_per_polygon_range polys e ds ixs Er) as (Ld & Li & Hrange).
  destruct (argmin ds) as [? | p] eqn:Ep; cbn [bind]; [discriminate |].
  apply argmin_bound in Ep.
  destruct (getitem ds p) as [? | dp]; cbn [bind]; [discriminate |].
  destruct (Rge_dec dp epsilon) as [Hfar | Hclose].
  - intros H. inversion H; subst rp rv. split; [| intros v Hv; discriminate].
    intros q Hq.
    pose proof (first_containing_spec polys (ev_x e, ev_y e) 0) as Hfc.
    rewrite Hq in Hfc. destruct Hfc as (_ & (poly & Hn & _) & _).
    rewrite Nat.sub_0_r in Hn. apply nth_error_Some. congruence.
  - destruct (getitem ixs p) as [? | i] eqn:Ei; cbn [bind]; [discriminate |].
    destruct (getitem polys p) as [? | poly] eqn:Epoly; cbn [bind];
      [discriminate |].
    apply getitem_some in Ei, Epoly.
    pose proof (Hrange p poly i Epoly Ei) as Hi.
    assert (Hboth :
      forall v,
        v = VPair 0 (length (xy poly) - 1) \/ v = VIdx i ->
        (forall q, Some p = Some q -> q < length polys)
        /\ (forall w, Some v = Some w ->
              exists q poly',
                Some p = Some q /\ nth_error polys q = Some poly'
                /\ vref_in_range w (length (xy poly')))).
    { intros v Hv. split.
      - intros q Hq. inversion Hq; subst. lia.
      - intros w Hw. inversion Hw; subst w. exists p, poly.
        split; [reflexivity |]. split; [assumption |].
        unfold vref_in_range.
        destruct Hv as [-> | ->]; cbn [vref_indices]; repeat constructor; lia. }
    destruct ((i =? 0) || (i =? length (xy poly) - 1)); intros H;
      inversion H; subst rp rv; apply Hboth; auto.
Qed.

Lemma inserted_ring_length (rows : list point) (k : nat) (pt : point) :
  length rows <= length (close_ring (firstn k rows ++ pt :: skipn k rows)).
Proof.
  pose proof (close_ring_length (firstn k rows ++ pt :: skipn k rows)) as H.
  rewrite inserted_length in H. lia.
Qed.

Lemma wf_button_press (s s' : State) (e : Event) :
  wf s -> button_press_callback s e = ok s' -> wf s'.
Proof.
  intros H. unfold button_press_callback.
  destruct (negb (ev_inaxes e)); [intros Hs; inversion Hs; now subst |].
  destruct ((ev_button e =? 1) && negb (drawing s)
            && negb (length (polygons s) =? 0)) eqn:Eguard.
  - assert (Hdr : drawing s = false).
    { destruct (drawing s); [| reflexivity].
      now rewrite andb_false_r in Eguard. }
    cbn [add_vertex_flag with_lastevent].
    destruct (add_vertex_flag s); cbn [negb].
    + (* armed *)
      cbn [ipoly polygons lines densities with_lastevent].
      destruct (ipoly s) as [p |] eqn:Ep;
        [| intros Hs; inversion Hs; apply (wf_transfer s); auto].
      destruct (getitem (polygons s) p) as [? | old] eqn:Eold; cbn [bind];
        [discriminate |].
      unfold add_new_vertex.
      destruct (argmax (segment_angles (xy old) e)) as [? | a]; cbn [bind ok];
        [discriminate |].
      destruct (getitem (densities s) p) as [? | d]; cbn [bind];
        [discriminate |].
      destruct (getitem (lines s) p) as [? | line]; cbn [bind];
        [discriminate |].
      destruct (pop_at (polygons s) p) as [? | ps] eqn:Eps; cbn [bind];
        [discriminate |].
      destruct (pop_at (lines s) p) as [? | ls] eqn:Els; cbn [bind];
        [discriminate |].
      apply pop_at_inv in Eps as (Hpl & -> & _).
      apply pop_at_inv in Els as (Hll & -> & _).
      rewrite !insert_after_pop by assumption.
      set (rows := firstn (a + 1) (xy old)
                   ++ (ev_xdata e, ev_ydata e) :: skipn (a + 1) (xy old)).
      destruct (update_at _ p (l_set_color Green)) as [? | ls'] eqn:Els';
        cbn [bind]; [discriminate |].
      intros Hs. apply ok_inj in Hs. subst s'.
      apply update_at_inv in Els' as (_ & _ & Lls & _).
      destruct (nth_error_replaced (polygons s) p (fst (make_polygon rows d)) Hpl)
        as (Lp & Np & Op).
      destruct (nth_error_replaced (lines s) p (snd (make_polygon rows d)) Hll)
        as (Ll & _).
      destruct H as [Hl Hd Hp Hv Hdraw Hrows Hbuf].
      constructor; fields; try assumption.
      * congruence.
      * congruence.
      * intros q Hq. rewrite Lp. now apply Hp.
      * intros v Hv'. destruct (Hv v Hv') as (q & n & Hq & Hn & Hr).
        assert (q = p) by congruence. subst q.
        exists p, (length (close_ring rows)). split; [assumption |].
        unfold row_counts in *. fields.
        rewrite !nth_error_map in *. rewrite Np. cbn [option_map fst make_polygon xy].
        split; [reflexivity |].
        apply getitem_some in Eold. rewrite Eold in Hn. cbn [option_map] in Hn.
        inversion Hn; subst n.
        eapply vref_in_range_mono; [| eassumption]. apply inserted_ring_length.
      * apply row_counts_Forall. fields. apply row_counts_Forall in Hrows.
        apply Forall_replaced; [assumption |].
        cbn [fst make_polygon xy].
        pose proof (inserted_ring_length (xy old) (a + 1)
                      (ev_xdata e, ev_ydata e)) as Hgrow.
        fold rows in Hgrow.
        assert (Hold : 3 <= length (xy old)).
        { rewrite Forall_forall in Hrows. apply (Hrows old).
          apply getitem_some in Eold. eapply nth_error_In; eauto. }
        exact (Nat.le_trans _ _ _ Hold Hgrow).
    + (* hit-test *)
      destruct (get_polygon_vertice_id _ e) as [? | [rp rv]] eqn:Ehit;
        cbn [bind]; [discriminate |].
      apply hit_test_range in Ehit as (Hrp & Hrv).
      pose proof (wf_unhighlight (with_lastevent s (Some e))
                    ltac:(apply (wf_transfer s); auto)) as Hu.
      set (u := unhighlight (with_lastevent s (Some e))) in *.
      assert (Hsel : wf (with_ivert (with_ipoly u rp) rv)).
      { destruct Hu as [Hl Hd _ _ _ Hrows Hbuf]. constructor; fields; auto.
        - intros v Hv. destruct (Hrv v Hv) as (p & poly & Hp & Hn & Hr).
          exists p, (length (xy poly)). split; [assumption |]. split; [| assumption].
          unfold row_counts. cbn [polygons with_ivert with_ipoly].
          rewrite !nth_error_map, Hn. reflexivity.
        - intros Hd'. exfalso. subst u. cbn -[Nat.min map_firstn] in Hd'.
          congruence. }
      cbn [fst snd ipoly with_ivert with_ipoly].
      destruct rp as [p |]; [| intros Hs; inversion Hs; now subst].
      cbn [densities polygons lines with_ivert with_ipoly].
      destruct (getitem (densities u) p) as [? | d]; cbn [bind];
        [discriminate |].
      destruct (update_at (polygons u) p _) as [? | ps] eqn:Eps; cbn [bind];
        [discriminate |].
      destruct (update_at (lines u) p _) as [? | ls] eqn:Els; cbn [bind];
        [discriminate |].
      intros Hs. apply ok_inj in Hs. subst s'.
      apply (wf_transfer (with_ivert (with_ipoly u (Some p)) rv)); auto; cbn.
      * now apply update_at_inv in Els as (_ & _ & L & _).
      * unfold row_counts. cbn. f_equal.
        eapply update_at_map_xy; [| eassumption]. reflexivity.
  - destruct (drawing s) eqn:Edr; [| intros Hs; inversion Hs; now subst].
    destruct (ev_button e =? 1).
    + destruct (xy_buf s) as [buf |]; [| discriminate].
      intros Hs. inversion Hs. apply (wf_transfer s); auto.
      right. discriminate.
    + destruct (ev_button e =? 3); [| intros Hs; inversion Hs; now subst].
      destruct (xy_buf s) as [buf |]; [| discriminate].
      destruct (Nat.leb_spec 3 (length buf)) as [H3 | _];
        [| intros Hs; inversion Hs; now subst].
      cbn zeta.
      destruct (update_at _ _ (l_set_color Green)) as [? | ls] eqn:Els;
        cbn [bind]; [discriminate |].
      intros Hs. apply ok_inj in Hs. subst s'.
      apply update_at_inv in Els as (_ & _ & Lls & _).
      destruct H as [Hl Hd Hp Hv Hdraw Hrows Hbuf].
      constructor; fields.
      * rewrite Lls, !length_app. cbn [length]. lia.
      * rewrite !length_app. cbn [length]. lia.
      * intros q Hq. inversion Hq. rewrite !length_app. cbn [length]. lia.
      * intros v Hv'. rewrite (Hdraw Edr) in Hv'. discriminate.
      * discriminate.
      * apply row_counts_Forall. fields. apply row_counts_Forall in Hrows.
        apply Forall_app. split; [assumption |]. constructor; [| constructor].
        cbn [fst make_polygon xy].
        pose proof (close_ring_length buf). lia.
      * discriminate.
Qed.

Lemma wf_step (s s' : State) (i : Input) :
  wf s -> step s i = ok s' -> wf s'.
Proof.
  intros H. destruct i as [e | e | e | | | | | | value]; cbn [step];
    intros Hs; try (inversion Hs; subst s').
  - eapply wf_button_press; eauto.
  - now apply wf_button_release.
  - eapply wf_mouse_move; eauto.
  - eapply wf_delete_polygon; eauto.
  - now apply wf_new_polygon.
  - now apply wf_cancel_drawing.
  - assumption.
  - now apply wf_add_vertex.
  - eapply wf_set_density; eauto.
Qed.

Lemma reachable_wf (s : State) : reachable s -> wf s.
Proof.
  induction 1 as [| s i s' _ IH Hs]; [apply wf_init | eapply wf_step; eauto].
Qed.

Lemma run_reachable (l : list Input) (s s' : State) :
  reachable s -> run s l = ok s' -> reachable s'.
Proof.
  revert s. induction l as [| i t IH]; intros s Hr; cbn [run].
  - intros H. apply ok_inj in H. now subst.
  - destruct (step s i) as [? | s1] eqn:E; cbn [bind]; [discriminate |].
    apply IH. eapply reach_step; eauto.
Qed.

Lemma wf_selected_polygon (s : State) (p : nat) :
  wf s -> ipoly s = Some p ->
  exists poly line d,
    nth_error (polygons s) p = Some poly
    /\ nth_error (lines s) p = Some line
    /\ nth_error (densities s) p = Some d.
Proof.
  intros [Hl Hd Hp _ _] Hsel. specialize (Hp p Hsel).
  destruct (getitem_lt (polygons s) p Hp) as (poly & _ & Hpoly).
  destruct (getitem_lt (lines s) p ltac:(lia)) as (line & _ & Hline).
  destruct (getitem_lt (densities s) p ltac:(lia)) as (d & _ & Hdens).
  exists poly, line, d. auto.
Qed.

Lemma wf_selection_valid (s : State) : wf s -> selection_valid s.
Proof.
  intros H Hv. destruct (ivert s) as [v |] eqn:Ev; [| congruence].
  destruct (wf_ivert s H v Ev) as (p & n & Hp & _ & _).
  exists p. split; [assumption |].
  pose proof (wf_ipoly s H p Hp). pose proof (wf_lines s H).
  pose proof (wf_densities s H). lia.
Qed.

(** On a well-formed state the delete command always returns. *)
Lemma delete_polygon_total (s : State) :
  wf s -> exists s', delete_polygon s = ok s'.
Proof.
  intros H. unfold delete_polygon.
  assert (Hrest :
    exists s',
      match ivert s with
      | Some v =>
          p <- the_index (ipoly s) ;;
          poly <- getitem (polygons s) p ;;
          _ <- getitem (lines s) p ;;
          if 4 <? length (xy poly) then
            let poly' := set_xy (drop_indices (vref_indices v) 0 (xy poly)) poly in
            ps <- setitem (polygons s) p poly' ;;
            ls <- update_at (lines s) p (l_set_data (xy poly')) ;;
            ok (with_ivert (with_lines (with_polygons s ps) ls) None)
          else ok s
      | None =>
          match ipoly s with
          | Some p =>
              ps <- pop_at (polygons s) p ;;
              ls <- pop_at (lines s) p ;;
              ds <- pop_at (densities s) p ;;
              ok (with_ipoly
                    (with_densities (with_lines (with_polygons s ps) ls) ds)
                    None)
          | None => ok s
          end
      end = ok s').
  { destruct (ivert s) as [v |] eqn:Ev.
    - destruct (wf_ivert s H v Ev) as (p & n & Hp & _ & _).
      destruct (wf_selected_polygon s p H Hp) as (poly & line & d & Hpoly & Hline & _).
      rewrite Hp. cbn [the_index bind ok].
      pose proof Hpoly as Gp. pose proof Hline as Gl.
      apply getitem_some in Gp, Gl. rewrite Gp. cbn [bind ok].
      rewrite Gl. cbn [bind ok].
      destruct (4 <? length (xy poly)); [| now exists s].
      cbn zeta.
      destruct (setitem_lt (polygons s) p
                  (set_xy (drop_indices (vref_indices v) 0 (xy poly)) poly))
        as (ps & Hps & _).
      { apply nth_error_Some. congruence. }
      rewrite Hps. cbn [bind ok].
      destruct (update_at_some
                  (l_set_data
                     (xy (set_xy (drop_indices (vref_indices v) 0 (xy poly)) poly)))
                  _ _ _ Hline) as (ls & Hls & _).
      rewrite Hls. cbn [bind ok]. eexists. reflexivity.
    - destruct (ipoly s) as [p |] eqn:Ep; [| now exists s].
      pose proof (wf_ipoly s H p Ep) as Hp.
      pose proof (wf_lines s H) as Hl. pose proof (wf_densities s H) as Hd.
      destruct (pop_at_lt (polygons s) p Hp) as (ps & Hps & _).
      destruct (pop_at_lt (lines s) p ltac:(lia)) as (ls & Hls & _).
      destruct (pop_at_lt (densities s) p ltac:(lia)) as (ds & Hds & _).
      rewrite Hps. cbn [bind ok]. rewrite Hls. cbn [bind ok].
      rewrite Hds. cbn [bind ok]. eexists. reflexivity. }
  destruct (drawing s); [| exact Hrest].
  destruct (xy_buf s) as [[| b buf] |]; try exact Hrest.
  eexists. reflexivity.
Qed.

(** On a well-formed state the move callback returns, unless a whole polygon
    is selected and there is no previous event to measure the pointer delta
    from (the read of [self._lastevent.xdata] then fails). *)
Lemma mouse_move_total (s : State) (e : Event) :
  wf s ->
  (exists s', mouse_move_callback s e = ok s')
  \/ (mouse_move_callback s e = raise AttributeError
      /\ lastevent s = None /\ ivert s = None).
Proof.
  intros H. unfold mouse_move_callback.
  destruct (negb (ev_inaxes e)); [left; now exists s |].
  destruct (negb (ev_button e =? 1)); [left; now exists s |].
  destruct (ivert s) as [v |] eqn:Ev.
  - destruct (add_vertex_flag s); [left; now exists s |].
    destruct (wf_ivert s H v Ev) as (p & n & Hp & Hn & Hr).
    destruct (wf_selected_polygon s p H Hp) as (poly & line & d & Hpoly & Hline & _).
    unfold row_counts in Hn. rewrite !nth_error_map, Hpoly in Hn.
    cbn [option_map] in Hn. inversion Hn; subst n.
    destruct (assign_rows_in_range v (ev_xdata e, ev_ydata e) (xy poly) Hr)
      as (rows & Hrows & _).
    destruct (move_commit s e p poly line rows Hpoly Hline)
      as (ps & ls & Hps & Hls & _).
    left. rewrite Hp. cbn [the_index bind ok].
    apply getitem_some in Hpoly. rewrite Hpoly. cbn [bind ok].
    rewrite Hrows. cbn [bind ok]. rewrite Hps. cbn [bind ok].
    rewrite Hls. cbn [bind ok]. eexists. reflexivity.
  - destruct (ipoly s) as [p |] eqn:Ep; [| left; now exists s].
    destruct (add_vertex_flag s); [left; now exists s |].
    destruct (lastevent s) as [le |]; [| right; auto].
    destruct (wf_selected_polygon s p H Ep) as (poly & line & d & Hpoly & Hline & _).
    destruct (move_commit s e p poly line
                (translate (ev_xdata e - ev_xdata le)
                           (ev_ydata e - ev_ydata le) (xy poly)) Hpoly Hline)
      as (ps & ls & Hps & Hls & _).
    left. cbn [the_index bind ok].
    apply getitem_some in Hpoly. rewrite Hpoly. cbn [bind ok].
    rewrite Hps. cbn [bind ok]. rewrite Hls. cbn [bind ok].
    eexists. reflexivity.
Qed.

(** ** The callbacks return *)

Lemma hit_test_total (polys : list Polygon) (e : Event) :
  polys <> [] ->
  Forall (fun q => xy q <> []) polys ->
  exists r, get_polygon_vertice_id polys e = ok r.
Proof.
  intros Hne Hall.
  destruct (nearest_per_polygon_spec polys e Hall)
    as (ds & ixs & Hrun & Hld & Hli & _).
  destruct (argmin_amin ds) as (p & dp & Hp & _ & Hdp & _).
  { intros ->. destruct polys; [congruence | discriminate]. }
  assert (Hlt : p < length ds) by (apply nth_error_Some; congruence).
  unfold get_polygon_vertice_id. rewrite Hrun. cbn [bind ok fst snd].
  rewrite Hp. cbn [bind ok]. apply getitem_some in Hdp. rewrite Hdp.
  cbn [bind ok]. destruct (Rge_dec dp epsilon); [eexists; reflexivity |].
  destruct (getitem_lt ixs p ltac:(lia)) as (i & Hi & _).
  destruct (getitem_lt polys p ltac:(lia)) as (poly & Hpoly & _).
  rewrite Hi. cbn [bind ok]. rewrite Hpoly. cbn [bind ok].
  destruct ((i =? 0) || (i =? length (xy poly) - 1)); eexists; reflexivity.
Qed.

Lemma wf_rows_nonempty (s : State) :
  wf s -> Forall (fun q => xy q <> []) (polygons s).
Proof.
  intros H. pose proof (wf_rows s H) as Hrows.
  apply row_counts_Forall in Hrows. eapply Forall_impl; [| exact Hrows].
  intros q Hq E. cbn beta in Hq. unfold point in *. rewrite E in Hq.
  simpl in Hq. lia.
Qed.

Lemma set_density_total (s : State) (value : R) :
  wf s -> exists s', set_density s value = ok s'.
Proof.
  intros H. unfold set_density. fields.
  destruct (ipoly s) as [p |] eqn:Ep; [| eexists; reflexivity].
  destruct (wf_selected_polygon s p H Ep) as (poly & _ & d & Hpoly & _ & Hd).
  destruct (update_at_some (fun _ => value) _ _ _ Hd) as (ds & Hds & _).
  destruct (update_at_some (p_set_color value) _ _ _ Hpoly) as (ps & Hps & _).
  unfold setitem. rewrite Hds. cbn [bind]. rewrite Hps. cbn [bind].
  eexists. reflexivity.
Qed.

Lemma button_press_total (s : State) (e : Event) :
  wf s -> exists s', button_press_callback s e = ok s'.
Proof.
  intros H.
  destruct (ev_inaxes e) eqn:Hin;
    [| unfold button_press_callback; rewrite Hin; now exists s].
  destruct (drawing s) eqn:Hdr.
  - (* drawing: the buffer exists *)
    unfold button_press_callback. rewrite Hin, Hdr.
    rewrite andb_false_r. cbn [negb andb].
    destruct (xy_buf s) as [buf |] eqn:Hbuf;
      [| exfalso; now apply (wf_buffer s H Hdr)].
    destruct (ev_button e =? 1); [eexists; reflexivity |].
    destruct (ev_button e =? 3); [| now exists s].
    destruct (3 <=? length buf); [| now exists s].
    cbn zeta.
    assert (Hnth : nth_error (lines s ++ [snd (make_polygon buf (density s))])
                     (length (polygons s ++ [fst (make_polygon buf (density s))]) - 1)
                   = Some (snd (make_polygon buf (density s)))).
    { rewrite length_app. cbn [length].
      replace (length (polygons s) + 1 - 1) with (length (lines s))
        by (rewrite (wf_lines s H); lia).
      rewrite nth_error_app2 by lia. now rewrite Nat.sub_diag. }
    destruct (update_at_some (l_set_color Green) _ _ _ Hnth) as (ls & Hls & _).
    rewrite Hls. cbn [bind]. eexists. reflexivity.
  - destruct ((ev_button e =? 1) && negb (length (polygons s) =? 0)) eqn:Hguard.
    2: { unfold button_press_callback. rewrite Hin, Hdr.
         cbn [negb]. rewrite andb_true_r, Hguard. now exists s. }
    apply andb_prop in Hguard as [Hb Hne].
    apply Nat.eqb_eq in Hb.
    destruct (add_vertex_flag s) eqn:Ha.
    + (* armed *)
      destruct (ipoly s) as [p |] eqn:Ep.
      * destruct (wf_selected_polygon s p H Ep)
          as (poly & line & d & Hpoly & Hline & Hd).
        assert (H3 : 3 <= length (xy poly)).
        { pose proof (wf_rows s H) as Hrows.
          apply row_counts_Forall in Hrows. rewrite Forall_forall in Hrows.
          apply (Hrows poly). eapply nth_error_In; eauto. }
        destruct (press_armed s e p poly line d Hin Hb Hdr Ha Ep Hpoly Hline Hd
                    ltac:(lia)) as (s' & _ & Hs & _).
        now exists s'.
      * unfold button_press_callback. rewrite Hin, Hdr, Hb, Hne.
        cbn [negb andb Nat.eqb]. fields. rewrite Ha, Ep. cbn [negb].
        eexists. reflexivity.
    + (* hit-test *)
      unfold button_press_callback. rewrite Hin, Hdr, Hb, Hne.
      cbn [negb andb Nat.eqb]. cbn [add_vertex_flag with_lastevent].
      rewrite Ha. cbn [negb].
      pose proof (wf_unhighlight (with_lastevent s (Some e))
                    ltac:(apply (wf_transfer s); auto)) as Hu.
      set (u := unhighlight (with_lastevent s (Some e))) in *.
      assert (Hlen : length (polygons u) = length (polygons s)).
      { subst u. cbn -[Nat.min map_firstn]. apply map_firstn_length. }
      destruct (hit_test_total (polygons u) e) as ([rp rv] & Hhit).
      { intros E. rewrite E in Hlen. simpl in Hlen.
        apply negb_true_iff, Nat.eqb_neq in Hne. lia. }
      { now apply wf_rows_nonempty. }
      rewrite Hhit. cbn [bind ok fst snd]. fields.
      destruct rp as [p |]; [| eexists; reflexivity].
      apply hit_test_range in Hhit as (Hrp & _).
      specialize (Hrp p eq_refl).
      pose proof (wf_lines u Hu). pose proof (wf_densities u Hu).
      destruct (getitem_lt (densities u) p ltac:(lia)) as (d & Hd & _).
      destruct (getitem_lt (polygons u) p Hrp) as (poly & _ & Hpoly).
      destruct (getitem_lt (lines u) p ltac:(lia)) as (line & _ & Hline).
      destruct (update_at_some (p_set_animated true) _ _ _ Hpoly)
        as (ps & Hps & _).
      destruct (update_at_some
                  (fun l => l_set_color Green (l_set_animated true l))
                  _ _ _ Hline) as (ls & Hls & _).
      rewrite Hd. cbn [bind ok]. rewrite Hps. cbn [bind ok].
      rewrite Hls. cbn [bind ok]. eexists. reflexivity.
Qed.

(** On a well-formed state every callback returns normally, except a move
    that drags a whole polygon when no previous event was recorded. *)
Lemma step_total (s : State) (i : Input) :
  wf s ->
  (exists s', step s i = ok s')
  \/ (exists e, i = Move e
                /\ step s i = raise AttributeError
                /\ lastevent s = None /\ ivert s = None).
Proof.
  intros H. destruct i as [e | e | e | | | | | | value]; cbn [step];
    try (left; eexists; reflexivity).
  - left. now apply button_press_total.
  - destruct (mouse_move_total s e H) as [Hok | Herr]; [now left |].
    right. exists e. auto.
  - left. now apply delete_polygon_total.
  - left. now apply set_density_total.
Qed.

(** C10. In every state the editor can reach from its initial state, a
    selected vertex comes with a selected polygon whose index is within the
    polygon, line and density lists.  Hence, on such a state, the move
    callback never fails on an index (neither [IndexError] nor the
    [TypeError] of indexing with [None]) and the delete command returns. *)
Theorem selection_stays_valid (s : State) :
  reachable s ->
  selection_valid s
  /\ (forall e,
        mouse_move_callback s e <> raise IndexError
        /\ mouse_move_callback s e <> raise TypeError)
  /\ (exists s', delete_polygon s = ok s').
Proof.
  intros Hreach. pose proof (reachable_wf s Hreach) as H.
  split; [now apply wf_selection_valid |]. split.
  - intros e. destruct (mouse_move_total s e H) as [[s' Hs] | [Hs _]];
      rewrite Hs; split; discriminate.
  - now apply delete_polygon_total.
Qed.

(** ** The insertion rule *)

Lemma first_max_aux_spec (l : list R) (i ib : nat) (b : R) :
  ib < i ->
  exists m,
    (b <= m)%R
    /\ (forall x, In x l -> (x <= m)%R)
    /\ ((first_max_aux l i ib b = ib /\ m = b)
        \/ (i <= first_max_aux l i ib b
            /\ nth_error l (first_max_aux l i ib b - i) = Some m
            /\ (b < m)%R
            /\ (forall j x, j < first_max_aux l i ib b - i ->
                            nth_error l j = Some x -> (x < m)%R))).
Proof.
  revert i ib b. induction l as [| x t IH]; intros i ib b H; cbn [first_max_aux].
  - exists b. split; [lra |]. split; [intros x [] |]. now left.
  - destruct (Rgt_dec x b) as [Hgt | Hle].
    + destruct (IH (S i) i x ltac:(lia)) as (m & Hb & Hall & Hpos).
      exists m. split; [lra |]. split.
      * intros y [<- | Hy]; [assumption | now apply Hall].
      * right. destruct Hpos as [[-> ->] | (Hge & Hn & Hlt & Hfirst)].
        -- split; [lia |]. rewrite Nat.sub_diag. split; [reflexivity |].
           split; [lra |]. intros j y Hj. lia.
        -- split; [lia |].
           replace (first_max_aux t (S i) i x - i)
             with (S (first_max_aux t (S i) i x - S i)) by lia.
           split; [exact Hn |]. split; [lra |].
           intros [| j] y Hj Hy; cbn [nth_error] in Hy.
           ++ inversion Hy; subst. lra.
           ++ apply (Hfirst j); [lia | assumption].
    + destruct (IH (S i) ib b ltac:(lia)) as (m & Hb & Hall & Hpos).
      exists m. split; [assumption |]. split.
      * intros y [<- | Hy]; [lra | now apply Hall].
      * destruct Hpos as [[-> ->] | (Hge & Hn & Hlt & Hfirst)]; [now left |].
        right. split; [lia |].
        replace (first_max_aux t (S i) ib b - i)
          with (S (first_max_aux t (S i) ib b - S i)) by lia.
        split; [exact Hn |]. split; [assumption |].
        intros [| j] y Hj Hy; cbn [nth_error] in Hy.
        ++ inversion Hy; subst. lra.
        ++ apply (Hfirst j); [lia | assumption].
Qed.

(** [first_max] returns the first position that holds the largest entry. *)
Lemma first_max_spec (l : list R) (a : nat) :
  first_max l = ok a ->
  exists m,
    nth_error l a = Some m
    /\ (forall j x, nth_error l j = Some x -> (x <= m)%R)
    /\ (forall j x, j < a -> nth_error l j = Some x -> (x < m)%R).
Proof.
  destruct l as [| b t]; cbn [first_max]; intros H; [discriminate |].
  apply ok_inj in H. subst a.
  destruct (first_max_aux_spec t 1 0 b ltac:(lia)) as (m & Hb & Hall & Hpos).
  exists m. destruct Hpos as [[-> ->] | (Hge & Hn & Hlt & Hfirst)].
  - split; [reflexivity |]. split.
    + intros [| j] x Hx; cbn [nth_error] in Hx.
      * inversion Hx. lra.
      * apply Hall. eapply nth_error_In; eauto.
    + intros j x Hj. lia.
  - destruct (first_max_aux t 1 0 b) as [| r]; [lia |].
    replace (S r - 1) with r in * by lia. split; [exact Hn |]. split.
    + intros [| j] x Hx; cbn [nth_error] in Hx.
      * inversion Hx. lra.
      * apply Hall. eapply nth_error_In; eauto.
    + intros [| j] x Hj Hx; cbn [nth_error] in Hx.
      * inversion Hx; subst. assumption.
      * apply (Hfirst j); [lia | assumption].
Qed.

Lemma ring_next_cases (n j : nat) :
  j < n -> ring_next n j = if S j =? n then 0 else S j.
Proof.
  intros H. unfold ring_next. destruct (Nat.eqb_spec (S j) n) as [-> | Hne].
  - apply Nat.Div0.mod_same.
  - apply Nat.mod_small. lia.
Qed.

Lemma roll_left_nth {A : Type} (l : list A) (j : nat) (d : A) :
  j < length l ->
  nth j (roll_left l) d = nth (ring_next (length l) j) l d.
Proof.
  intros H. rewrite ring_next_cases by assumption.
  destruct l as [| a t]; [simpl in H; lia |].
  cbn [roll_left length]. cbn [length] in H.
  destruct (Nat.eqb_spec (S j) (S (length t))) as [E | Hne].
  - inversion E; subst j. rewrite app_nth2 by lia.
    now rewrite Nat.sub_diag.
  - rewrite app_nth1 by lia. reflexivity.
Qed.

(** The [angle] array holds, at position [j], the angle of segment [j] of
    the ring taken cyclically. *)
Lemma segment_angles_nth (v : list point) (e : Event) (j : nat) :
  j < length v - 1 ->
  nth_error (segment_angles v e) j
  = Some (subtended_angle e (row v j) (row v (ring_next (length v - 1) j))).
Proof.
  intros H. unfold segment_angles.
  rewrite nth_error_map.
  assert (Hr : length (removelast v) = length v - 1) by apply removelast_length.
  assert (Hj : nth_error (combine (removelast v) (roll_left (removelast v))) j
               = Some (row v j, row v (ring_next (length v - 1) j))).
  { rewrite (nth_error_nth' _ ((0, 0), (0, 0))%R).
    2: { rewrite length_combine, roll_left_length, Hr. lia. }
    rewrite combine_nth by (now rewrite roll_left_length).
    rewrite roll_left_nth by (unfold point in *; lia).
    unfold point in *. rewrite Hr.
    assert (Hrow : forall k, k < length v - 1 ->
                             nth k (removelast v) (0, 0)%R = row v k).
    { intros k Hk. unfold row. rewrite removelast_firstn_len.
      rewrite nth_firstn. apply Nat.ltb_lt in Hk.
      replace (pred (length v)) with (length v - 1) by lia. now rewrite Hk. }
    rewrite !Hrow; auto.
    rewrite ring_next_cases by assumption.
    destruct (Nat.eqb_spec (S j) (length v - 1)); lia. }
  rewrite Hj. reflexivity.
Qed.

(** ** numpy's [argmax] *)

(** The first [nan] of the array is the answer. *)
Lemma argmax_aux_first_nan (l : list npfloat) (i ib k : nat) (b : npfloat) :
  nth_error l k = Some NaN ->
  (forall j, j < k -> nth_error l j <> Some NaN) ->
  argmax_aux l i ib b = i + k.
Proof.
  revert i ib b k. induction l as [| x t IH]; intros i ib b k Hk Hbefore.
  - destruct k; discriminate.
  - destruct k as [| k]; cbn [nth_error] in Hk.
    + inversion Hk; subst x. cbn [argmax_aux fle]. lia.
    + assert (Hx : x <> NaN).
      { intros ->. now apply (Hbefore 0 ltac:(lia)). }
      assert (Ht : forall j, j < k -> nth_error t j <> Some NaN).
      { intros j Hj. apply (Hbefore (S j)). lia. }
      cbn [argmax_aux]. destruct (fle x b).
      * rewrite (IH (S i) ib b k Hk Ht). lia.
      * destruct x; try congruence;
          rewrite (IH (S i) i _ k Hk Ht); lia.
Qed.

Lemma argmax_first_nan (l : list npfloat) (k : nat) :
  nth_error l k = Some NaN ->
  (forall j, j < k -> nth_error l j <> Some NaN) ->
  argmax l = ok k.
Proof.
  intros Hk Hbefore. destruct l as [| x t]; [destruct k; discriminate |].
  destruct k as [| k]; cbn [nth_error] in Hk.
  - inversion Hk. reflexivity.
  - assert (Hx : x <> NaN).
    { intros ->. now apply (Hbefore 0 ltac:(lia)). }
    assert (Ht : forall j, j < k -> nth_error t j <> Some NaN).
    { intros j Hj. apply (Hbefore (S j)). lia. }
    pose proof (argmax_aux_first_nan t 1 0 k x Hk Ht) as Haux.
    destruct x; try congruence; cbn [argmax]; rewrite Haux; reflexivity.
Qed.

(** Without [nan] or infinities it is the first maximum. *)
Lemma argmax_aux_numbers (t : list R) (i ib : nat) (b : R) :
  argmax_aux (map Num t) i ib (Num b) = first_max_aux t i ib b.
Proof.
  revert i ib b. induction t as [| x t IH]; intros i ib b;
    cbn [map argmax_aux first_max_aux fle]; [reflexivity |].
  destruct (Rle_dec x b) as [Hle | Hgt];
    destruct (Rgt_dec x b) as [Hg | Hng]; try lra; apply IH.
Qed.

Lemma argmax_numbers (l : list R) : argmax (map Num l) = first_max l.
Proof.
  destruct l as [| x t]; [reflexivity |].
  cbn [map argmax first_max]. f_equal. apply argmax_aux_numbers.
Qed.

(** ** Continuity in the plane *)

Section PlaneContinuity.

Local Open Scope R_scope.

Lemma cont2_ext (f g : point -> R) (m : point) :
  (forall q, f q = g q) -> cont2 f m -> cont2 g m.
Proof.
  intros E H eps Heps. destruct (H eps Heps) as (delta & Hd & Hf).
  exists delta. split; [assumption |]. intros q Hx Hy.
  rewrite <- !E. now apply Hf.
Qed.

Lemma cont2_const (c : R) (m : point) : cont2 (fun _ => c) m.
Proof.
  intros eps Heps. exists 1. split; [lra |]. intros q _ _.
  rewrite Rminus_diag, Rabs_R0. assumption.
Qed.

Lemma cont2_fst (m : point) : cont2 (fun q => fst q) m.
Proof.
  intros eps Heps. exists eps. split; [assumption |]. intros q Hx _. exact Hx.
Qed.

Lemma cont2_snd (m : point) : cont2 (fun q => snd q) m.
Proof.
  intros eps Heps. exists eps. split; [assumption |]. intros q _ Hy. exact Hy.
Qed.

Lemma cont2_plus (f g : point -> R) (m : point) :
  cont2 f m -> cont2 g m -> cont2 (fun q => f q + g q) m.
Proof.
  intros Hf Hg eps Heps.
  destruct (Hf (eps / 2) ltac:(lra)) as (d1 & Hd1 & H1).
  destruct (Hg (eps / 2) ltac:(lra)) as (d2 & Hd2 & H2).
  exists (Rmin d1 d2). split; [now apply Rmin_glb_lt |].
  intros q Hx Hy.
  pose proof (Rmin_l d1 d2). pose proof (Rmin_r d1 d2).
  specialize (H1 q ltac:(lra) ltac:(lra)).
  specialize (H2 q ltac:(lra) ltac:(lra)).
  replace (f q + g q - (f m + g m)) with ((f q - f m) + (g q - g m)) by ring.
  eapply Rle_lt_trans; [apply Rabs_triang | lra].
Qed.

Lemma cont2_opp (f : point -> R) (m : point) :
  cont2 f m -> cont2 (fun q => - f q) m.
Proof.
  intros Hf eps Heps. destruct (Hf eps Heps) as (d & Hd & H).
  exists d. split; [assumption |]. intros q Hx Hy.
  replace (- f q - - f m) with (- (f q - f m)) by ring.
  rewrite Rabs_Ropp. now apply H.
Qed.

Lemma cont2_minus (f g : point -> R) (m : point) :
  cont2 f m -> cont2 g m -> cont2 (fun q => f q - g q) m.
Proof.
  intros Hf Hg. apply (cont2_ext (fun q => f q + - g q)).
  - intros q. ring.
  - apply cont2_plus; [assumption | now apply cont2_opp].
Qed.

(** A function of the plane followed by a continuous function of the line. *)
Lemma cont2_comp (g : R -> R) (f : point -> R) (m : point) :
  continuity_pt g (f m) -> cont2 f m -> cont2 (fun q => g (f q)) m.
Proof.
  intros Hg Hf eps Heps.
  destruct (Hg eps Heps) as (alpha & Ha & Hlim).
  destruct (Hf alpha Ha) as (delta & Hd & Hbox).
  exists delta. split; [assumption |]. intros q Hx Hy.
  specialize (Hbox q Hx Hy).
  destruct (Req_dec (f m) (f q)) as [E | Hne].
  - rewrite <- E, Rminus_diag, Rabs_R0. assumption.
  - apply (Hlim (f q)). split; [| exact Hbox].
    split; [exact I | exact Hne].
Qed.

Lemma cont2_sqr (f : point -> R) (m : point) :
  cont2 f m -> cont2 (fun q => Rsqr (f q)) m.
Proof.
  apply cont2_comp. apply derivable_continuous_pt, derivable_pt_Rsqr.
Qed.

Lemma cont2_scal (c : R) (f : point -> R) (m : point) :
  cont2 f m -> cont2 (fun q => c * f q) m.
Proof.
  apply (cont2_comp (fun x => c * x)).
  apply derivable_continuous_pt.
  apply derivable_pt_mult; [apply derivable_pt_const | apply derivable_pt_id].
Qed.

Lemma cont2_mult (f g : point -> R) (m : point) :
  cont2 f m -> cont2 g m -> cont2 (fun q => f q * g q) m.
Proof.
  intros Hf Hg.
  apply (cont2_ext
           (fun q => / 4 * (Rsqr (f q + g q) - Rsqr (f q - g q)))).
  - intros q. unfold Rsqr. field.
  - apply cont2_scal. apply cont2_minus; apply cont2_sqr.
    + now apply cont2_plus.
    + now apply cont2_minus.
Qed.

Lemma cont2_sqrt (f : point -> R) (m : point) :
  0 < f m -> cont2 f m -> cont2 (fun q => sqrt (f q)) m.
Proof.
  intros Hpos. apply cont2_comp. now apply sqrt_continuity_pt.
Qed.

Lemma cont2_inv (f : point -> R) (m : point) :
  f m <> 0 -> cont2 f m -> cont2 (fun q => / f q) m.
Proof.
  intros Hne. apply (cont2_comp (fun x => / x)).
  apply (continuity_pt_inv id); [| exact Hne].
  apply derivable_continuous_pt, derivable_pt_id.
Qed.

Lemma cont2_div (f g : point -> R) (m : point) :
  g m <> 0 -> cont2 f m -> cont2 g m -> cont2 (fun q => f q / g q) m.
Proof.
  intros Hne Hf Hg. apply cont2_mult; [assumption | now apply cont2_inv].
Qed.

(** A function that is continuous and positive at [m] is positive around
    [m]. *)
Lemma cont2_positive_nearby (f : point -> R) (m : point) :
  cont2 f m -> 0 < f m ->
  exists delta,
    0 < delta
    /\ forall q, Rabs (fst q - fst m) < delta ->
                 Rabs (snd q - snd m) < delta -> 0 < f q.
Proof.
  intros Hf Hpos. destruct (Hf (f m) Hpos) as (d & Hd & H).
  exists d. split; [assumption |]. intros q Hx Hy.
  specialize (H q Hx Hy). apply Rabs_def2 in H. lra.
Qed.

End PlaneContinuity.

(** ** The cosine seen from a point *)

Section Cosine.

Local Open Scope R_scope.

(** On [[-1, 1]] the arc cosine is strictly decreasing. *)
Lemma acos_decreasing (x y : R) :
  -1 <= x -> y <= 1 -> x < y -> acos y < acos x.
Proof.
  intros Hx Hy Hlt.
  destruct (Rlt_le_dec (acos y) (acos x)) as [H | H]; [assumption |].
  exfalso.
  pose proof (acos_bound x) as [Hx0 Hx1].
  pose proof (acos_bound y) as [Hy0 Hy1].
  pose proof (cos_decr_1 (acos x) (acos y) Hx0 Hx1 Hy0 Hy1 H) as Hc.
  rewrite !cos_acos in Hc by lra. lra.
Qed.

(** Cauchy-Schwarz, for the quotient as numpy writes it (a division by
    zero gives 0 here). *)
Lemma quotient_bounds (n sp sq : R) :
  0 <= sp -> 0 <= sq -> n * n <= (sp * sp) * (sq * sq) ->
  -1 <= n / sp / sq <= 1.
Proof.
  intros Hp Hq Hcs.
  destruct (Req_dec sp 0) as [-> | Hp0].
  { unfold Rdiv. rewrite Rinv_0, Rmult_0_r, Rmult_0_l. lra. }
  destruct (Req_dec sq 0) as [-> | Hq0].
  { unfold Rdiv. rewrite Rinv_0, Rmult_0_r. lra. }
  assert (Hpq : 0 < sp * sq) by (apply Rmult_lt_0_compat; lra).
  assert (Hn : - (sp * sq) <= n <= sp * sq) by nra.
  replace (n / sp / sq) with (n / (sp * sq)) by (field; lra).
  split.
  - apply Rmult_le_reg_r with (sp * sq); [assumption |].
    unfold Rdiv. rewrite Rmult_assoc, Rinv_l by lra. lra.
  - apply Rmult_le_reg_r with (sp * sq); [assumption |].
    unfold Rdiv. rewrite Rmult_assoc, Rinv_l by lra. lra.
Qed.

Lemma sum_squares_nonneg (x y : R) : 0 <= x ^ 2 + y ^ 2.
Proof. nra. Qed.

Lemma cosine_at_bounds (m a b : point) : -1 <= cosine_at m a b <= 1.
Proof.
  unfold cosine_at. cbv zeta.
  set (ux := fst a - fst m). set (uy := snd a - snd m).
  set (vx := fst b - fst m). set (vy := snd b - snd m).
  apply quotient_bounds; try apply sqrt_pos.
  rewrite !sqrt_sqrt by apply sum_squares_nonneg.
  replace ((ux ^ 2 + uy ^ 2) * (vx ^ 2 + vy ^ 2))
    with ((ux * vx + uy * vy) * (ux * vx + uy * vy)
          + (ux * vy - uy * vx) ^ 2) by ring.
  pose proof (pow2_ge_0 (ux * vy - uy * vx)). lra.
Qed.

(** The cross product of the two vectors to the ends of a segment is the
    signed area with the viewpoint. *)
Lemma cross_as_vectors (m a b : point) :
  cross a b m
  = (fst a - fst m) * (snd b - snd m) - (snd a - snd m) * (fst b - fst m).
Proof. unfold cross. ring. Qed.

Lemma quotient_strict (n sp sq : R) :
  0 < sp -> 0 < sq -> n * n < (sp * sp) * (sq * sq) ->
  -1 < n / sp / sq < 1.
Proof.
  intros Hp Hq Hcs.
  assert (Hpq : 0 < sp * sq) by (apply Rmult_lt_0_compat; lra).
  assert (Hn : - (sp * sq) < n < sp * sq) by nra.
  replace (n / sp / sq) with (n / (sp * sq)) by (field; lra).
  split.
  - apply Rmult_lt_reg_r with (sp * sq); [assumption |].
    unfold Rdiv. rewrite Rmult_assoc, Rinv_l by lra. lra.
  - apply Rmult_lt_reg_r with (sp * sq); [assumption |].
    unfold Rdiv. rewrite Rmult_assoc, Rinv_l by lra. lra.
Qed.

(** Seen from a point off the line of a segment, the cosine is strictly
    between -1 and 1. *)
Lemma cosine_off_line (m a b : point) :
  cross a b m <> 0 -> -1 < cosine_at m a b < 1.
Proof.
  rewrite cross_as_vectors. unfold cosine_at. cbv zeta.
  set (ux := fst a - fst m). set (uy := snd a - snd m).
  set (vx := fst b - fst m). set (vy := snd b - snd m).
  intros Hc.
  assert (Hsq : 0 < (ux * vy - uy * vx) ^ 2).
  { destruct (Rdichotomy _ _ Hc); nra. }
  assert (HP : 0 < ux ^ 2 + uy ^ 2).
  { destruct (Req_dec ux 0) as [Ex | Ex]; [| nra].
    destruct (Req_dec uy 0) as [Ey | Ey]; [| nra].
    exfalso. apply Hc. rewrite Ex, Ey. ring. }
  assert (HQ : 0 < vx ^ 2 + vy ^ 2).
  { destruct (Req_dec vx 0) as [Ex | Ex]; [| nra].
    destruct (Req_dec vy 0) as [Ey | Ey]; [| nra].
    exfalso. apply Hc. rewrite Ex, Ey. ring. }
  apply quotient_strict; try (apply sqrt_lt_R0; assumption).
  rewrite !sqrt_sqrt by lra.
  replace ((ux ^ 2 + uy ^ 2) * (vx ^ 2 + vy ^ 2))
    with ((ux * vx + uy * vy) * (ux * vx + uy * vy)
          + (ux * vy - uy * vx) ^ 2) by ring.
  lra.
Qed.

(** Seen from its midpoint, a segment of positive length is a straight
    angle. *)
Lemma cosine_at_midpoint (a b : point) :
  a <> b -> cosine_at (midpoint a b) a b = -1.
Proof.
  intros Hne. unfold cosine_at, midpoint. cbn [fst snd]. cbv zeta.
  set (wx := (fst a - fst b) / 2). set (wy := (snd a - snd b) / 2).
  replace (fst a - (fst a + fst b) / 2) with wx by (unfold wx; field).
  replace (snd a - (snd a + snd b) / 2) with wy by (unfold wy; field).
  replace (fst b - (fst a + fst b) / 2) with (- wx) by (unfold wx; field).
  replace (snd b - (snd a + snd b) / 2) with (- wy) by (unfold wy; field).
  replace ((- wx) ^ 2 + (- wy) ^ 2) with (wx ^ 2 + wy ^ 2) by ring.
  assert (HP : 0 < wx ^ 2 + wy ^ 2).
  { destruct (Req_dec wx 0) as [Ex | Ex]; [| nra].
    destruct (Req_dec wy 0) as [Ey | Ey]; [| nra].
    exfalso. apply Hne. destruct a, b. cbn [fst snd] in *.
    unfold wx, wy in *. f_equal; lra. }
  pose proof (sqrt_lt_R0 _ HP) as Hs.
  pose proof (sqrt_sqrt (wx ^ 2 + wy ^ 2) (Rlt_le _ _ HP)) as Hss.
  set (r := sqrt (wx ^ 2 + wy ^ 2)) in *.
  replace (wx * - wx + wy * - wy) with (- (r * r)) by (rewrite Hss; ring).
  field. lra.
Qed.

Lemma cross_at_midpoint (a b p q : point) :
  cross a b (midpoint p q) = (cross a b p + cross a b q) / 2.
Proof. unfold cross, midpoint. cbn [fst snd]. field. Qed.

Lemma cross_at_start (a b : point) : cross a b a = 0.
Proof. unfold cross. ring. Qed.

Lemma cross_at_end (a b : point) : cross a b b = 0.
Proof. unfold cross. ring. Qed.

(** The cosine is continuous in the viewpoint, away from the two ends. *)
Lemma cosine_at_continuous (m a b : point) :
  m <> a -> m <> b -> cont2 (fun q => cosine_at q a b) m.
Proof.
  intros Ha Hb.
  assert (Hpos : forall c : point, m <> c ->
            0 < (fst c - fst m) ^ 2 + (snd c - snd m) ^ 2).
  { intros c Hc.
    assert (Hxy : fst c - fst m <> 0 \/ snd c - snd m <> 0).
    { destruct (Req_dec (fst c - fst m) 0) as [Ex | Ex]; [| now left].
      destruct (Req_dec (snd c - snd m) 0) as [Ey | Ey]; [| now right].
      exfalso. apply Hc. destruct m, c. cbn [fst snd] in *. f_equal; lra. }
    set (x := fst c - fst m) in *. set (y := snd c - snd m) in *.
    destruct Hxy as [Hx | Hy]; nra. }
  assert (Hcoord : forall c : point,
            cont2 (fun q => fst c - fst q) m /\ cont2 (fun q => snd c - snd q) m).
  { intros c. split; apply cont2_minus;
      auto using cont2_const, cont2_fst, cont2_snd. }
  assert (Hnorm : forall c : point, m <> c ->
            cont2 (fun q => sqrt ((fst c - fst q) ^ 2 + (snd c - snd q) ^ 2)) m).
  { intros c Hc. apply (cont2_sqrt
      (fun q => (fst c - fst q) ^ 2 + (snd c - snd q) ^ 2)).
    - now apply Hpos.
    - destruct (Hcoord c) as [Hx Hy].
      apply cont2_plus.
      + apply (cont2_ext (fun q => (fst c - fst q) * (fst c - fst q)));
          [intros q; ring | now apply cont2_mult].
      + apply (cont2_ext (fun q => (snd c - snd q) * (snd c - snd q)));
          [intros q; ring | now apply cont2_mult]. }
  unfold cosine_at. cbv zeta.
  destruct (Hcoord a) as [Hax Hay]. destruct (Hcoord b) as [Hbx Hby].
  apply (cont2_div
           (fun q => ((fst a - fst q) * (fst b - fst q)
                      + (snd a - snd q) * (snd b - snd q))
                     / sqrt ((fst a - fst q) ^ 2 + (snd a - snd q) ^ 2))
           (fun q => sqrt ((fst b - fst q) ^ 2 + (snd b - snd q) ^ 2))).
  - apply Rgt_not_eq, sqrt_lt_R0. now apply Hpos.
  - apply (cont2_div
             (fun q => (fst a - fst q) * (fst b - fst q)
                       + (snd a - snd q) * (snd b - snd q))
             (fun q => sqrt ((fst a - fst q) ^ 2 + (snd a - snd q) ^ 2))).
    + apply Rgt_not_eq, sqrt_lt_R0. now apply Hpos.
    + apply cont2_plus; now apply cont2_mult.
    + now apply Hnorm.
  - now apply Hnorm.
Qed.

(** Two different points are at a positive distance. *)
Lemma apart_norm (m c : point) :
  m <> c -> 0 < (fst c - fst m) ^ 2 + (snd c - snd m) ^ 2.
Proof.
  intros Hc.
  assert (Hxy : fst c - fst m <> 0 \/ snd c - snd m <> 0).
  { destruct (Req_dec (fst c - fst m) 0) as [Ex | Ex]; [| now left].
    destruct (Req_dec (snd c - snd m) 0) as [Ey | Ey]; [| now right].
    exfalso. apply Hc. destruct m, c. cbn [fst snd] in *. f_equal; lra. }
  set (x := fst c - fst m) in *. set (y := snd c - snd m) in *.
  destruct Hxy as [Hx | Hy]; nra.
Qed.

(** Away from the two ends of the segment no division is by zero and the
    quotient is a cosine: the angle is a number. *)
Lemma subtended_angle_num (e : Event) (a b : point) :
  (ev_xdata e, ev_ydata e) <> a ->
  (ev_xdata e, ev_ydata e) <> b ->
  subtended_angle e a b
  = Num (acos (cosine_at (ev_xdata e, ev_ydata e) a b)).
Proof.
  intros Ha Hb.
  pose proof (cosine_at_bounds (ev_xdata e, ev_ydata e) a b) as [Hlo Hhi].
  pose proof (sqrt_lt_R0 _ (apart_norm _ _ Ha)) as Hu.
  pose proof (sqrt_lt_R0 _ (apart_norm _ _ Hb)) as Hv.
  unfold subtended_angle, cosine_at in *. cbn [fst snd] in *. cbv zeta in *.
  unfold fdiv.
  destruct (Req_dec_T (sqrt ((fst a - ev_xdata e) ^ 2
                             + (snd a - ev_ydata e) ^ 2)) 0) as [E | _];
    [lra |].
  destruct (Req_dec_T (sqrt ((fst b - ev_xdata e) ^ 2
                             + (snd b - ev_ydata e) ^ 2)) 0) as [E | _];
    [lra |].
  unfold arccos.
  destruct (Rle_dec (-1) _) as [_ | Hn]; [| contradiction].
  destruct (Rle_dec _ 1) as [_ | Hn]; [reflexivity | contradiction].
Qed.

(** At an end of the segment a norm is zero and so is the scalar product:
    the quotient, and with it the angle, is [nan]. *)
Lemma subtended_angle_nan (e : Event) (a b : point) :
  (ev_xdata e, ev_ydata e) = a \/ (ev_xdata e, ev_ydata e) = b ->
  subtended_angle e a b = NaN.
Proof.
  intros H.
  assert (Hzero : forall x y : R, x = 0 -> y = 0 -> sqrt (x ^ 2 + y ^ 2) = 0).
  { intros x y -> ->. replace (0 ^ 2 + 0 ^ 2) with 0 by ring. apply sqrt_0. }
  unfold subtended_angle. cbv zeta.
  set (ux := fst a - ev_xdata e). set (uy := snd a - ev_ydata e).
  set (vx := fst b - ev_xdata e). set (vy := snd b - ev_ydata e).
  destruct (point_eq_dec (ev_xdata e, ev_ydata e) a) as [Ea | Na].
  - assert (Hux : ux = 0) by (unfold ux; rewrite <- Ea; cbn [fst]; ring).
    assert (Huy : uy = 0) by (unfold uy; rewrite <- Ea; cbn [snd]; ring).
    unfold fdiv at 2.
    destruct (Req_dec_T (sqrt (ux ^ 2 + uy ^ 2)) 0) as [_ | Hn];
      [| exfalso; apply Hn; now apply Hzero].
    destruct (Req_dec_T (ux * vx + uy * vy) 0) as [_ | Hn];
      [reflexivity | exfalso; apply Hn; rewrite Hux, Huy; ring].
  - destruct H as [Ea | Eb]; [contradiction |].
    assert (Hvx : vx = 0) by (unfold vx; rewrite <- Eb; cbn [fst]; ring).
    assert (Hvy : vy = 0) by (unfold vy; rewrite <- Eb; cbn [snd]; ring).
    pose proof (sqrt_lt_R0 _ (apart_norm _ _ Na)) as Hu.
    cbn [fst snd] in Hu. fold ux uy in Hu.
    unfold fdiv at 2.
    destruct (Req_dec_T (sqrt (ux ^ 2 + uy ^ 2)) 0) as [E | _]; [lra |].
    unfold fdiv.
    destruct (Req_dec_T (sqrt (vx ^ 2 + vy ^ 2)) 0) as [_ | Hn];
      [| exfalso; apply Hn; now apply Hzero].
    destruct (Req_dec_T _ 0) as [_ | Hn]; [reflexivity |].
    exfalso. apply Hn. rewrite Hvx, Hvy. unfold Rdiv. ring.
Qed.

(** [on_segment] is the segment as a set of points: those of the form
    [a + t (b - a)] with [t] between 0 and 1. *)
Lemma on_segment_between (a b m : point) :
  a <> b ->
  on_segment a b m
  <-> exists t, 0 <= t <= 1
                /\ m = (fst a + t * (fst b - fst a),
                        snd a + t * (snd b - snd a)).
Proof.
  intros Hne. pose proof (apart_norm a b Hne) as HD.
  destruct a as [ax ay], b as [bx by_], m as [mx my].
  unfold on_segment, cross. cbn [fst snd] in *.
  set (dx := bx - ax) in *. set (dy := by_ - ay) in *.
  set (D := dx ^ 2 + dy ^ 2) in *.
  split.
  - intros [Hc Hd].
    set (t := ((mx - ax) * dx + (my - ay) * dy) / D).
    assert (HtD : t * D = (mx - ax) * dx + (my - ay) * dy).
    { unfold t. field. lra. }
    assert (Hkx : (mx - ax) * D = dx * (t * D)).
    { rewrite HtD. unfold D.
      replace ((mx - ax) * (dx ^ 2 + dy ^ 2))
        with (dx * ((mx - ax) * dx + (my - ay) * dy)
              - dy * (dx * (my - ay) - dy * (mx - ax))) by ring.
      rewrite Hc. ring. }
    assert (Hky : (my - ay) * D = dy * (t * D)).
    { rewrite HtD. unfold D.
      replace ((my - ay) * (dx ^ 2 + dy ^ 2))
        with (dy * ((mx - ax) * dx + (my - ay) * dy)
              + dx * (dx * (my - ay) - dy * (mx - ax))) by ring.
      rewrite Hc. ring. }
    assert (Hx : mx = ax + t * dx).
    { apply Rmult_eq_reg_r with D; [| lra].
      replace (mx * D) with ((mx - ax) * D + ax * D) by ring.
      rewrite Hkx. ring. }
    assert (Hy : my = ay + t * dy).
    { apply Rmult_eq_reg_r with D; [| lra].
      replace (my * D) with ((my - ay) * D + ay * D) by ring.
      rewrite Hky. ring. }
    exists t. split; [| now rewrite <- Hx, <- Hy].
    assert (Hprod : 0 <= t * (1 - t) * D).
    { replace (t * (1 - t) * D)
        with (- ((ax - mx) * (bx - mx) + (ay - my) * (by_ - my))).
      - lra.
      - rewrite Hx, Hy. unfold D, dx, dy. ring. }
    assert (Ht : 0 <= t * (1 - t)).
    { apply Rmult_le_reg_r with D; [assumption | lra]. }
    split; nra.
  - intros (t & Ht & E). inversion E; subst mx my. split.
    + unfold dx, dy. ring.
    + replace ((ax - (ax + t * dx)) * (bx - (ax + t * dx))
               + (ay - (ay + t * dy)) * (by_ - (ay + t * dy)))
        with (- (t * (1 - t) * D)) by (unfold D, dx, dy; ring).
      assert (0 <= t * (1 - t)) by nra.
      assert (0 <= t * (1 - t) * D) by (apply Rmult_le_pos; lra).
      lra.
Qed.

(** Seen from a point that is not on the segment, ends included, the
    segment is not a straight angle. *)
Lemma off_segment_cosine (m a b : point) :
  ~ on_segment a b m -> m <> a /\ m <> b /\ -1 < cosine_at m a b.
Proof.
  intros Hoff.
  assert (Ha : m <> a).
  { intros ->. apply Hoff. split; [apply cross_at_start | nra]. }
  assert (Hb : m <> b).
  { intros ->. apply Hoff. split; [apply cross_at_end | nra]. }
  split; [assumption |]. split; [assumption |].
  destruct (Req_dec (cross a b m) 0) as [Hc | Hc];
    [| now apply cosine_off_line].
  assert (Hdot : 0 < (fst a - fst m) * (fst b - fst m)
                     + (snd a - snd m) * (snd b - snd m)).
  { destruct (Rlt_le_dec 0 ((fst a - fst m) * (fst b - fst m)
                            + (snd a - snd m) * (snd b - snd m)))
      as [H | H]; [assumption |].
    exfalso. apply Hoff. split; assumption. }
  pose proof (sqrt_lt_R0 _ (apart_norm _ _ Ha)) as Hu.
  pose proof (sqrt_lt_R0 _ (apart_norm _ _ Hb)) as Hv.
  unfold cosine_at. cbv zeta.
  apply Rlt_trans with 0; [lra |].
  apply Rdiv_lt_0_compat; [apply Rdiv_lt_0_compat |]; assumption.
Qed.

End Cosine.

(** ** The position chosen by [_add_new_vertex] *)

(** When the event is at none of the ring's vertices, every angle is a
    number. *)
Lemma segment_angles_numbers (v : list point) (e : Event) :
  (forall j, j < length v - 1 -> row v j <> (ev_xdata e, ev_ydata e)) ->
  segment_angles v e = map Num (map (edge_angle v e) (seq 0 (length v - 1))).
Proof.
  intros Hoff. apply nth_error_ext. intros k.
  destruct (Nat.lt_ge_cases k (length v - 1)) as [Hk | Hk].
  - rewrite segment_angles_nth by assumption.
    rewrite !nth_error_map.
    rewrite (nth_error_nth' (seq 0 (length v - 1)) 0)
      by (now rewrite length_seq).
    rewrite seq_nth by assumption. cbn [option_map Nat.add].
    f_equal. unfold edge_angle. apply subtended_angle_num.
    + intros E. now apply (Hoff k Hk).
    + assert (Hnext : ring_next (length v - 1) k < length v - 1).
      { rewrite ring_next_cases by assumption.
        destruct (Nat.eqb_spec (S k) (length v - 1)); lia. }
      intros E. now apply (Hoff _ Hnext).
  - assert (H1 : nth_error (segment_angles v e) k = None).
    { apply nth_error_None. now rewrite segment_angles_length. }
    assert (H2 : nth_error (map Num (map (edge_angle v e)
                                       (seq 0 (length v - 1)))) k = None).
    { apply nth_error_None. now rewrite !length_map, length_seq. }
    congruence.
Qed.

(** The event at no vertex of the ring: the position is after the first
    segment seen under the largest angle. *)
Lemma insertion_position (v : list point) (e : Event) :
  2 <= length v ->
  (forall j, j < length v - 1 -> row v j <> (ev_xdata e, ev_ydata e)) ->
  exists a,
    a < length v - 1
    /\ add_new_vertex v e
       = ok (firstn (a + 1) v ++ (ev_xdata e, ev_ydata e) :: skipn (a + 1) v)
    /\ (forall j, j < length v - 1 ->
                  (edge_angle v e j <= edge_angle v e a)%R)
    /\ (forall j, j < a -> (edge_angle v e j < edge_angle v e a)%R).
Proof.
  intros H Hoff. destruct (add_new_vertex_total v e H) as (a & Ha & Hlt & Hadd).
  exists a. split; [assumption |]. split; [assumption |].
  rewrite (segment_angles_numbers v e Hoff), argmax_numbers in Ha.
  destruct (first_max_spec _ _ Ha) as (m & Hm & Hmax & Hfirst).
  assert (Hnth : forall j, j < length v - 1 ->
            nth_error (map (edge_angle v e) (seq 0 (length v - 1))) j
            = Some (edge_angle v e j)).
  { intros j Hj. rewrite nth_error_map.
    rewrite (nth_error_nth' (seq 0 (length v - 1)) 0)
      by (now rewrite length_seq).
    now rewrite seq_nth by assumption. }
  rewrite Hnth in Hm by assumption. inversion Hm; subst m.
  split.
  - intros j Hj. apply (Hmax j). now apply Hnth.
  - intros j Hj. apply (Hfirst j); [assumption |]. apply Hnth. lia.
Qed.

(** The event at a vertex of the ring: the two segments that end there have
    [nan] for angle, and the position is after the first of them. *)
Lemma insertion_at_vertex (v : list point) (e : Event) (a : nat) :
  a < length v - 1 ->
  row v a = (ev_xdata e, ev_ydata e)
  \/ row v (ring_next (length v - 1) a) = (ev_xdata e, ev_ydata e) ->
  (forall j, j < a ->
     row v j <> (ev_xdata e, ev_ydata e)
     /\ row v (ring_next (length v - 1) j) <> (ev_xdata e, ev_ydata e)) ->
  add_new_vertex v e
  = ok (firstn (a + 1) v ++ (ev_xdata e, ev_ydata e) :: skipn (a + 1) v).
Proof.
  intros Ha Hat Hbefore. unfold add_new_vertex.
  rewrite (argmax_first_nan (segment_angles v e) a).
  - reflexivity.
  - rewrite segment_angles_nth by assumption. f_equal.
    apply subtended_angle_nan. destruct Hat as [E | E]; [left | right];
      now rewrite E.
  - intros j Hj. rewrite segment_angles_nth by lia.
    destruct (Hbefore j Hj) as [H1 H2].
    rewrite subtended_angle_num; [discriminate | |]; intros E;
      [now apply H1 | now apply H2].
Qed.

(** ** Inserting next to the midpoint of a segment of a convex ring *)

Section ConvexInsertion.

Local Open Scope R_scope.

(** Finitely many radii have a common one. *)
Lemma uniform_radius (n : nat) (P : nat -> R -> Prop) :
  (forall j d d', P j d -> 0 < d' <= d -> P j d') ->
  (forall j, (j < n)%nat -> exists d, 0 < d /\ P j d) ->
  exists d, 0 < d /\ forall j, (j < n)%nat -> P j d.
Proof.
  intros Hmono. induction n as [| n IH]; intros Hall.
  - exists 1. split; [lra |]. intros j Hj. lia.
  - destruct IH as (d1 & Hd1 & H1).
    { intros j Hj. apply Hall. lia. }
    destruct (Hall n ltac:(lia)) as (d2 & Hd2 & H2).
    exists (Rmin d1 d2). split; [now apply Rmin_glb_lt |].
    pose proof (Rmin_l d1 d2). pose proof (Rmin_r d1 d2).
    assert (Hmin : 0 < Rmin d1 d2) by now apply Rmin_glb_lt.
    intros j Hj. destruct (Nat.eq_dec j n) as [-> | Hne].
    + apply (Hmono n d2); [assumption | lra].
    + apply (Hmono j d1); [apply H1; lia | lra].
Qed.

Lemma midpoint_not_start (a b : point) : a <> b -> midpoint a b <> a.
Proof.
  intros Hne E. apply Hne. destruct a as [ax ay], b as [bx by_].
  unfold midpoint in E. cbn [fst snd] in E. inversion E. f_equal; lra.
Qed.

Lemma midpoint_not_end (a b : point) : a <> b -> midpoint a b <> b.
Proof.
  intros Hne E. apply Hne. destruct a as [ax ay], b as [bx by_].
  unfold midpoint in E. cbn [fst snd] in E. inversion E. f_equal; lra.
Qed.

(** In a strictly convex ring, the midpoint of segment [i] is off the line
    of every other segment, and segment [i] has positive length. *)
Lemma convex_midpoint_off_lines (v : list point) (i : nat) :
  strictly_convex v ->
  (i < length v - 1)%nat ->
  let n := (length v - 1)%nat in
  row v i <> row v (ring_next n i)
  /\ forall j, (j < n)%nat -> j <> i ->
       cross (row v j) (row v (ring_next n j))
             (midpoint (row v i) (row v (ring_next n i))) <> 0.
Proof.
  intros Hconv Hi. unfold strictly_convex in Hconv. cbv zeta in *.
  remember (length v - 1)%nat as n eqn:En.
  destruct Hconv as (H4 & _ & Hside).
  assert (Hn : (3 <= n)%nat) by lia.
  assert (Hsign :
    exists sg : R,
      forall j k, (j < n)%nat -> (k < n)%nat ->
        (k <> j -> k <> ring_next n j ->
         0 < sg * cross (row v j) (row v (ring_next n j)) (row v k))
        /\ 0 <= sg * cross (row v j) (row v (ring_next n j)) (row v k)).
  { assert (Hends : forall j k, k = j \/ k = ring_next n j ->
              cross (row v j) (row v (ring_next n j)) (row v k) = 0).
    { intros j k [-> | ->]; [apply cross_at_start | apply cross_at_end]. }
    destruct Hside as [Hpos | Hneg]; [exists 1 | exists (-1)];
      intros j k Hj Hk.
    - split; [intros H1 H2; specialize (Hpos j k Hj Hk H1 H2); lra |].
      destruct (Nat.eq_dec k j) as [E | H1];
        [rewrite Hends by auto; lra |].
      destruct (Nat.eq_dec k (ring_next n j)) as [E | H2];
        [rewrite Hends by auto; lra |].
      specialize (Hpos j k Hj Hk H1 H2). lra.
    - split; [intros H1 H2; specialize (Hneg j k Hj Hk H1 H2); lra |].
      destruct (Nat.eq_dec k j) as [E | H1];
        [rewrite Hends by auto; lra |].
      destruct (Nat.eq_dec k (ring_next n j)) as [E | H2];
        [rewrite Hends by auto; lra |].
      specialize (Hneg j k Hj Hk H1 H2). lra. }
  destruct Hsign as (sg & Hsg).
  assert (Hnext : forall j, (j < n)%nat ->
            ring_next n j = if (S j =? n)%nat then 0%nat else S j).
  { intros j Hj. now apply ring_next_cases. }
  assert (Hnext_lt : forall j, (j < n)%nat -> (ring_next n j < n)%nat).
  { intros j Hj. rewrite Hnext by assumption.
    destruct (Nat.eqb_spec (S j) n); lia. }
  split.
  - (* vertex i is strictly off the line of the segment that follows *)
    intros E.
    pose proof (Hnext_lt i Hi) as Hi'.
    destruct (Hsg (ring_next n i) i Hi' Hi) as [Hstrict _].
    assert (Hoff : 0 < sg * cross (row v (ring_next n i))
                                  (row v (ring_next n (ring_next n i)))
                                  (row v i)).
    { apply Hstrict.
      - rewrite Hnext by assumption. destruct (Nat.eqb_spec (S i) n); lia.
      - rewrite (Hnext (ring_next n i)) by assumption.
        rewrite Hnext by assumption.
        destruct (Nat.eqb_spec (S i) n);
          [destruct (Nat.eqb_spec 1%nat n) | destruct (Nat.eqb_spec (S (S i)) n)];
          lia. }
    rewrite E, cross_at_start in Hoff. lra.
  - intros j Hj Hji.
    rewrite cross_at_midpoint.
    pose proof (Hnext_lt i Hi) as Hi'.
    destruct (Hsg j i Hj Hi) as [Hs1 Hw1].
    destruct (Hsg j (ring_next n i) Hj Hi') as [Hs2 Hw2].
    assert (Hone :
      0 < sg * cross (row v j) (row v (ring_next n j)) (row v i)
      \/ 0 < sg * cross (row v j) (row v (ring_next n j))
                        (row v (ring_next n i))).
    { destruct (Nat.eq_dec i (ring_next n j)) as [E | Hne].
      - right. apply Hs2.
        + rewrite Hnext by assumption. rewrite (Hnext j Hj) in E.
          destruct (Nat.eqb_spec (S i) n); destruct (Nat.eqb_spec (S j) n);
            lia.
        + rewrite <- E. rewrite Hnext by assumption.
          destruct (Nat.eqb_spec (S i) n); lia.
      - left. apply Hs1; auto. }
    intros Hz.
    assert (Hsum : sg * cross (row v j) (row v (ring_next n j)) (row v i)
                   + sg * cross (row v j) (row v (ring_next n j))
                                (row v (ring_next n i)) = 0) by nra.
    destruct Hone; lra.
Qed.

Lemma strictly_convex_clear (v : list point) (i : nat) :
  strictly_convex v -> (i < length v - 1)%nat -> clear_midpoint v i.
Proof.
  intros Hconv Hi.
  destruct (convex_midpoint_off_lines v i Hconv Hi) as [Hlen Hoff].
  split; [assumption |].
  intros j Hj Hji [Hcross _]. now apply (Hoff j Hj Hji).
Qed.

(** Around a point [m] there is room free of a point [c] different from
    it. *)
Lemma away_nearby (m c : point) :
  m <> c ->
  exists d, 0 < d
            /\ forall q, Rabs (fst q - fst m) < d ->
                         Rabs (snd q - snd m) < d -> q <> c.
Proof.
  intros Hne.
  destruct (Req_dec (fst c) (fst m)) as [Ex | Nx].
  - destruct (Req_dec (snd c) (snd m)) as [Ey | Ny].
    + exfalso. apply Hne. destruct m, c. cbn [fst snd] in *. now subst.
    + exists (Rabs (snd c - snd m)). split.
      * apply Rabs_pos_lt. lra.
      * intros q _ Hy ->. lra.
  - exists (Rabs (fst c - fst m)). split.
    + apply Rabs_pos_lt. lra.
    + intros q Hx _ ->. lra.
Qed.

(** Around the midpoint of a segment [i] with a clear midpoint, the event is
    at no vertex of the ring and it sees segment [i] under a larger angle
    than any other segment. *)
Lemma clear_midpoint_widest (v : list point) (i : nat) :
  clear_midpoint v i ->
  (i < length v - 1)%nat ->
  let n := (length v - 1)%nat in
  let mid := midpoint (row v i) (row v (ring_next n i)) in
  exists delta,
    0 < delta
    /\ forall e,
         Rabs (ev_xdata e - fst mid) < delta ->
         Rabs (ev_ydata e - snd mid) < delta ->
         (forall k, (k < n)%nat -> row v k <> (ev_xdata e, ev_ydata e))
         /\ forall j, (j < n)%nat -> j <> i ->
                      edge_angle v e j < edge_angle v e i.
Proof.
  intros Hclear Hi n mid. unfold clear_midpoint in Hclear. cbv zeta in Hclear.
  fold n in Hclear. destruct Hclear as [Hlen Hoff]. fold mid in Hoff.
  set (ai := row v i) in *. set (bi := row v (ring_next n i)) in *.
  assert (Hci : cont2 (fun q => cosine_at q ai bi) mid).
  { apply cosine_at_continuous;
      [now apply midpoint_not_start | now apply midpoint_not_end]. }
  destruct (uniform_radius n
              (fun j d =>
                 (forall q, Rabs (fst q - fst mid) < d ->
                            Rabs (snd q - snd mid) < d -> q <> row v j)
                 /\ (j <> i ->
                     forall q, Rabs (fst q - fst mid) < d ->
                               Rabs (snd q - snd mid) < d ->
                               cosine_at q ai bi
                               < cosine_at q (row v j)
                                           (row v (ring_next n j)))))
    as (delta & Hdelta & Hall).
  - intros j d d' [H1 H2] Hd'. split.
    + intros q Hx Hy. apply H1; lra.
    + intros Hji q Hx Hy. apply H2; [assumption | lra | lra].
  - intros j Hj. destruct (Nat.eq_dec j i) as [-> | Hji].
    { destruct (away_nearby mid ai) as (d & Hd & Hfree).
      { now apply midpoint_not_start. }
      exists d. split; [assumption |]. split; [exact Hfree |].
      intros Hfalse. congruence. }
    destruct (off_segment_cosine mid _ _ (Hoff j Hj Hji)) as (Hma & Hmb & Hcos).
    set (aj := row v j) in *. set (bj := row v (ring_next n j)) in *.
    assert (Hcj : cont2 (fun q => cosine_at q aj bj) mid).
    { now apply cosine_at_continuous. }
    destruct (cont2_positive_nearby
                (fun q => cosine_at q aj bj - cosine_at q ai bi) mid)
      as (d1 & Hd1 & Hnear).
    + now apply cont2_minus.
    + unfold mid at 2. unfold ai, bi.
      rewrite cosine_at_midpoint by assumption. lra.
    + destruct (away_nearby mid aj Hma) as (d2 & Hd2 & Hfree).
      exists (Rmin d1 d2).
      pose proof (Rmin_l d1 d2). pose proof (Rmin_r d1 d2).
      split; [now apply Rmin_glb_lt |]. split.
      * intros q Hx Hy. apply Hfree; lra.
      * intros _ q Hx Hy.
        assert (0 < cosine_at q aj bj - cosine_at q ai bi)
          by (apply Hnear; lra).
        lra.
  - exists delta. split; [assumption |]. intros e Hx Hy. split.
    + intros k Hk E. destruct (Hall k Hk) as [Hfree _].
      apply (Hfree (ev_xdata e, ev_ydata e)); auto.
    + intros j Hj Hji. destruct (Hall j Hj) as [_ Hless].
      unfold edge_angle. fold n. fold ai bi.
      apply acos_decreasing.
      * apply cosine_at_bounds.
      * apply cosine_at_bounds.
      * now apply (Hless Hji (ev_xdata e, ev_ydata e)).
Qed.

End ConvexInsertion.

(** Close to the midpoint of a segment with a clear midpoint the point is
    inserted right after the start of that segment. *)
Lemma insertion_near_midpoint (v : list point) (i : nat) :
  i < length v - 1 ->
  clear_midpoint v i ->
  exists delta : R,
    (0 < delta)%R
    /\ forall e,
         (Rabs (ev_xdata e
                - fst (midpoint (row v i)
                                (row v (ring_next (length v - 1) i))))
          < delta)%R ->
         (Rabs (ev_ydata e
                - snd (midpoint (row v i)
                                (row v (ring_next (length v - 1) i))))
          < delta)%R ->
         add_new_vertex v e
         = ok (firstn (i + 1) v
                 ++ (ev_xdata e, ev_ydata e) :: skipn (i + 1) v).
Proof.
  intros Hi Hclear.
  destruct (clear_midpoint_widest v i Hclear Hi) as (delta & Hd & Hwide).
  exists delta. split; [assumption |]. intros e Hx Hy.
  destruct (Hwide e Hx Hy) as [Hfree Hless].
  destruct (insertion_position v e ltac:(lia) Hfree)
    as (a & Ha & Hadd & Hmax & _).
  destruct (Nat.eq_dec a i) as [-> | Hne]; [assumption |].
  exfalso. specialize (Hless a Ha Hne). specialize (Hmax i Hi). lra.
Qed.


(** ** Further properties of the callbacks *)

(** X2. After a primary release on the model axes with a polygon selected,
    a press that lands outside the model axes is ignored, and the next move
    on the axes with the primary button held raises [AttributeError]: the
    release has cleared [self._lastevent] and the move reads its [xdata]. *)
Theorem move_after_release_raises
  (s : State) (e1 e0 e2 : Event) (p : nat) :
  ev_inaxes e1 = true ->
  ev_button e1 = 1 ->
  ev_inaxes e0 = false ->
  ev_inaxes e2 = true ->
  ev_button e2 = 1 ->
  ipoly s = Some p ->
  button_press_callback (button_release_callback s e1) e0
  = ok (button_release_callback s e1)
  /\ mouse_move_callback (button_release_callback s e1) e2
     = raise AttributeError.
Proof.
  intros Hin1 Hb1 Hin0 Hin2 Hb2 Hp. split.
  - unfold button_press_callback. now rewrite Hin0.
  - assert (Hrel : button_release_callback s e1
                   = with_lastevent
                       (with_ivert
                          (unanimate
                             (with_background
                                (if add_vertex_flag s
                                 then with_add_vertex s false else s)
                                false))
                          None)
                       None).
    { unfold button_release_callback. rewrite Hin1, Hb1.
      cbn [negb Nat.eqb].
      destruct (add_vertex_flag s); fields; rewrite Hp;
        now destruct (ivert s). }
    rewrite Hrel. unfold mouse_move_callback. rewrite Hin2, Hb2.
    cbn [negb Nat.eqb].
    destruct (add_vertex_flag s) eqn:Ha; cbn -[Nat.min map_firstn];
      rewrite ?Ha, Hp; reflexivity.
Qed.

(** X3. With a polygon selected, no vertex selected and the editor not
    drawing, the delete command removes entry [p] of the polygon, line and
    density lists together: the entries before [p] stay where they are, the
    entries after it move up by one in all three lists, and the selection is
    cleared. *)
Theorem delete_selected_polygon (s : State) (p : nat) :
  drawing s = false ->
  ivert s = None ->
  ipoly s = Some p ->
  p < length (polygons s) ->
  p < length (lines s) ->
  p < length (densities s) ->
  exists s',
    delete_polygon s = ok s'
    /\ polygons s' = firstn p (polygons s) ++ skipn (S p) (polygons s)
    /\ lines s' = firstn p (lines s) ++ skipn (S p) (lines s)
    /\ densities s' = firstn p (densities s) ++ skipn (S p) (densities s)
    /\ (forall j, j < p ->
          nth_error (polygons s') j = nth_error (polygons s) j
          /\ nth_error (lines s') j = nth_error (lines s) j
          /\ nth_error (densities s') j = nth_error (densities s) j)
    /\ (forall j, p <= j ->
          nth_error (polygons s') j = nth_error (polygons s) (S j)
          /\ nth_error (lines s') j = nth_error (lines s) (S j)
          /\ nth_error (densities s') j = nth_error (densities s) (S j))
    /\ ipoly s' = None
    /\ ivert s' = None
    /\ drawing s' = false
    /\ density s' = density s.
Proof.
  intros Hd Hv Hp Lp Ll Ld.
  destruct (pop_at_lt (polygons s) p Lp) as (ps & Hps & Eps & _).
  destruct (pop_at_lt (lines s) p Ll) as (ls & Hls & Els & _).
  destruct (pop_at_lt (densities s) p Ld) as (ds & Hds & Eds & _).
  destruct (nth_error_removed (polygons s) p Lp) as (_ & Bp & Ap).
  destruct (nth_error_removed (lines s) p Ll) as (_ & Bl & Al).
  destruct (nth_error_removed (densities s) p Ld) as (_ & Bd & Ad).
  unfold delete_polygon. rewrite Hd, Hv, Hp, Hps. cbn [bind ok].
  rewrite Hls. cbn [bind ok]. rewrite Hds. cbn [bind ok].
  eexists. split; [reflexivity |]. fields. subst ps ls ds.
  repeat split; auto.
Qed.

(** X5. While drawing, a primary click on the model axes followed by the
    delete command gives back exactly the state before the click: the delete
    command takes the clicked point off the buffer and touches nothing
    else. *)
Theorem click_then_delete_restores
  (s : State) (e : Event) (buf : list point) :
  ev_inaxes e = true ->
  ev_button e = 1 ->
  drawing s = true ->
  xy_buf s = Some buf ->
  exists s1,
    button_press_callback s e = ok s1
    /\ xy_buf s1 = Some (buf ++ [data_coords e])
    /\ delete_polygon s1 = ok s.
Proof.
  intros Hin Hb Hd Hbuf. unfold button_press_callback.
  rewrite Hin, Hb, Hd, Hbuf. cbn [negb andb Nat.eqb].
  eexists. split; [reflexivity |]. split; [reflexivity |].
  unfold delete_polygon. fields. rewrite Hd.
  destruct (buf ++ [(ev_xdata e, ev_ydata e)]) as [| b t] eqn:E.
  { destruct buf; discriminate. }
  cbv beta iota. rewrite <- E, removelast_last.
  destruct s; cbn in *. subst. reflexivity.
Qed.

(** [Polygon.set_xy] always leaves a closed ring. *)
Lemma close_ring_is_closed (v : list point) :
  v <> [] -> ring_closed (close_ring v).
Proof.
  intros Hne. destruct v as [| q [| r t]]; [congruence | |].
  { unfold close_ring. split; [discriminate | reflexivity]. }
  unfold close_ring.
  destruct (point_eq_dec q (last (q :: r :: t) q)) as [E | _].
  - split; [discriminate |].
    rewrite (last_nth_error (q :: r :: t) q) by discriminate.
    cbn [nth_error]. congruence.
  - split; [discriminate |].
    assert (E : length ((q :: r :: t) ++ [q]) - 1 = length (q :: r :: t)).
    { rewrite length_app. cbn [length]. lia. }
    rewrite E. change (nth_error ((q :: r :: t) ++ [q]) 0) with (Some q).
    rewrite (nth_error_app2 (q :: r :: t) [q]) by apply Nat.le_refl.
    now rewrite Nat.sub_diag.
Qed.

Lemma close_ring_open (v : list point) (q : point) :
  nth_error v 0 = Some q ->
  nth_error v 0 <> nth_error v (length v - 1) ->
  close_ring v = v ++ [q].
Proof.
  intros H0 Hne. destruct v as [| a [| r t]]; [discriminate | |].
  { exfalso. apply Hne. reflexivity. }
  cbn [nth_error] in H0. inversion H0; subst a.
  unfold close_ring.
  destruct (point_eq_dec q (last (q :: r :: t) q)) as [E | _];
    [| reflexivity].
  exfalso. apply Hne.
  rewrite (last_nth_error (q :: r :: t) q) by discriminate.
  cbn [nth_error]. congruence.
Qed.

(** X6. On a vertex array of at least two rows [_add_new_vertex] returns the
    same rows in the same order with the event's point put in at one
    position [k] between 1 and the last row: taking row [k] out again gives
    the array back, row 0 and the last row are what they were, and a closed
    ring stays closed. *)
Theorem add_new_vertex_keeps_rows (v : list point) (e : Event) :
  2 <= length v ->
  exists k rows,
    add_new_vertex v e = ok rows
    /\ 1 <= k <= length v - 1
    /\ length rows = S (length v)
    /\ nth_error rows k = Some (data_coords e)
    /\ firstn k rows ++ skipn (S k) rows = v
    /\ nth_error rows 0 = nth_error v 0
    /\ nth_error rows (length rows - 1) = nth_error v (length v - 1)
    /\ (ring_closed v -> ring_closed rows).
Proof.
  intros H. destruct (add_new_vertex_total v e H) as (a & _ & Ha & Hadd).
  set (k := a + 1) in *. set (pt := (ev_xdata e, ev_ydata e)) in *.
  exists k, (firstn k v ++ pt :: skipn k v).
  assert (Hk : 1 <= k <= length v - 1) by (unfold k; lia).
  assert (Hf : length (firstn k v) = k) by (rewrite length_firstn; lia).
  assert (Hlen : length (firstn k v ++ pt :: skipn k v) = S (length v))
    by apply inserted_length.
  assert (H0 : nth_error (firstn k v ++ pt :: skipn k v) 0 = nth_error v 0).
  { rewrite nth_error_app1 by lia. rewrite nth_error_firstn.
    destruct (Nat.ltb_spec 0 k); [reflexivity | lia]. }
  assert (Hlast : nth_error (firstn k v ++ pt :: skipn k v)
                    (length (firstn k v ++ pt :: skipn k v) - 1)
                  = nth_error v (length v - 1)).
  { rewrite Hlen. replace (S (length v) - 1) with (length v) by lia.
    rewrite nth_error_app2 by lia. rewrite Hf.
    destruct (length v - k) as [| r] eqn:Er; [lia |].
    cbn [nth_error]. rewrite nth_error_skipn. f_equal. lia. }
  split; [assumption |]. split; [assumption |]. split; [assumption |].
  split.
  { rewrite nth_error_app2 by lia. now rewrite Hf, Nat.sub_diag. }
  split.
  { rewrite firstn_app, Hf, Nat.sub_diag, firstn_O, app_nil_r.
    rewrite firstn_firstn, Nat.min_id.
    rewrite skipn_app, Hf. rewrite skipn_all2 by lia.
    replace (S k - k) with 1 by lia. cbn [skipn app].
    apply firstn_skipn. }
  split; [assumption |]. split; [assumption |].
  intros [Hne Hc]. split.
  - intros E. apply (f_equal (@length point)) in E. rewrite Hlen in E.
    discriminate.
  - rewrite H0, Hlast. exact Hc.
Qed.

Lemma drop_indices_skip_low {A : Type} (x : nat) (vs : list nat) (i : nat) (l : list A) :
  x < i -> drop_indices (x :: vs) i l = drop_indices vs i l.
Proof.
  revert i. induction l as [| a t IH]; intros i H; cbn [drop_indices existsb];
    [reflexivity |].
  destruct (Nat.eqb_spec i x) as [E | _]; [lia |]. cbn [orb].
  rewrite (IH (S i)) by lia. reflexivity.
Qed.

(** Dropping row 0 and the last row leaves the rows in between. *)
Lemma drop_seam_rows {A : Type} (l : list A) :
  2 <= length l ->
  drop_indices [0; length l - 1] 0 l = removelast (tl l).
Proof.
  intros H. destruct l as [| a t]; [simpl in H; lia |].
  cbn [length] in *. cbn [drop_indices existsb Nat.eqb orb tl].
  rewrite drop_indices_skip_low by lia.
  rewrite drop_indices_single by lia.
  replace (S (length t) - 1 - 1) with (length t - 1) by lia.
  replace (S (length t - 1)) with (length t) by lia.
  rewrite skipn_all, app_nil_r. rewrite removelast_firstn_len.
  f_equal. lia.
Qed.

(** X4. With the seam pair selected in a polygon of at least five rows, the
    delete command drops row 0 and the last row and closes the ring again:
    the polygon gets the rows in between, followed, unless they already end
    with their first row, by a copy of old row 1, which becomes the new seam.
    In that case the array has one row less than before.  The other
    polygons, the densities and the selected polygon stay; the vertex is
    deselected. *)
Theorem delete_seam_vertex
  (s : State) (p : nat) (poly : Polygon) (line : Line2D) :
  drawing s = false ->
  ipoly s = Some p ->
  nth_error (polygons s) p = Some poly ->
  nth_error (lines s) p = Some line ->
  5 <= length (xy poly) ->
  ivert s = Some (VPair 0 (length (xy poly) - 1)) ->
  exists s' poly',
    delete_polygon s = ok s'
    /\ nth_error (polygons s') p = Some poly'
    /\ xy poly' = close_ring (removelast (tl (xy poly)))
    /\ ring_closed (xy poly')
    /\ (nth_error (xy poly) 1 <> nth_error (xy poly) (length (xy poly) - 2) ->
        xy poly' = removelast (tl (xy poly)) ++ firstn 1 (tl (xy poly))
        /\ S (length (xy poly')) = length (xy poly))
    /\ (forall q, q <> p -> nth_error (polygons s') q = nth_error (polygons s) q)
    /\ densities s' = densities s
    /\ ipoly s' = Some p
    /\ ivert s' = None.
Proof.
  intros Hd Hp Hpoly Hline H5 Hv.
  set (mid := removelast (tl (xy poly))).
  assert (Hmid : length mid = length (xy poly) - 2).
  { unfold mid. rewrite removelast_length.
    destruct (xy poly); cbn [tl length]; lia. }
  assert (Hdrop : drop_indices [0; length (xy poly) - 1] 0 (xy poly) = mid).
  { apply drop_seam_rows. lia. }
  assert (Hnth : forall j, j < length mid ->
                           nth_error mid j = nth_error (xy poly) (S j)).
  { intros j Hj. unfold mid. rewrite removelast_firstn_len.
    rewrite nth_error_firstn.
    replace (pred (length (tl (xy poly)))) with (length mid)
      by (rewrite Hmid; destruct (xy poly); cbn [tl length]; lia).
    apply Nat.ltb_lt in Hj. rewrite Hj.
    destruct (xy poly); [simpl in H5; lia | reflexivity]. }
  destruct (setitem_lt (polygons s) p (set_xy mid poly))
    as (ps & Hps & _ & Nps & Ops).
  { apply nth_error_Some. congruence. }
  destruct (update_at_some (l_set_data (xy (set_xy mid poly))) _ _ _ Hline)
    as (ls & Hls & _).
  unfold delete_polygon. rewrite Hd, Hv, Hp.
  cbn [the_index bind ok vref_indices].
  pose proof Hpoly as Gp. pose proof Hline as Gl.
  apply getitem_some in Gp, Gl. rewrite Gp. cbn [bind ok].
  rewrite Gl. cbn [bind ok].
  replace (4 <? length (xy poly)) with true by (symmetry; apply Nat.ltb_lt; lia).
  rewrite Hdrop, Hps. cbn [bind ok]. rewrite Hls. cbn [bind ok].
  eexists. exists (set_xy mid poly). split; [reflexivity |]. fields.
  unfold set_xy at 2 3 4 5. cbn [xy set_xy_raw].
  split; [assumption |]. split; [reflexivity |].
  split.
  { apply close_ring_is_closed. intros E. rewrite E in Hmid. simpl in Hmid. lia. }
  split; [| repeat split; auto].
  intros Hopen.
  assert (Hrow1 : exists q, nth_error (xy poly) 1 = Some q).
  { destruct (nth_error (xy poly) 1) as [q |] eqn:E; [now exists q |].
    apply nth_error_None in E. lia. }
  destruct Hrow1 as (q & Hq).
  assert (Hc : close_ring mid = mid ++ [q]).
  { apply close_ring_open.
    - rewrite Hnth by lia. exact Hq.
    - rewrite !Hnth by lia. rewrite Hmid.
      replace (S (length (xy poly) - 2 - 1)) with (length (xy poly) - 2) by lia.
      exact Hopen. }
  rewrite Hc. split.
  - f_equal. destruct (xy poly) as [| a [| b t]]; cbn in Hq; try discriminate.
    inversion Hq. reflexivity.
  - rewrite length_app. cbn [length]. lia.
Qed.

Lemma amax_aux_spec (l : list R) (b : R) :
  (b <= amax_aux l b)%R /\ (forall x, In x l -> (x <= amax_aux l b)%R).
Proof.
  revert b. induction l as [| x t IH]; intros b; cbn [amax_aux].
  - split; [lra | intros x []].
  - destruct (Rgt_dec x b) as [Hgt | Hle].
    + destruct (IH x) as [Hb Hall]. split; [lra |].
      intros y [<- | Hy]; [assumption | now apply Hall].
    + destruct (IH b) as [Hb Hall]. split; [assumption |].
      intros y [<- | Hy]; [lra | now apply Hall].
Qed.

(** X9. [_update_data_plot] fails with [ValueError] on an empty array of
    predicted values.  On a non-empty one, with data bounds [dmin <= 0 <=
    dmax] (both are 0 as [__init__] sets them), the y-limits it computes
    contain zero and every predicted value, so the curve is never cut
    off. *)
Theorem data_ylim_encloses (predicted : list R) (dmin dmax : R) :
  data_ylim [] dmin dmax = raise ValueError
  /\ (predicted <> [] ->
      (dmin <= 0)%R ->
      (0 <= dmax)%R ->
      exists lo hi,
        data_ylim predicted dmin dmax = ok (lo, hi)
        /\ (lo <= 0 <= hi)%R
        /\ (forall x, In x predicted -> (lo <= x <= hi)%R)).
Proof.
  split; [reflexivity |].
  intros Hne Hmin Hmax. destruct predicted as [| x t]; [congruence |].
  unfold data_ylim. cbn [amin amax bind ok].
  destruct (argmin_aux_spec t 1 0 x ltac:(lia)) as (Hlo & Hlo_all & _).
  destruct (amax_aux_spec t x) as (Hhi & Hhi_all).
  set (lo := amin_aux t x) in *. set (hi := amax_aux t x) in *.
  eexists. eexists. split; [reflexivity |].
  pose proof (Rmin_l lo dmin). pose proof (Rmin_r lo dmin).
  pose proof (Rmax_l hi dmax). pose proof (Rmax_r hi dmax).
  split; [lra |].
  intros y [<- | Hy].
  - lra.
  - specialize (Hlo_all y Hy). specialize (Hhi_all y Hy). lra.
Qed.

(** ** What is drawn agrees with what is stored *)

Lemma update_at_map {A B : Type} (g : A -> B) (h : B -> B)
  (l l' : list A) (i : nat) (f : A -> A) :
  update_at l i f = ok l' ->
  (forall a, nth_error l i = Some a -> g (f a) = h (g a)) ->
  update_at (map g l) i h = ok (map g l').
Proof.
  revert i l'. induction l as [| a t IH]; intros [| i] l' H Hf;
    cbn [update_at] in H; try discriminate.
  - apply ok_inj in H. subst l'. cbn [map update_at].
    now rewrite (Hf a eq_refl).
  - destruct (update_at t i f) as [? | t'] eqn:E; cbn [bind] in H;
      [discriminate |].
    apply ok_inj in H. subst l'. cbn [map update_at].
    rewrite (IH i t' E); [reflexivity |].
    intros b Hb. now apply Hf.
Qed.

Lemma update_at_map_same {A B : Type} (g : A -> B)
  (l l' : list A) (i : nat) (f : A -> A) :
  update_at l i f = ok l' ->
  (forall a, nth_error l i = Some a -> g (f a) = g a) ->
  map g l' = map g l.
Proof.
  revert i l'. induction l as [| a t IH]; intros [| i] l' H Hf;
    cbn [update_at] in H; try discriminate.
  - apply ok_inj in H. subst l'. cbn [map]. now rewrite (Hf a eq_refl).
  - destruct (update_at t i f) as [? | t'] eqn:E; cbn [bind] in H;
      [discriminate |].
    apply ok_inj in H. subst l'. cbn [map]. f_equal.
    apply (IH i); [exact E |]. intros b Hb. now apply Hf.
Qed.

Lemma pop_at_map {A B : Type} (g : A -> B) (l l' : list A) (i : nat) :
  pop_at l i = ok l' -> pop_at (map g l) i = ok (map g l').
Proof.
  revert i l'. induction l as [| a t IH]; intros [| i] l' H;
    cbn [pop_at] in H; try discriminate.
  - apply ok_inj in H. now subst l'.
  - destruct (pop_at t i) as [? | t'] eqn:E; cbn [bind] in H;
      [discriminate |].
    apply ok_inj in H. subst l'. cbn [map pop_at].
    now rewrite (IH i t' E).
Qed.

Lemma map_map_firstn {A B : Type} (g : A -> B) (f : A -> A)
  (n : nat) (l : list A) :
  (forall a, g (f a) = g a) -> map g (map_firstn n f l) = map g l.
Proof.
  intros Hf. unfold map_firstn. rewrite map_app, map_map.
  rewrite (map_ext (fun a => g (f a)) g Hf), <- map_app.
  now rewrite firstn_skipn.
Qed.

Lemma replaced_by_same {A : Type} (l : list A) (i : nat) (a : A) :
  nth_error l i = Some a -> firstn i l ++ a :: skipn (S i) l = l.
Proof.
  revert i. induction l as [| b t IH]; intros [| i] H; cbn [nth_error] in H;
    try discriminate.
  - inversion H. reflexivity.
  - cbn [firstn skipn app]. f_equal. now apply IH.
Qed.

(** States with the same display data and the same densities. *)
Lemma display_consistent_transfer (s s' : State) :
  display_consistent s ->
  map p_color (polygons s') = map p_color (polygons s) ->
  map xy (polygons s') = map xy (polygons s) ->
  map l_data (lines s') = map l_data (lines s) ->
  densities s' = densities s ->
  display_consistent s'.
Proof.
  intros [Hc Ho] Ec Ex El Ed. split; congruence.
Qed.

Lemma display_unhighlight (s : State) :
  display_consistent s -> display_consistent (unhighlight s).
Proof.
  intros H. apply (display_consistent_transfer s); auto;
    cbn -[Nat.min map_firstn]; now apply map_map_firstn.
Qed.

Lemma display_unanimate (s : State) :
  display_consistent s -> display_consistent (unanimate s).
Proof.
  intros H. apply (display_consistent_transfer s); auto;
    cbn -[Nat.min map_firstn]; now apply map_map_firstn.
Qed.

Lemma display_button_release (s : State) (e : Event) :
  display_consistent s -> display_consistent (button_release_callback s e).
Proof.
  intros H. unfold button_release_callback.
  destruct (negb (ev_inaxes e)); [assumption |].
  destruct (negb (ev_button e =? 1)); [assumption |].
  assert (H1 : display_consistent
                 (if add_vertex_flag s then with_add_vertex s false else s)).
  { destruct (add_vertex_flag s); [| assumption].
    apply (display_consistent_transfer s); auto. }
  set (s1 := if add_vertex_flag s then with_add_vertex s false else s) in *.
  destruct (ivert s1), (ipoly s1); try assumption;
    apply (display_consistent_transfer (unanimate s1));
    auto using display_unanimate.
Qed.

Lemma display_set_density (s s' : State) (value : R) :
  display_consistent s -> set_density s value = ok s' ->
  display_consistent s'.
Proof.
  intros [Hc Ho]. unfold set_density. fields.
  destruct (ipoly s) as [p |].
  - unfold setitem.
    destruct (update_at (densities s) p _) as [? | ds] eqn:Eds; cbn [bind];
      [discriminate |].
    destruct (update_at (polygons s) p _) as [? | ps] eqn:Eps; cbn [bind];
      [discriminate |].
    intros Hs. apply ok_inj in Hs. subst s'. split; fields.
    + pose proof (update_at_map p_color (fun _ => value) _ _ _ _ Eps
                    ltac:(reflexivity)) as Hm.
      rewrite Hc, Eds in Hm. now apply ok_inj in Hm.
    + rewrite Ho. symmetry.
      eapply update_at_map_same; [exact Eps | reflexivity].
  - intros Hs. apply ok_inj in Hs. subst s'. split; assumption.
Qed.

(** The polygon and its outline receive the same rows. *)
Lemma display_rows_written
  (s : State) (p : nat) (rows : list point)
  (f : Polygon -> Polygon) (ps : list Polygon) (ls : list Line2D) :
  display_consistent s ->
  (forall q, xy (f q) = rows /\ p_color (f q) = p_color q) ->
  update_at (polygons s) p f = ok ps ->
  update_at (lines s) p (l_set_data rows) = ok ls ->
  map p_color ps = densities s /\ map l_data ls = map xy ps.
Proof.
  intros [Hc Ho] Hf Eps Els. split.
  - rewrite <- Hc. eapply update_at_map_same; [exact Eps |].
    intros a _. apply Hf.
  - pose proof (update_at_map xy (fun _ => rows) _ _ _ _ Eps
                  ltac:(intros a _; apply Hf)) as Hp.
    pose proof (update_at_map l_data (fun _ => rows) _ _ _ _ Els
                  ltac:(reflexivity)) as Hl.
    rewrite Ho, Hp in Hl. now apply ok_inj in Hl.
Qed.

Lemma display_mouse_move (s s' : State) (e : Event) :
  display_consistent s -> mouse_move_callback s e = ok s' ->
  display_consistent s'.
Proof.
  intros H. unfold mouse_move_callback.
  destruct (negb (ev_inaxes e)); [intros Hs; apply ok_inj in Hs; now subst |].
  destruct (negb (ev_button e =? 1));
    [intros Hs; apply ok_inj in Hs; now subst |].
  assert (Hbody :
    forall rows p,
      (ps <- update_at (polygons s) p (set_xy_raw rows) ;;
       ls <- update_at (lines s) p (l_set_data rows) ;;
       ok (with_lastevent (with_lines (with_polygons s ps) ls) (Some e)))
      = ok s' ->
      display_consistent s').
  { intros rows p.
    destruct (update_at (polygons s) p _) as [? | ps] eqn:Eps; cbn [bind];
      [discriminate |].
    destruct (update_at (lines s) p _) as [? | ls] eqn:Els; cbn [bind];
      [discriminate |].
    intros Hs. apply ok_inj in Hs. subst s'.
    destruct (display_rows_written s p rows (set_xy_raw rows) ps ls H)
      as [Hc Ho]; auto.
    split; fields; assumption. }
  destruct (ivert s) as [v |].
  - destruct (add_vertex_flag s); [intros Hs; apply ok_inj in Hs; now subst |].
    destruct (the_index (ipoly s)) as [? | p]; cbn [bind]; [discriminate |].
    destruct (getitem (polygons s) p) as [? | poly]; cbn [bind];
      [discriminate |].
    destruct (assign_rows v _ (xy poly)) as [? | rows]; cbn [bind];
      [discriminate |].
    apply Hbody.
  - destruct (ipoly s) as [p |]; [| intros Hs; apply ok_inj in Hs; now subst].
    destruct (add_vertex_flag s); [intros Hs; apply ok_inj in Hs; now subst |].
    destruct (lastevent s) as [le |]; [| discriminate].
    cbn [the_index bind ok].
    destruct (getitem (polygons s) p) as [? | poly]; cbn [bind];
      [discriminate |].
    apply Hbody.
Qed.

Lemma display_delete_polygon (s s' : State) :
  display_consistent s -> delete_polygon s = ok s' -> display_consistent s'.
Proof.
  intros H. unfold delete_polygon.
  assert (Hrest :
    match ivert s with
    | Some v =>
        p <- the_index (ipoly s) ;;
        poly <- getitem (polygons s) p ;;
        _ <- getitem (lines s) p ;;
        if 4 <? length (xy poly) then
          let poly' := set_xy (drop_indices (vref_indices v) 0 (xy poly)) poly in
          ps <- setitem (polygons s) p poly' ;;
          ls <- update_at (lines s) p (l_set_data (xy poly')) ;;
          ok (with_ivert (with_lines (with_polygons s ps) ls) None)
        else ok s
    | None =>
        match ipoly s with
        | Some p =>
            ps <- pop_at (polygons s) p ;;
            ls <- pop_at (lines s) p ;;
            ds <- pop_at (densities s) p ;;
            ok (with_ipoly
                  (with_densities (with_lines (with_polygons s ps) ls) ds)
                  None)
        | None => ok s
        end
    end = ok s' -> display_consistent s').
  { destruct (ivert s) as [v |].
    - destruct (the_index (ipoly s)) as [? | p]; cbn [bind]; [discriminate |].
      destruct (getitem (polygons s) p) as [? | poly] eqn:Epoly; cbn [bind];
        [discriminate |].
      destruct (getitem (lines s) p) as [? | line]; cbn [bind];
        [discriminate |].
      destruct (4 <? length (xy poly));
        [| intros Hs; apply ok_inj in Hs; now subst].
      cbn zeta. unfold setitem.
      set (poly' := set_xy (drop_indices (vref_indices v) 0 (xy poly)) poly).
      destruct (update_at (polygons s) p _) as [? | ps] eqn:Eps; cbn [bind];
        [discriminate |].
      destruct (update_at (lines s) p _) as [? | ls] eqn:Els; cbn [bind];
        [discriminate |].
      intros Hs. apply ok_inj in Hs. subst s'.
      apply getitem_some in Epoly. destruct H as [Hc Ho].
      split; fields.
      + rewrite <- Hc. eapply update_at_map_same; [exact Eps |].
        intros a Ha. rewrite Epoly in Ha. inversion Ha; subst a. reflexivity.
      + pose proof (update_at_map xy (fun _ => xy poly') _ _ _ _ Eps
                      ltac:(reflexivity)) as Hp.
        pose proof (update_at_map l_data (fun _ => xy poly') _ _ _ _ Els
                      ltac:(reflexivity)) as Hl.
        rewrite Ho, Hp in Hl. now apply ok_inj in Hl.
    - destruct (ipoly s) as [p |]; [| intros Hs; apply ok_inj in Hs; now subst].
      destruct (pop_at (polygons s) p) as [? | ps] eqn:Eps; cbn [bind];
        [discriminate |].
      destruct (pop_at (lines s) p) as [? | ls] eqn:Els; cbn [bind];
        [discriminate |].
      destruct (pop_at (densities s) p) as [? | ds] eqn:Eds; cbn [bind];
        [discriminate |].
      intros Hs. apply ok_inj in Hs. subst s'. destruct H as [Hc Ho].
      split; fields.
      + pose proof (pop_at_map p_color _ _ _ Eps) as Hm.
        rewrite Hc, Eds in Hm. now apply ok_inj in Hm.
      + pose proof (pop_at_map xy _ _ _ Eps) as Hp.
        pose proof (pop_at_map l_data _ _ _ Els) as Hl.
        rewrite Ho, Hp in Hl. now apply ok_inj in Hl. }
  destruct (drawing s); [| exact Hrest].
  destruct (xy_buf s) as [[| b buf] |]; try exact Hrest.
  intros Hs. apply ok_inj in Hs. subst s'.
  apply (display_consistent_transfer s); auto.
Qed.

Lemma display_button_press (s s' : State) (e : Event) :
  display_consistent s -> button_press_callback s e = ok s' ->
  display_consistent s'.
Proof.
  intros H. unfold button_press_callback.
  destruct (negb (ev_inaxes e)); [intros Hs; apply ok_inj in Hs; now subst |].
  destruct ((ev_button e =? 1) && negb (drawing s)
            && negb (length (polygons s) =? 0)).
  - cbn [add_vertex_flag with_lastevent].
    destruct (add_vertex_flag s); cbn [negb].
    + (* armed *)
      cbn [ipoly polygons lines densities with_lastevent].
      destruct (ipoly s) as [p |];
        [| intros Hs; apply ok_inj in Hs; subst s';
           apply (display_consistent_transfer s); auto].
      destruct (getitem (polygons s) p) as [? | old]; cbn [bind];
        [discriminate |].
      destruct (add_new_vertex (xy old) e) as [? | vertices]; cbn [bind];
        [discriminate |].
      destruct (getitem (densities s) p) as [? | d] eqn:Ed; cbn [bind];
        [discriminate |].
      destruct (getitem (lines s) p) as [? | line]; cbn [bind];
        [discriminate |].
      destruct (pop_at (polygons s) p) as [? | ps] eqn:Eps; cbn [bind];
        [discriminate |].
      destruct (pop_at (lines s) p) as [? | ls] eqn:Els; cbn [bind];
        [discriminate |].
      apply pop_at_inv in Eps as (Hpl & -> & _).
      apply pop_at_inv in Els as (Hll & -> & _).
      rewrite !insert_after_pop by assumption.
      destruct (update_at _ p (l_set_color Green)) as [? | ls'] eqn:Els';
        cbn [bind]; [discriminate |].
      intros Hs. apply ok_inj in Hs. subst s'.
      apply getitem_some in Ed. destruct H as [Hc Ho].
      split; fields.
      * rewrite map_app. cbn [map fst make_polygon p_color].
        rewrite <- firstn_map, <- skipn_map, Hc.
        now apply replaced_by_same.
      * rewrite (update_at_map_same l_data _ _ _ _ Els')
          by reflexivity.
        rewrite !map_app. cbn [map fst snd make_polygon l_data xy].
        rewrite <- !firstn_map, <- !skipn_map, Ho. reflexivity.
    + (* hit-test *)
      pose proof (display_unhighlight (with_lastevent s (Some e))
                    ltac:(apply (display_consistent_transfer s); auto)) as Hu.
      set (u := unhighlight (with_lastevent s (Some e))) in *.
      destruct (get_polygon_vertice_id _ e) as [? | r]; cbn [bind];
        [discriminate |].
      fields. destruct (fst r) as [p |].
      * destruct (getitem (densities u) p) as [? | d]; cbn [bind];
          [discriminate |].
        destruct (update_at (polygons u) p _) as [? | ps] eqn:Eps; cbn [bind];
          [discriminate |].
        destruct (update_at (lines u) p _) as [? | ls] eqn:Els; cbn [bind];
          [discriminate |].
        intros Hs. apply ok_inj in Hs. subst s'.
        apply (display_consistent_transfer u); auto; fields.
        -- eapply update_at_map_same; [exact Eps | reflexivity].
        -- eapply update_at_map_same; [exact Eps | reflexivity].
        -- eapply update_at_map_same; [exact Els | reflexivity].
      * intros Hs. apply ok_inj in Hs. subst s'.
        apply (display_consistent_transfer u); auto.
  - destruct (drawing s); [| intros Hs; apply ok_inj in Hs; now subst].
    destruct (ev_button e =? 1).
    + destruct (xy_buf s) as [buf |]; [| discriminate].
      intros Hs. apply ok_inj in Hs. subst s'.
      apply (display_consistent_transfer s); auto.
    + destruct (ev_button e =? 3);
        [| intros Hs; apply ok_inj in Hs; now subst].
      destruct (xy_buf s) as [buf |]; [| discriminate].
      destruct (3 <=? length buf);
        [| intros Hs; apply ok_inj in Hs; now subst].
      cbn zeta.
      destruct (update_at _ _ (l_set_color Green)) as [? | ls] eqn:Els;
        cbn [bind]; [discriminate |].
      intros Hs. apply ok_inj in Hs. subst s'. destruct H as [Hc Ho].
      split; fields.
      * rewrite map_app, Hc. reflexivity.
      * rewrite (update_at_map_same l_data _ _ _ _ Els) by reflexivity.
        rewrite !map_app, Ho. reflexivity.
Qed.

Lemma display_step (s s' : State) (i : Input) :
  display_consistent s -> step s i = ok s' -> display_consistent s'.
Proof.
  intros H. destruct i as [e | e | e | | | | | | value]; cbn [step];
    intros Hs; try (apply ok_inj in Hs; subst s').
  - eapply display_button_press; eauto.
  - now apply display_button_release.
  - eapply display_mouse_move; eauto.
  - eapply display_delete_polygon; eauto.
  - unfold new_polygon. apply (display_consistent_transfer
      (unhighlight (with_ipoly (with_ivert s None) None)));
      auto; apply display_unhighlight;
      apply (display_consistent_transfer s); auto.
  - unfold cancel_drawing. destruct (add_vertex_flag s).
    + apply (display_consistent_transfer s); auto.
    + apply display_unhighlight. apply (display_consistent_transfer s); auto.
  - assumption.
  - apply (display_consistent_transfer s); auto.
  - eapply display_set_density; eauto.
Qed.

(** X7. In every state the editor reaches, the face colour of each polygon
    is the colour of the density stored for it, and each outline has exactly
    the rows of its polygon: no callback updates one without the other. *)
Theorem display_stays_consistent (s : State) :
  reachable s ->
  map p_color (polygons s) = densities s
  /\ map l_data (lines s) = map xy (polygons s).
Proof.
  induction 1 as [| s i s' _ IH Hs].
  - split; reflexivity.
  - eapply display_step; eauto.
Qed.

(** ** The model and a drawing session *)

Lemma nth_error_combine {A B : Type} (l : list A) (l' : list B) (j : nat)
  (a : A) (b : B) :
  nth_error l j = Some a -> nth_error l' j = Some b ->
  nth_error (combine l l') j = Some (a, b).
Proof.
  revert l' j. induction l as [| x t IH]; intros [| y t'] [| j] Ha Hb;
    cbn [nth_error combine] in *; try discriminate.
  - congruence.
  - now apply IH.
Qed.

(** X8. In every state the editor reaches the density list is as long as
    the polygon list, so the [zip] of [model] drops nothing: the model has one
    entry per polygon, entry [j] made of the rows of polygon [j] and of
    density [j], and every polygon has at least three rows. *)
Theorem model_pairs_every_polygon (s : State) :
  reachable s ->
  length (model s) = length (polygons s)
  /\ length (densities s) = length (polygons s)
  /\ (forall j poly,
        nth_error (polygons s) j = Some poly ->
        3 <= length (xy poly)
        /\ exists d,
             nth_error (densities s) j = Some d
             /\ nth_error (model s) j = Some (xy poly, d)).
Proof.
  intros Hr. pose proof (reachable_wf s Hr) as H.
  pose proof (wf_densities s H) as Hd.
  split; [| split; [assumption |]].
  - unfold model. rewrite length_map, length_combine. lia.
  - intros j poly Hpoly. split.
    + pose proof (wf_rows s H) as Hrows. apply row_counts_Forall in Hrows.
      rewrite Forall_forall in Hrows. apply (Hrows poly).
      eapply nth_error_In; eauto.
    + assert (Hj : j < length (densities s)).
      { rewrite Hd. apply nth_error_Some. congruence. }
      destruct (getitem_lt (densities s) j Hj) as (d & _ & Hdj).
      exists d. split; [assumption |].
      unfold model. rewrite nth_error_map.
      rewrite (nth_error_combine _ _ _ _ _ Hpoly Hdj). reflexivity.
Qed.

Lemma run_app (l1 l2 : list Input) (s : State) :
  run s (l1 ++ l2) = (s' <- run s l1 ;; run s' l2).
Proof.
  revert s. induction l1 as [| i t IH]; intros s; cbn [app run bind ok];
    [reflexivity |].
  destruct (step s i) as [? | s1]; cbn [bind]; [reflexivity | apply IH].
Qed.

Lemma with_xy_buf_twice (s : State) (a b : option (list point)) :
  with_xy_buf (with_xy_buf s a) b = with_xy_buf s b.
Proof. reflexivity. Qed.

Lemma with_xy_buf_same (s : State) (a : option (list point)) :
  xy_buf s = a -> with_xy_buf s a = s.
Proof. intros <-. now destruct s. Qed.

(** While drawing, primary clicks on the model axes go to the draw buffer,
    in the order they come, and touch nothing else. *)
Lemma clicks_fill_buffer (es : list Event) (s : State) (buf : list point) :
  Forall (fun e => ev_inaxes e = true /\ ev_button e = 1) es ->
  drawing s = true ->
  xy_buf s = Some buf ->
  run s (map Press es) = ok (with_xy_buf s (Some (buf ++ map data_coords es))).
Proof.
  revert s buf. induction es as [| e t IH]; intros s buf Hall Hd Hbuf;
    cbn [map run].
  - rewrite app_nil_r. now rewrite with_xy_buf_same.
  - inversion Hall as [| ? ? [Hin Hb] Ht]; subst.
    cbn [step]. unfold button_press_callback.
    rewrite Hin, Hb, Hd, Hbuf. cbn [negb andb Nat.eqb bind ok].
    rewrite (IH (with_xy_buf s (Some (buf ++ [(ev_xdata e, ev_ydata e)])))
               (buf ++ [(ev_xdata e, ev_ydata e)]) Ht Hd eq_refl).
    rewrite with_xy_buf_twice, <- app_assoc. reflexivity.
Qed.

Lemma map_firstn_all {A : Type} (n : nat) (f : A -> A) (l : list A) :
  length l <= n -> map_firstn n f l = map f l.
Proof.
  intros H. unfold map_firstn.
  rewrite firstn_all2, skipn_all2 by assumption. apply app_nil_r.
Qed.

(** X10. A drawing session.  From a state whose line list is as long as its
    polygon list, the new-polygon command, [n >= 3] primary clicks on the
    model axes and one secondary click there append one polygon: its rows are
    the clicked points in click order, closed by [Polygon.set_xy]; its density
    is the current density; it becomes the selected polygon, with no vertex
    selected, and the editor leaves drawing mode.  The rows and densities of
    the polygons already there are not changed. *)
Theorem drawing_session_appends_polygon
  (s : State) (es : list Event) (e3 : Event) :
  length (lines s) = length (polygons s) ->
  Forall (fun e => ev_inaxes e = true /\ ev_button e = 1) es ->
  3 <= length es ->
  ev_inaxes e3 = true ->
  ev_button e3 = 3 ->
  exists s',
    run s (KeyN :: map Press es ++ [Press e3]) = ok s'
    /\ polygons s'
       = map (p_set_animated false) (polygons s)
           ++ [mkPolygon (close_ring (map data_coords es)) false (density s)]
    /\ map xy (polygons s')
       = map xy (polygons s) ++ [close_ring (map data_coords es)]
    /\ densities s' = densities s ++ [density s]
    /\ length (lines s') = S (length (lines s))
    /\ ipoly s' = Some (length (polygons s))
    /\ ivert s' = None
    /\ drawing s' = false
    /\ xy_buf s' = None
    /\ density s' = density s.
Proof.
  intros Hlen Hall H3 Hin3 Hb3.
  change (KeyN :: map Press es ++ [Press e3])
    with ([KeyN] ++ (map Press es ++ [Press e3])).
  rewrite run_app. cbn [run step bind ok]. rewrite run_app.
  rewrite (clicks_fill_buffer es (new_polygon s) [] Hall eq_refl eq_refl).
  cbn [bind ok app run step].
  set (pts := map data_coords es).
  assert (Hpts : length pts = length es) by apply length_map.
  unfold button_press_callback. rewrite Hin3, Hb3.
  cbn [negb andb Nat.eqb]. fields.
  change (drawing (new_polygon s)) with true. cbv iota.
  replace (3 <=? length pts) with true
    by (symmetry; apply Nat.leb_le; lia).
  cbn zeta.
  set (n := new_polygon s).
  assert (Hup : polygons n = map (p_set_animated false) (polygons s)).
  { subst n. cbn -[Nat.min map_firstn]. apply map_firstn_all. lia. }
  assert (Hul : length (lines n) = length (lines s)).
  { subst n. cbn -[Nat.min map_firstn]. apply map_firstn_length. }
  assert (Hud : density n = density s) by reflexivity.
  assert (Hus : densities n = densities s) by reflexivity.
  assert (Huv : ivert n = None) by reflexivity.
  assert (Hnth :
    nth_error (lines n ++ [snd (make_polygon pts (density n))])
      (length (polygons n ++ [fst (make_polygon pts (density n))]) - 1)
    = Some (snd (make_polygon pts (density n)))).
  { rewrite length_app. cbn [length]. rewrite Hup, length_map.
    replace (length (polygons s) + 1 - 1) with (length (lines n)) by lia.
    rewrite nth_error_app2 by lia. now rewrite Nat.sub_diag. }
  destruct (update_at_some (l_set_color Green) _ _ _ Hnth)
    as (ls & Hls & Lls & _).
  rewrite Hls. cbn [bind ok]. eexists. split; [reflexivity |]. fields.
  rewrite Hup, Hud, Hus, Huv. cbn [make_polygon fst].
  split; [reflexivity |]. split.
  { rewrite map_app, map_map. cbn [map xy p_set_animated]. reflexivity. }
  split; [reflexivity |]. split.
  { rewrite Lls, length_app. cbn [length]. lia. }
  split.
  { rewrite length_app, length_map. cbn [length]. f_equal. lia. }
  repeat split; reflexivity.
Qed.

(** While nothing is selected, a primary release on the model axes only
    switches the add-vertex mode off. *)
Lemma release_nothing_selected (s : State) (e : Event) :
  ev_inaxes e = true -> ev_button e = 1 ->
  ivert s = None -> ipoly s = None ->
  button_release_callback s e = with_add_vertex s false.
Proof.
  intros Hin Hb Hv Hp. unfold button_release_callback.
  rewrite Hin, Hb. cbn [negb Nat.eqb].
  destruct (add_vertex_flag s) eqn:Ha; fields; rewrite Hv, Hp;
    [reflexivity |].
  destruct s. cbn in *. subst. reflexivity.
Qed.

(** While drawing, clicks on the model axes, each a press and a release,
    fill the draw buffer in order; the first release switches the add-vertex
    mode off. *)
Lemma full_clicks_fill_buffer (es : list Event) (s : State) (buf : list point) :
  Forall (fun e => ev_inaxes e = true /\ ev_button e = 1) es ->
  drawing s = true ->
  xy_buf s = Some buf ->
  ivert s = None ->
  ipoly s = None ->
  run s (flat_map click_events es)
  = ok (with_add_vertex
          (with_xy_buf s (Some (buf ++ map data_coords es)))
          (match es with [] => add_vertex_flag s | _ :: _ => false end)).
Proof.
  revert s buf. induction es as [| e t IH]; intros s buf Hall Hd Hbuf Hv Hp.
  - cbn [flat_map map run]. rewrite app_nil_r. f_equal.
    destruct s. cbn in *. subst. reflexivity.
  - inversion Hall as [| ? ? [Hin Hb] Ht]; subst.
    cbn [flat_map click_events app run step].
    unfold button_press_callback at 1.
    rewrite Hin, Hb, Hd, Hbuf. cbn [negb andb Nat.eqb bind ok].
    set (s1 := with_xy_buf s (Some (buf ++ [(ev_xdata e, ev_ydata e)]))).
    rewrite (release_nothing_selected s1 e Hin Hb Hv Hp).
    rewrite (IH (with_add_vertex s1 false)
               (buf ++ [(ev_xdata e, ev_ydata e)]) Ht Hd eq_refl Hv Hp).
    f_equal. subst s1. cbn [map]. rewrite <- app_assoc. cbn [app].
    unfold data_coords at 2. destruct t; reflexivity.
Qed.

(** X11. Abandoning a drawing.  After the new-polygon command and any number
    of clicks on the model axes with the primary button, each a press and a
    release, the cancel command ends the drawing: the buffer is emptied,
    nothing is selected, and the rows of the polygons and the densities are
    what they were before the session.  The one exception is a cancel that
    comes before the first click while the add-vertex mode is on: it only
    switches that mode off, and the editor is still drawing. *)
Theorem cancel_after_clicks (s : State) (es : list Event) :
  Forall (fun e => ev_inaxes e = true /\ ev_button e = 1) es ->
  exists s',
    run s (KeyN :: flat_map click_events es ++ [KeyEscape]) = ok s'
    /\ map xy (polygons s') = map xy (polygons s)
    /\ densities s' = densities s
    /\ ipoly s' = None
    /\ ivert s' = None
    /\ add_vertex_flag s' = false
    /\ xy_buf s' = Some []
    /\ (add_vertex_flag s = false \/ es <> [] -> drawing s' = false)
    /\ (add_vertex_flag s = true -> es = [] -> drawing s' = true).
Proof.
  intros Hall.
  change (KeyN :: flat_map click_events es ++ [KeyEscape])
    with ([KeyN] ++ (flat_map click_events es ++ [KeyEscape])).
  rewrite run_app. cbn [run step bind ok]. rewrite run_app.
  rewrite (full_clicks_fill_buffer es (new_polygon s) [] Hall
             eq_refl eq_refl eq_refl eq_refl).
  cbn [bind ok app run step].
  eexists. split; [reflexivity |].
  unfold cancel_drawing. fields.
  assert (Hux : map xy (polygons (new_polygon s)) = map xy (polygons s)).
  { unfold new_polygon. cbn -[Nat.min map_firstn]. now apply map_map_firstn. }
  assert (Hud : densities (new_polygon s) = densities s) by reflexivity.
  assert (Hun : add_vertex_flag (new_polygon s) = add_vertex_flag s)
    by reflexivity.
  assert (Hmm : forall n b, map xy (map_firstn n (p_set_animated b)
                                      (polygons (new_polygon s)))
                            = map xy (polygons s)).
  { intros n b. rewrite <- Hux. now apply map_map_firstn. }
  destruct es as [| e t].
  - rewrite Hun. cbn [map]. destruct (add_vertex_flag s) eqn:Ha.
    + fields. repeat split; try assumption; try reflexivity.
      intros [H | H]; [discriminate | congruence].
    + cbn -[Nat.min map_firstn new_polygon]. rewrite Hmm.
      repeat split; try reflexivity; try assumption. discriminate.
  - cbn -[Nat.min map_firstn new_polygon map]. rewrite Hmm.
    repeat split; try reflexivity; try assumption.
    intros _ H. discriminate.
Qed.

(** ** Only the selected polygon is highlighted *)

Lemma nth_error_map_firstn {A : Type} (n : nat) (f : A -> A) (l : list A)
  (j : nat) (y : A) :
  nth_error (map_firstn n f l) j = Some y ->
  exists x, nth_error l j = Some x /\ (y = f x \/ y = x).
Proof.
  unfold map_firstn. intros H.
  destruct (Nat.lt_ge_cases j (length (firstn n l))) as [Hlt | Hge].
  - rewrite nth_error_app1 in H by (now rewrite length_map).
    rewrite nth_error_map in H.
    destruct (nth_error (firstn n l) j) as [x |] eqn:E; [| discriminate].
    cbn [option_map] in H. inversion H; subst y. exists x. split; [| now left].
    rewrite nth_error_firstn in E.
    destruct (j <? n); [assumption | discriminate].
  - rewrite nth_error_app2 in H by (now rewrite length_map).
    rewrite length_map, nth_error_skipn in H. exists y. split; [| now right].
    rewrite length_firstn in *.
    destruct (Nat.le_gt_cases n (length l)) as [Hn | Hn].
    + rewrite <- H. f_equal. lia.
    + assert (Hnone : nth_error l (n + (j - Nat.min n (length l))) = None)
        by (apply nth_error_None; lia).
      congruence.
Qed.

Lemma nth_error_map_firstn_all {A : Type} (n : nat) (f : A -> A) (l : list A)
  (j : nat) (y : A) :
  length l <= n ->
  nth_error (map_firstn n f l) j = Some y ->
  exists x, nth_error l j = Some x /\ y = f x.
Proof.
  intros Hn. rewrite map_firstn_all by assumption. rewrite nth_error_map.
  destruct (nth_error l j) as [x |]; [| discriminate].
  cbn [option_map]. intros H. inversion H. now exists x.
Qed.

(** After the loop that takes the highlight off, nothing is highlighted,
    provided the two lists have one length. *)
Lemma quiet_unhighlight (s : State) (sel : option nat) :
  length (lines s) = length (polygons s) ->
  quiet sel (polygons (unhighlight s)) (lines (unhighlight s)).
Proof.
  intros Hlen j _. cbn -[Nat.min map_firstn]. split.
  - intros q Hq. apply nth_error_map_firstn_all in Hq as (x & _ & ->);
      [reflexivity | lia].
  - intros l Hl. apply nth_error_map_firstn_all in Hl as (x & _ & ->);
      [| lia].
    split; [reflexivity | discriminate].
Qed.

Lemma quiet_unanimate (s : State) (sel : option nat) :
  quiet sel (polygons s) (lines s) ->
  quiet sel (polygons (unanimate s)) (lines (unanimate s)).
Proof.
  intros H j Hj. destruct (H j Hj) as [Hp Hl].
  cbn -[Nat.min map_firstn]. split.
  - intros q Hq. apply nth_error_map_firstn in Hq as (x & Hx & [-> | ->]);
      [reflexivity | now apply Hp].
  - intros l Hq. apply nth_error_map_firstn in Hq as (x & Hx & [-> | ->]);
      [| now apply Hl].
    cbn [l_set_animated l_animated l_color]. split; [reflexivity |].
    now apply Hl.
Qed.

(** Lists that differ from quiet ones at position [p] only are quiet once
    [p] is the selection. *)
Lemma quiet_select
  (sel : option nat) (p : nat) (ps ps' : list Polygon) (ls ls' : list Line2D) :
  quiet sel ps ls ->
  sel = None \/ sel = Some p ->
  (forall j, j <> p -> nth_error ps' j = nth_error ps j) ->
  (forall j, j <> p -> nth_error ls' j = nth_error ls j) ->
  quiet (Some p) ps' ls'.
Proof.
  intros H Hsel Hps Hls j Hj.
  assert (Hne : j <> p) by congruence.
  rewrite Hps, Hls by assumption. apply H.
  destruct Hsel as [-> | ->]; [discriminate | assumption].
Qed.

Lemma quiet_weaken (sel : option nat) (ps : list Polygon) (ls : list Line2D) :
  quiet None ps ls -> quiet sel ps ls.
Proof. intros H j _. apply H. discriminate. Qed.

Lemma highlight_transfer (s s' : State) :
  highlight_ok s ->
  polygons s' = polygons s ->
  lines s' = lines s ->
  ipoly s' = ipoly s ->
  (drawing s' = true -> drawing s = true) ->
  highlight_ok s'.
Proof.
  intros [Hq Hd] Ep El Ei Ed. constructor.
  - now rewrite Ep, El, Ei.
  - intros H. rewrite Ei. auto.
Qed.

Lemma highlight_new_polygon (s : State) :
  wf s -> highlight_ok (new_polygon s).
Proof.
  intros Hwf. unfold new_polygon. constructor; fields; [| reflexivity].
  apply (quiet_unhighlight (with_ipoly (with_ivert s None) None)).
  exact (wf_lines s Hwf).
Qed.

Lemma highlight_cancel_drawing (s : State) :
  wf s -> highlight_ok s -> highlight_ok (cancel_drawing s).
Proof.
  intros Hwf H. unfold cancel_drawing. destruct (add_vertex_flag s).
  - apply (highlight_transfer s); auto.
  - constructor; fields; [| discriminate].
    apply (quiet_unhighlight (with_xy_buf (with_drawing s false) (Some []))).
    exact (wf_lines s Hwf).
Qed.

Lemma highlight_button_release (s : State) (e : Event) :
  highlight_ok s -> highlight_ok (button_release_callback s e).
Proof.
  intros H. unfold button_release_callback.
  destruct (negb (ev_inaxes e)); [assumption |].
  destruct (negb (ev_button e =? 1)); [assumption |].
  assert (H1 : highlight_ok
                 (if add_vertex_flag s then with_add_vertex s false else s)).
  { destruct (add_vertex_flag s); [| assumption].
    apply (highlight_transfer s); auto. }
  set (s1 := if add_vertex_flag s then with_add_vertex s false else s) in *.
  assert (H2 : highlight_ok
                 (with_lastevent
                    (with_ivert (unanimate (with_background s1 false)) None)
                    None)).
  { destruct H1 as [Hq Hd]. constructor; fields; [| exact Hd].
    now apply (quiet_unanimate (with_background s1 false)). }
  destruct (ivert s1), (ipoly s1); assumption.
Qed.

Lemma highlight_set_density (s s' : State) (value : R) :
  highlight_ok s -> set_density s value = ok s' -> highlight_ok s'.
Proof.
  intros [Hq Hd]. unfold set_density. fields.
  destruct (ipoly s) as [p |] eqn:Ep.
  - destruct (setitem (densities s) p value) as [? | ds]; cbn [bind];
      [discriminate |].
    destruct (update_at (polygons s) p _) as [? | ps] eqn:Eps; cbn [bind];
      [discriminate |].
    intros Hs. apply ok_inj in Hs. subst s'.
    apply update_at_inv in Eps as (a & Ha & _ & Hn & Ho).
    constructor; fields; rewrite Ep; [| exact Hd].
    intros j Hj. assert (Hne : j <> p) by congruence.
    rewrite Ho by assumption. now apply Hq.
  - intros Hs. apply ok_inj in Hs. subst s'.
    constructor; fields; rewrite Ep; assumption.
Qed.

Lemma highlight_mouse_move (s s' : State) (e : Event) :
  highlight_ok s -> mouse_move_callback s e = ok s' -> highlight_ok s'.
Proof.
  intros H. unfold mouse_move_callback.
  destruct (negb (ev_inaxes e)); [intros Hs; apply ok_inj in Hs; now subst |].
  destruct (negb (ev_button e =? 1));
    [intros Hs; apply ok_inj in Hs; now subst |].
  assert (Hbody :
    forall rows p,
      ipoly s = Some p ->
      (ps <- update_at (polygons s) p (set_xy_raw rows) ;;
       ls <- update_at (lines s) p (l_set_data rows) ;;
       ok (with_lastevent (with_lines (with_polygons s ps) ls) (Some e)))
      = ok s' ->
      highlight_ok s').
  { intros rows p Ep.
    destruct (update_at (polygons s) p _) as [? | ps] eqn:Eps; cbn [bind];
      [discriminate |].
    destruct (update_at (lines s) p _) as [? | ls] eqn:Els; cbn [bind];
      [discriminate |].
    intros Hs. apply ok_inj in Hs. subst s'.
    apply update_at_inv in Eps as (a & _ & _ & _ & Hop).
    apply update_at_inv in Els as (b & _ & _ & _ & Hol).
    destruct H as [Hq Hd]. constructor; fields; [| exact Hd].
    rewrite Ep. apply (quiet_select (ipoly s) p (polygons s) ps (lines s) ls);
      auto. }
  destruct (ivert s) as [v |].
  - destruct (add_vertex_flag s);
      [intros Hs; apply ok_inj in Hs; now subst |].
    destruct (the_index (ipoly s)) as [? | p] eqn:Ep; cbn [bind];
      [discriminate |].
    destruct (getitem (polygons s) p) as [? | poly]; cbn [bind];
      [discriminate |].
    destruct (assign_rows v _ (xy poly)) as [? | rows]; cbn [bind];
      [discriminate |].
    apply Hbody. destruct (ipoly s); [now inversion Ep | discriminate].
  - destruct (ipoly s) as [p |] eqn:Ep;
      [| intros Hs; apply ok_inj in Hs; now subst].
    destruct (add_vertex_flag s);
      [intros Hs; apply ok_inj in Hs; now subst |].
    destruct (lastevent s) as [le |]; cbn [bind]; [| discriminate].
    cbn [the_index bind ok].
    destruct (getitem (polygons s) p) as [? | poly]; cbn [bind];
      [discriminate |].
    now apply Hbody.
Qed.

Lemma highlight_delete_polygon (s s' : State) :
  highlight_ok s -> delete_polygon s = ok s' -> highlight_ok s'.
Proof.
  intros H. unfold delete_polygon.
  assert (Hrest :
    match ivert s with
    | Some v =>
        p <- the_index (ipoly s) ;;
        poly <- getitem (polygons s) p ;;
        _ <- getitem (lines s) p ;;
        if 4 <? length (xy poly) then
          let poly' := set_xy (drop_indices (vref_indices v) 0 (xy poly)) poly in
          ps <- setitem (polygons s) p poly' ;;
          ls <- update_at (lines s) p (l_set_data (xy poly')) ;;
          ok (with_ivert (with_lines (with_polygons s ps) ls) None)
        else ok s
    | None =>
        match ipoly s with
        | Some p =>
            ps <- pop_at (polygons s) p ;;
            ls <- pop_at (lines s) p ;;
            ds <- pop_at (densities s) p ;;
            ok (with_ipoly
                  (with_densities (with_lines (with_polygons s ps) ls) ds)
                  None)
        | None => ok s
        end
    end = ok s' -> highlight_ok s').
  { destruct H as [Hq Hd]. destruct (ivert s) as [v |].
    - destruct (ipoly s) as [p |] eqn:Ep; cbn [the_index bind ok];
        [| discriminate].
      destruct (getitem (polygons s) p) as [? | poly]; cbn [bind];
        [discriminate |].
      destruct (getitem (lines s) p) as [? | line]; cbn [bind];
        [discriminate |].
      destruct (4 <? length (xy poly));
        [| intros Hs; apply ok_inj in Hs; subst s'; constructor;
           [now rewrite Ep | now rewrite Ep]].
      cbn zeta. unfold setitem.
      destruct (update_at (polygons s) p _) as [? | ps] eqn:Eps; cbn [bind];
        [discriminate |].
      destruct (update_at (lines s) p _) as [? | ls] eqn:Els; cbn [bind];
        [discriminate |].
      intros Hs. apply ok_inj in Hs. subst s'.
      apply update_at_inv in Eps as (a & _ & _ & _ & Hop).
      apply update_at_inv in Els as (b & _ & _ & _ & Hol).
      constructor; fields; [| now rewrite Ep].
      rewrite Ep.
      apply (quiet_select (Some p) p (polygons s) ps (lines s) ls); auto.
    - destruct (ipoly s) as [p |] eqn:Ep;
        [| intros Hs; apply ok_inj in Hs; subst s'; constructor;
           [now rewrite Ep | now rewrite Ep]].
      destruct (pop_at (polygons s) p) as [? | ps] eqn:Eps; cbn [bind];
        [discriminate |].
      destruct (pop_at (lines s) p) as [? | ls] eqn:Els; cbn [bind];
        [discriminate |].
      destruct (pop_at (densities s) p) as [? | ds]; cbn [bind];
        [discriminate |].
      intros Hs. apply ok_inj in Hs. subst s'.
      apply pop_at_inv in Eps as (Lp & -> & _).
      apply pop_at_inv in Els as (Ll & -> & _).
      destruct (nth_error_removed (polygons s) p Lp) as (_ & Bp & Ap).
      destruct (nth_error_removed (lines s) p Ll) as (_ & Bl & Al).
      constructor; fields; [| reflexivity].
      intros j _. destruct (Nat.lt_ge_cases j p) as [Hlt | Hge].
      + rewrite Bp, Bl by assumption. apply Hq. intros E. inversion E. lia.
      + rewrite Ap, Al by assumption. apply Hq. intros E. inversion E. lia. }
  destruct (drawing s); [| exact Hrest].
  destruct (xy_buf s) as [[| b buf] |]; try exact Hrest.
  intros Hs. apply ok_inj in Hs. subst s'.
  apply (highlight_transfer s); auto.
Qed.

Lemma nth_error_snoc_other {A : Type} (l : list A) (a : A) (j : nat) :
  j <> length l -> nth_error (l ++ [a]) j = nth_error l j.
Proof.
  intros H. destruct (Nat.lt_ge_cases j (length l)) as [Hlt | Hge].
  - now apply nth_error_app1.
  - rewrite nth_error_app2 by assumption.
    destruct (j - length l) as [| k] eqn:E; [lia |].
    cbn [nth_error]. destruct k; symmetry; apply nth_error_None; lia.
Qed.

Lemma highlight_button_press (s s' : State) (e : Event) :
  wf s -> highlight_ok s -> button_press_callback s e = ok s' ->
  highlight_ok s'.
Proof.
  intros Hwf H. unfold button_press_callback.
  destruct (negb (ev_inaxes e)); [intros Hs; apply ok_inj in Hs; now subst |].
  destruct (drawing s) eqn:Hdr.
  - (* drawing *)
    rewrite andb_false_r. cbn [negb andb].
    destruct (ev_button e =? 1).
    + destruct (xy_buf s) as [buf |]; [| discriminate].
      intros Hs. apply ok_inj in Hs. subst s'.
      apply (highlight_transfer s); auto.
    + destruct (ev_button e =? 3);
        [| intros Hs; apply ok_inj in Hs; now subst].
      destruct (xy_buf s) as [buf |]; [| discriminate].
      destruct (3 <=? length buf);
        [| intros Hs; apply ok_inj in Hs; now subst].
      cbn zeta.
      destruct (update_at _ _ (l_set_color Green)) as [? | ls] eqn:Els;
        cbn [bind]; [discriminate |].
      intros Hs. apply ok_inj in Hs. subst s'.
      apply update_at_inv in Els as (b & _ & _ & _ & Hol).
      destruct H as [Hq Hd]. specialize (Hd Hdr).
      pose proof (wf_lines s Hwf) as Hlen.
      rewrite length_app in Hol. cbn [length] in Hol.
      constructor; fields; [| discriminate].
      rewrite length_app. cbn [length].
      replace (length (polygons s) + 1 - 1) with (length (polygons s))
        in * by lia.
      apply (quiet_select (ipoly s) _ (polygons s) _ (lines s) _); auto.
      * intros j Hj. now apply nth_error_snoc_other.
      * intros j Hj. rewrite Hol by assumption.
        apply nth_error_snoc_other. lia.
  - cbn [negb]. rewrite andb_true_r.
    destruct ((ev_button e =? 1) && negb (length (polygons s) =? 0));
      [| intros Hs; apply ok_inj in Hs; now subst].
    cbn [add_vertex_flag with_lastevent].
    destruct (add_vertex_flag s); cbn [negb].
    + (* armed *)
      cbn [ipoly polygons lines densities with_lastevent].
      destruct (ipoly s) as [p |] eqn:Ep;
        [| intros Hs; apply ok_inj in Hs; subst s';
           apply (highlight_transfer s); auto; fields; congruence].
      destruct (getitem (polygons s) p) as [? | old]; cbn [bind];
        [discriminate |].
      destruct (add_new_vertex (xy old) e) as [? | vertices]; cbn [bind];
        [discriminate |].
      destruct (getitem (densities s) p) as [? | d]; cbn [bind];
        [discriminate |].
      destruct (getitem (lines s) p) as [? | line]; cbn [bind];
        [discriminate |].
      destruct (pop_at (polygons s) p) as [? | ps] eqn:Eps; cbn [bind];
        [discriminate |].
      destruct (pop_at (lines s) p) as [? | ls] eqn:Els; cbn [bind];
        [discriminate |].
      apply pop_at_inv in Eps as (Hpl & -> & _).
      apply pop_at_inv in Els as (Hll & -> & _).
      rewrite !insert_after_pop by assumption.
      destruct (update_at _ p (l_set_color Green)) as [? | ls'] eqn:Els';
        cbn [bind]; [discriminate |].
      intros Hs. apply ok_inj in Hs. subst s'.
      apply update_at_inv in Els' as (b & _ & _ & _ & Hol).
      destruct (nth_error_replaced (polygons s) p
                  (fst (make_polygon vertices d)) Hpl) as (_ & _ & Hrp).
      destruct (nth_error_replaced (lines s) p
                  (snd (make_polygon vertices d)) Hll) as (_ & _ & Hrl).
      destruct H as [Hq Hd]. constructor; fields; [| now rewrite Hdr].
      rewrite Ep.
      apply (quiet_select (Some p) p (polygons s) _ (lines s) _); auto;
        [now rewrite <- Ep |].
      intros j Hj. rewrite Hol by assumption. now apply Hrl.
    + (* hit-test *)
      set (u := unhighlight (with_lastevent s (Some e))).
      assert (Hu : quiet None (polygons u) (lines u)).
      { apply quiet_unhighlight. exact (wf_lines s Hwf). }
      assert (Hud : drawing u = false) by exact Hdr.
      destruct (get_polygon_vertice_id _ e) as [? | r]; cbn [bind];
        [discriminate |].
      fields. destruct (fst r) as [p |].
      * destruct (getitem (densities u) p) as [? | d]; cbn [bind];
          [discriminate |].
        destruct (update_at (polygons u) p _) as [? | ps] eqn:Eps; cbn [bind];
          [discriminate |].
        destruct (update_at (lines u) p _) as [? | ls] eqn:Els; cbn [bind];
          [discriminate |].
        intros Hs. apply ok_inj in Hs. subst s'.
        apply update_at_inv in Eps as (a & _ & _ & _ & Hop).
        apply update_at_inv in Els as (b & _ & _ & _ & Hol).
        constructor; fields; [| now rewrite Hud].
        apply (quiet_select None p (polygons u) ps (lines u) ls); auto.
      * intros Hs. apply ok_inj in Hs. subst s'.
        constructor; fields; [assumption | now rewrite Hud].
Qed.

Lemma highlight_step (s s' : State) (i : Input) :
  wf s -> highlight_ok s -> step s i = ok s' -> highlight_ok s'.
Proof.
  intros Hwf H. destruct i as [e | e | e | | | | | | value]; cbn [step];
    intros Hs; try (apply ok_inj in Hs; subst s').
  - eapply highlight_button_press; eauto.
  - now apply highlight_button_release.
  - eapply highlight_mouse_move; eauto.
  - eapply highlight_delete_polygon; eauto.
  - now apply highlight_new_polygon.
  - now apply highlight_cancel_drawing.
  - assumption.
  - apply (highlight_transfer s); auto.
  - eapply highlight_set_density; eauto.
Qed.

Lemma reachable_highlight (s : State) : reachable s -> highlight_ok s.
Proof.
  induction 1 as [| s i s' Hr IH Hs].
  - constructor; [| discriminate].
    intros j _. split; intros x Hx; destruct j; discriminate.
  - eapply highlight_step; eauto using reachable_wf.
Qed.

(** X12. In every state the editor reaches, a polygon that is animated and
    an outline that is animated or green belong to the selected polygon, so
    at most one polygon is highlighted; and while the editor is drawing, no
    polygon and no vertex is selected. *)
Theorem only_selection_highlighted (s : State) :
  reachable s ->
  (forall j poly,
     nth_error (polygons s) j = Some poly ->
     p_animated poly = true -> ipoly s = Some j)
  /\ (forall j line,
        nth_error (lines s) j = Some line ->
        l_animated line = true \/ l_color line = Green -> ipoly s = Some j)
  /\ (drawing s = true -> ipoly s = None /\ ivert s = None).
Proof.
  intros Hr. destruct (reachable_highlight s Hr) as [Hq Hd].
  pose proof (reachable_wf s Hr) as Hwf.
  assert (Hdec : forall j, ipoly s = Some j \/ ipoly s <> Some j).
  { intros j. destruct (ipoly s) as [p |]; [| right; discriminate].
    destruct (Nat.eq_dec p j) as [-> | Hne]; [now left | right; congruence]. }
  split; [| split].
  - intros j poly Hpoly Ha. destruct (Hdec j) as [E | Hne]; [assumption |].
    destruct (Hq j Hne) as [Hp _]. rewrite (Hp poly Hpoly) in Ha.
    discriminate.
  - intros j line Hline Hon. destruct (Hdec j) as [E | Hne]; [assumption |].
    destruct (Hq j Hne) as [_ Hl]. destruct (Hl line Hline) as [Ha Hc].
    destruct Hon as [Hon | Hon]; [congruence | contradiction].
  - intros Hdraw. split; [now apply Hd | exact (wf_drawing s Hwf Hdraw)].
Qed.

(** ** Closed rings *)

Lemma nth_error_same_xy (ps ps' : list Polygon) (p : nat) (poly' : Polygon) :
  map xy ps' = map xy ps ->
  nth_error ps' p = Some poly' ->
  exists poly, nth_error ps p = Some poly /\ xy poly = xy poly'.
Proof.
  intros E H. apply (map_nth_error xy) in H. rewrite E in H.
  rewrite nth_error_map in H.
  destruct (nth_error ps p) as [poly |]; [| discriminate].
  cbn [option_map] in H. inversion H. now exists poly.
Qed.

Lemma all_closed_transfer (s s' : State) :
  map xy (polygons s') = map xy (polygons s) ->
  all_closed s -> all_closed s'.
Proof.
  unfold all_closed. intros E H.
  apply (proj1 (Forall_map xy ring_closed (polygons s'))).
  rewrite E. now apply Forall_map.
Qed.

Lemma fresh_transfer (s s' : State) :
  map xy (polygons s') = map xy (polygons s) ->
  (ivert s' = ivert s /\ ipoly s' = ipoly s) \/ ivert s' = None ->
  selection_fresh s -> selection_fresh s'.
Proof.
  intros E [[Ev Ep] | Ev] H v p poly' Hv Hp Hpoly; [| congruence].
  destruct (nth_error_same_xy _ _ _ _ E Hpoly) as (poly & Hn & <-).
  apply (H v p poly); congruence.
Qed.

Lemma rings_transfer (s s' : State) :
  map xy (polygons s') = map xy (polygons s) ->
  (ivert s' = ivert s /\ ipoly s' = ipoly s) \/ ivert s' = None ->
  all_closed s /\ selection_fresh s ->
  all_closed s' /\ selection_fresh s'.
Proof.
  intros E Hv [Hc Hf]. split;
    [eapply all_closed_transfer | eapply fresh_transfer]; eauto.
Qed.

Lemma ring_closed_translate (dx dy : R) (rows : list point) :
  ring_closed rows -> ring_closed (translate dx dy rows).
Proof.
  intros [Hne Hc]. unfold translate. split.
  - intros E. apply map_eq_nil in E. contradiction.
  - rewrite length_map, !nth_error_map. f_equal. exact Hc.
Qed.

Lemma fresh_in_range (v : vertex_ref) (rows : list point) :
  rows <> [] -> fresh_ref v (length rows) ->
  Forall (fun i => i < length rows) (vref_indices v).
Proof.
  intros Hne H. assert (0 < length rows) by (destruct rows; simpl; [congruence | lia]).
  destruct v as [i | a b]; cbn [fresh_ref vref_indices] in *;
    repeat constructor; lia.
Qed.

(** Dragging a vertex the hit-test picked keeps the ring closed: an inner
    row leaves the seam rows alone, the seam pair writes both. *)
Lemma ring_closed_assign
  (v : vertex_ref) (pt : point) (rows rows' : list point) :
  ring_closed rows -> fresh_ref v (length rows) ->
  assign_rows v pt rows = ok rows' ->
  ring_closed rows'.
Proof.
  intros [Hne Hc] Hf Ha.
  destruct (assign_rows_in_range v pt rows (fresh_in_range v rows Hne Hf))
    as (r & Hr & Hlen & Hin & Hout).
  rewrite Hr in Ha. apply ok_inj in Ha. subst r.
  assert (Hpos : 0 < length rows)
    by (destruct rows; simpl; [congruence | lia]).
  split.
  - intros E. rewrite E in Hlen. simpl in Hlen. lia.
  - rewrite Hlen.
    destruct v as [i | a b]; cbn [fresh_ref vref_indices] in *.
    + rewrite (Hout 0) by (intros [E | []]; lia).
      rewrite (Hout (length rows - 1)) by (intros [E | []]; lia).
      assumption.
    + destruct Hf as [-> ->].
      rewrite (Hin 0) by (cbn [In]; auto).
      rewrite (Hin (length rows - 1)) by (cbn [In]; auto). reflexivity.
Qed.

Lemma add_new_vertex_nonempty (v rows : list point) (e : Event) :
  add_new_vertex v e = ok rows ->
  rows <> [] /\ length rows = S (length v).
Proof.
  unfold add_new_vertex.
  destruct (argmax (segment_angles v e)) as [? | a]; cbn [bind];
    [discriminate |].
  intros H. apply ok_inj in H. subst rows. split.
  - intros E. apply (f_equal (@length point)) in E.
    rewrite inserted_length in E. discriminate.
  - apply inserted_length.
Qed.

(** A vertex reference the hit-test returns is the seam pair of its polygon
    or a row strictly between the seam rows. *)
Lemma hit_test_fresh
  (polys : list Polygon) (e : Event)
  (rp : option nat) (v : vertex_ref) :
  get_polygon_vertice_id polys e = ok (rp, Some v) ->
  exists p poly,
    rp = Some p /\ nth_error polys p = Some poly
    /\ fresh_ref v (length (xy poly)).
Proof.
  unfold get_polygon_vertice_id.
  destruct (nearest_per_polygon polys e) as [? | [ds ixs]] eqn:Er; cbn [bind];
    [discriminate |].
  cbn [fst snd].
  destruct (nearest_per_polygon_range polys e ds ixs Er) as (_ & _ & Hrange).
  destruct (argmin ds) as [? | p]; cbn [bind]; [discriminate |].
  destruct (getitem ds p) as [? | dp]; cbn [bind]; [discriminate |].
  destruct (Rge_dec dp epsilon) as [Hfar | Hclose]; [discriminate |].
  destruct (getitem ixs p) as [? | i] eqn:Ei; cbn [bind]; [discriminate |].
  destruct (getitem polys p) as [? | poly] eqn:Epoly; cbn [bind];
    [discriminate |].
  apply getitem_some in Ei, Epoly.
  pose proof (Hrange p poly i Epoly Ei) as Hi.
  destruct (Nat.eqb_spec i 0) as [E0 | N0]; cbn [orb].
  - intros H. inversion H; subst. exists p, poly. cbn [fresh_ref]. auto.
  - destruct (Nat.eqb_spec i (length (xy poly) - 1)) as [El | Nl];
      intros H; inversion H; subst; exists p, poly; cbn [fresh_ref];
      repeat split; auto; lia.
Qed.

Lemma rings_button_release (s : State) (e : Event) :
  all_closed s /\ selection_fresh s ->
  all_closed (button_release_callback s e)
  /\ selection_fresh (button_release_callback s e).
Proof.
  intros H. unfold button_release_callback.
  destruct (negb (ev_inaxes e)); [assumption |].
  destruct (negb (ev_button e =? 1)); [assumption |].
  assert (H1 : all_closed (if add_vertex_flag s then with_add_vertex s false else s)
               /\ selection_fresh
                    (if add_vertex_flag s then with_add_vertex s false else s)).
  { destruct (add_vertex_flag s); [| assumption].
    apply (rings_transfer s); auto. }
  set (s1 := if add_vertex_flag s then with_add_vertex s false else s) in *.
  destruct (ivert s1), (ipoly s1); try assumption;
    apply (rings_transfer s1); auto; cbn -[Nat.min map_firstn];
    now apply map_map_firstn.
Qed.

Lemma rings_mouse_move (s s' : State) (e : Event) :
  all_closed s /\ selection_fresh s ->
  mouse_move_callback s e = ok s' ->
  all_closed s' /\ selection_fresh s'.
Proof.
  intros H. unfold mouse_move_callback.
  destruct (negb (ev_inaxes e)); [intros Hs; apply ok_inj in Hs; now subst |].
  destruct (negb (ev_button e =? 1));
    [intros Hs; apply ok_inj in Hs; now subst |].
  assert (Hbody :
    forall rows p poly,
      ipoly s = Some p ->
      nth_error (polygons s) p = Some poly ->
      ring_closed rows ->
      length rows = length (xy poly) ->
      (ps <- update_at (polygons s) p (set_xy_raw rows) ;;
       ls <- update_at (lines s) p (l_set_data rows) ;;
       ok (with_lastevent (with_lines (with_polygons s ps) ls) (Some e)))
      = ok s' ->
      all_closed s' /\ selection_fresh s').
  { intros rows p poly Ep Hpoly Hrc Hlen.
    destruct (update_at (polygons s) p _) as [? | ps] eqn:Eps; cbn [bind];
      [discriminate |].
    destruct (update_at (lines s) p _) as [? | ls] eqn:Els; cbn [bind];
      [discriminate |].
    intros Hs. apply ok_inj in Hs. subst s'. destruct H as [Hc Hf]. split.
    - unfold all_closed. fields.
      eapply Forall_update_at; [exact Eps | exact Hc |].
      intros a _. exact Hrc.
    - intros v q poly'. fields. intros Hv Hq Hn.
      rewrite Ep in Hq. inversion Hq; subst q.
      apply update_at_inv in Eps as (a & Ha & _ & Hnew & _).
      rewrite Hnew in Hn. inversion Hn; subst poly'.
      cbn [set_xy_raw xy]. rewrite Hlen. now apply (Hf v p poly). }
  destruct (ivert s) as [v |] eqn:Ev.
  - destruct (add_vertex_flag s);
      [intros Hs; apply ok_inj in Hs; now subst |].
    destruct (ipoly s) as [p |] eqn:Ep; cbn [the_index bind ok];
      [| discriminate].
    destruct (getitem (polygons s) p) as [? | poly] eqn:Epoly; cbn [bind];
      [discriminate |].
    destruct (assign_rows v _ (xy poly)) as [? | rows] eqn:Erows; cbn [bind];
      [discriminate |].
    apply getitem_some in Epoly. destruct H as [Hc Hf].
    assert (Hrc : ring_closed (xy poly)).
    { unfold all_closed in Hc. rewrite Forall_forall in Hc.
      apply Hc. eapply nth_error_In; eauto. }
    apply (Hbody rows p poly); auto.
    + eapply ring_closed_assign; eauto.
    + eapply assign_rows_length; eauto.
  - destruct (ipoly s) as [p |] eqn:Ep;
      [| intros Hs; apply ok_inj in Hs; now subst].
    destruct (add_vertex_flag s);
      [intros Hs; apply ok_inj in Hs; now subst |].
    destruct (lastevent s) as [le |]; cbn [the_index bind ok];
      [| discriminate].
    destruct (getitem (polygons s) p) as [? | poly] eqn:Epoly; cbn [bind];
      [discriminate |].
    apply getitem_some in Epoly.
    assert (Hrc : ring_closed (xy poly)).
    { destruct H as [Hc _]. unfold all_closed in Hc.
      rewrite Forall_forall in Hc. apply Hc. eapply nth_error_In; eauto. }
    apply (Hbody _ p poly); auto.
    + now apply ring_closed_translate.
    + apply translate_length.
Qed.

Lemma rings_delete_polygon (s s' : State) :
  all_closed s /\ selection_fresh s ->
  delete_polygon s = ok s' ->
  all_closed s' /\ selection_fresh s'.
Proof.
  intros H. unfold delete_polygon.
  assert (Hrest :
    match ivert s with
    | Some v =>
        p <- the_index (ipoly s) ;;
        poly <- getitem (polygons s) p ;;
        _ <- getitem (lines s) p ;;
        if 4 <? length (xy poly) then
          let poly' := set_xy (drop_indices (vref_indices v) 0 (xy poly)) poly in
          ps <- setitem (polygons s) p poly' ;;
          ls <- update_at (lines s) p (l_set_data (xy poly')) ;;
          ok (with_ivert (with_lines (with_polygons s ps) ls) None)
        else ok s
    | None =>
        match ipoly s with
        | Some p =>
            ps <- pop_at (polygons s) p ;;
            ls <- pop_at (lines s) p ;;
            ds <- pop_at (densities s) p ;;
            ok (with_ipoly
                  (with_densities (with_lines (with_polygons s ps) ls) ds)
                  None)
        | None => ok s
        end
    end = ok s' -> all_closed s' /\ selection_fresh s').
  { destruct (ivert s) as [v |] eqn:Ev.
    - destruct (the_index (ipoly s)) as [? | p]; cbn [bind]; [discriminate |].
      destruct (getitem (polygons s) p) as [? | poly]; cbn [bind];
        [discriminate |].
      destruct (getitem (lines s) p) as [? | line]; cbn [bind];
        [discriminate |].
      destruct (Nat.ltb_spec 4 (length (xy poly))) as [H5 | _];
        [| intros Hs; apply ok_inj in Hs; now subst].
      cbn zeta. unfold setitem.
      destruct (update_at (polygons s) p _) as [? | ps] eqn:Eps; cbn [bind];
        [discriminate |].
      destruct (update_at (lines s) p _) as [? | ls] eqn:Els; cbn [bind];
        [discriminate |].
      intros Hs. apply ok_inj in Hs. subst s'. destruct H as [Hc _]. split.
      + unfold all_closed. fields.
        eapply Forall_update_at; [exact Eps | exact Hc |].
        intros a _. cbn [set_xy set_xy_raw xy].
        apply close_ring_is_closed. intros E.
        pose proof (rows_after_delete v (xy poly) H5) as H3.
        rewrite E in H3. simpl in H3. lia.
      + intros w q poly'. fields. discriminate.
    - destruct (ipoly s) as [p |];
        [| intros Hs; apply ok_inj in Hs; now subst].
      destruct (pop_at (polygons s) p) as [? | ps] eqn:Eps; cbn [bind];
        [discriminate |].
      destruct (pop_at (lines s) p) as [? | ls]; cbn [bind];
        [discriminate |].
      destruct (pop_at (densities s) p) as [? | ds]; cbn [bind];
        [discriminate |].
      intros Hs. apply ok_inj in Hs. subst s'. destruct H as [Hc _]. split.
      + unfold all_closed. fields. eapply Forall_pop_at; eauto.
      + intros w q poly'. fields. rewrite Ev. discriminate. }
  destruct (drawing s); [| exact Hrest].
  destruct (xy_buf s) as [[| b buf] |]; try exact Hrest.
  intros Hs. apply ok_inj in Hs. subst s'.
  apply (rings_transfer s); auto.
Qed.

Lemma rings_set_density (s s' : State) (value : R) :
  all_closed s /\ selection_fresh s ->
  set_density s value = ok s' ->
  all_closed s' /\ selection_fresh s'.
Proof.
  intros H. unfold set_density. fields.
  destruct (ipoly s) as [p |] eqn:Ep.
  - destruct (setitem (densities s) p value) as [? | ds]; cbn [bind];
      [discriminate |].
    destruct (update_at (polygons s) p _) as [? | ps] eqn:Eps; cbn [bind];
      [discriminate |].
    intros Hs. apply ok_inj in Hs. subst s'.
    apply (rings_transfer s); auto. fields.
    eapply update_at_map_xy; [| exact Eps]. reflexivity.
  - intros Hs. apply ok_inj in Hs. subst s'.
    apply (rings_transfer s); auto.
Qed.

Lemma rings_button_press (s s' : State) (e : Event) :
  wf s ->
  all_closed s /\ selection_fresh s ->
  ~ stale_insertion s (Press e) ->
  button_press_callback s e = ok s' ->
  all_closed s' /\ selection_fresh s'.
Proof.
  intros Hwf H Hstale. unfold button_press_callback.
  destruct (negb (ev_inaxes e)); [intros Hs; apply ok_inj in Hs; now subst |].
  destruct (drawing s) eqn:Hdr.
  - (* drawing *)
    rewrite andb_false_r. cbn [negb andb].
    destruct (ev_button e =? 1).
    + destruct (xy_buf s) as [buf |]; [| discriminate].
      intros Hs. apply ok_inj in Hs. subst s'.
      apply (rings_transfer s); auto.
    + destruct (ev_button e =? 3);
        [| intros Hs; apply ok_inj in Hs; now subst].
      destruct (xy_buf s) as [buf |]; [| discriminate].
      destruct (Nat.leb_spec 3 (length buf)) as [H3 |];
        [| intros Hs; apply ok_inj in Hs; now subst].
      cbn zeta.
      destruct (update_at _ _ (l_set_color Green)) as [? | ls];
        cbn [bind]; [discriminate |].
      intros Hs. apply ok_inj in Hs. subst s'. destruct H as [Hc _]. split.
      * unfold all_closed. fields. apply Forall_app. split; [exact Hc |].
        constructor; [| constructor]. cbn [make_polygon fst xy].
        apply close_ring_is_closed. intros E. rewrite E in H3.
        simpl in H3. lia.
      * intros v q poly'. fields. rewrite (wf_drawing s Hwf Hdr).
        discriminate.
  - cbn [negb]. rewrite andb_true_r.
    destruct ((ev_button e =? 1) && negb (length (polygons s) =? 0));
      [| intros Hs; apply ok_inj in Hs; now subst].
    cbn [add_vertex_flag with_lastevent].
    destruct (add_vertex_flag s) eqn:Ha; cbn [negb].
    + (* armed *)
      cbn [ipoly polygons lines densities with_lastevent].
      destruct (ipoly s) as [p |] eqn:Ep;
        [| intros Hs; apply ok_inj in Hs; subst s';
           apply (rings_transfer s); auto].
      destruct (getitem (polygons s) p) as [? | old] eqn:Eold; cbn [bind];
        [discriminate |].
      destruct (add_new_vertex (xy old) e) as [? | vertices] eqn:Eadd;
        cbn [bind]; [discriminate |].
      destruct (getitem (densities s) p) as [? | d]; cbn [bind];
        [discriminate |].
      destruct (getitem (lines s) p) as [? | line]; cbn [bind];
        [discriminate |].
      destruct (pop_at (polygons s) p) as [? | ps] eqn:Eps; cbn [bind];
        [discriminate |].
      destruct (pop_at (lines s) p) as [? | ls] eqn:Els; cbn [bind];
        [discriminate |].
      apply pop_at_inv in Eps as (Hpl & -> & _).
      apply pop_at_inv in Els as (Hll & -> & _).
      rewrite !insert_after_pop by assumption.
      destruct (update_at _ p (l_set_color Green)) as [? | ls'];
        cbn [bind]; [discriminate |].
      intros Hs. apply ok_inj in Hs. subst s'.
      apply getitem_some in Eold.
      destruct (add_new_vertex_nonempty _ _ _ Eadd) as [Hne Hlen].
      destruct (nth_error_replaced (polygons s) p
                  (fst (make_polygon vertices d)) Hpl) as (_ & Hnew & _).
      destruct H as [Hc Hf]. split.
      * unfold all_closed. fields. apply Forall_replaced; [exact Hc |].
        cbn [make_polygon fst xy]. now apply close_ring_is_closed.
      * intros v q poly'. fields. intros Hv Hq Hn.
        rewrite Ep in Hq. inversion Hq; subst q.
        rewrite Hnew in Hn. inversion Hn; subst poly'.
        cbn [make_polygon fst xy].
        pose proof (Hf v p old Hv Ep Eold) as Hfresh.
        pose proof (close_ring_length vertices) as Hcl.
        destruct v as [i | a b]; cbn [fresh_ref] in *; [lia |].
        exfalso. apply Hstale. split; [assumption |]. split; eauto.
    + (* hit-test *)
      set (u := unhighlight (with_lastevent s (Some e))).
      assert (Hux : map xy (polygons u) = map xy (polygons s)).
      { subst u. cbn -[Nat.min map_firstn]. now apply map_map_firstn. }
      destruct (get_polygon_vertice_id _ e) as [? | [rp rv]] eqn:Ehit;
        cbn [bind]; [discriminate |].
      fields. cbn [fst snd].
      assert (Hfresh :
        forall ps, map xy ps = map xy (polygons u) ->
        forall v q poly',
          rv = Some v -> rp = Some q -> nth_error ps q = Some poly' ->
          fresh_ref v (length (xy poly'))).
      { intros ps Eps v q poly' -> -> Hn.
        destruct (hit_test_fresh _ _ _ _ Ehit) as (p & poly & Hp & Hpoly & Hf).
        inversion Hp; subst q.
        destruct (nth_error_same_xy _ _ _ _ Eps Hn) as (poly2 & Hn2 & <-).
        congruence. }
      destruct rp as [p |].
      * destruct (getitem (densities u) p) as [? | d]; cbn [bind];
          [discriminate |].
        destruct (update_at (polygons u) p _) as [? | ps] eqn:Eps; cbn [bind];
          [discriminate |].
        destruct (update_at (lines u) p _) as [? | ls]; cbn [bind];
          [discriminate |].
        intros Hs. apply ok_inj in Hs. subst s'.
        assert (Epx : map xy ps = map xy (polygons u)).
        { eapply update_at_map_xy; [| exact Eps]. reflexivity. }
        destruct H as [Hc _]. split.
        -- apply (all_closed_transfer s); [| assumption]. fields. congruence.
        -- intros v q poly'. fields. now apply Hfresh.
      * intros Hs. apply ok_inj in Hs. subst s'. destruct H as [Hc _]. split.
        -- apply (all_closed_transfer s); [| assumption]. fields. congruence.
        -- intros v q poly'. fields. intros _ Hq. discriminate.
Qed.

(** X13. Closed rings are kept.  From a state the editor reaches in which
    every polygon's vertex array ends with its first row and the selected
    vertex, if any, is the seam pair or an inner row of the polygon as it
    now is, every callback that returns leaves such a state, except a press
    made while the add-vertex mode is armed and the seam pair is still
    selected. *)
Theorem rings_stay_closed (s s' : State) (i : Input) :
  reachable s ->
  all_closed s ->
  selection_fresh s ->
  ~ stale_insertion s i ->
  step s i = ok s' ->
  all_closed s' /\ selection_fresh s'.
Proof.
  intros Hr Hc Hf Hstale. pose proof (reachable_wf s Hr) as Hwf.
  assert (H : all_closed s /\ selection_fresh s) by (split; assumption).
  destruct i as [e | e | e | | | | | | value]; cbn [step];
    intros Hs; try (apply ok_inj in Hs; subst s').
  - eapply rings_button_press; eauto.
  - now apply rings_button_release.
  - eapply rings_mouse_move; eauto.
  - eapply rings_delete_polygon; eauto.
  - apply (rings_transfer s); auto. unfold new_polygon.
    cbn -[Nat.min map_firstn]. now apply map_map_firstn.
  - unfold cancel_drawing.
    destruct (add_vertex_flag s); apply (rings_transfer s); auto.
    cbn -[Nat.min map_firstn]. now apply map_map_firstn.
  - assumption.
  - apply (rings_transfer s); auto.
  - eapply rings_set_density; eauto.
Qed.

Lemma inserted_ends (v : list point) (k : nat) (pt : point) :
  1 <= k <= length v - 1 ->
  nth_error (firstn k v ++ pt :: skipn k v) 0 = nth_error v 0
  /\ nth_error (firstn k v ++ pt :: skipn k v) (length v)
     = nth_error v (length v - 1).
Proof.
  intros Hk.
  assert (Hf : length (firstn k v) = k) by (rewrite length_firstn; lia).
  split.
  - rewrite nth_error_app1 by lia. rewrite nth_error_firstn.
    destruct (Nat.ltb_spec 0 k); [reflexivity | lia].
  - rewrite nth_error_app2 by lia. rewrite Hf.
    destruct (length v - k) as [| r] eqn:Er; [lia |].
    cbn [nth_error]. rewrite nth_error_skipn. f_equal. lia.
Qed.

(** X14. A stale seam reference opens the ring.  Let the add-vertex mode be
    armed while the seam pair [[0, n - 1]] of the selected polygon, a closed
    ring of [n >= 3] rows, is still the selected vertex.  A primary press on
    the model axes inserts a row, so the array has [n + 1] rows and its seam
    is at rows 0 and [n]; the selected vertex is not updated.  After the
    add-vertex key has switched the mode off, a move with the primary button
    held writes the pointer's point to rows 0 and [n - 1] and leaves row [n]
    as it was: unless the pointer is exactly on the old first vertex, the
    array no longer ends with its first row. *)
Theorem stale_seam_opens_ring
  (s : State) (e e2 : Event) (p : nat)
  (poly : Polygon) (line : Line2D) (d : R) :
  drawing s = false ->
  add_vertex_flag s = true ->
  ipoly s = Some p ->
  ivert s = Some (VPair 0 (length (xy poly) - 1)) ->
  nth_error (polygons s) p = Some poly ->
  nth_error (lines s) p = Some line ->
  nth_error (densities s) p = Some d ->
  3 <= length (xy poly) ->
  ring_closed (xy poly) ->
  ev_inaxes e = true -> ev_button e = 1 ->
  ev_inaxes e2 = true -> ev_button e2 = 1 ->
  nth_error (xy poly) 0 <> Some (data_coords e2) ->
  exists s3 poly3,
    run s [Press e; KeyA; Move e2] = ok s3
    /\ nth_error (polygons s3) p = Some poly3
    /\ length (xy poly3) = S (length (xy poly))
    /\ nth_error (xy poly3) 0 = Some (data_coords e2)
    /\ nth_error (xy poly3) (length (xy poly) - 1) = Some (data_coords e2)
    /\ nth_error (xy poly3) (length (xy poly)) = nth_error (xy poly) 0
    /\ ~ ring_closed (xy poly3).
Proof.
  intros Hd Ha Hp Hv Hpoly Hline Hdens H3 [Hne Hc] Hin Hb Hin2 Hb2 Hoff.
  set (n := length (xy poly)) in *.
  destruct (press_armed s e p poly line d Hin Hb Hd Ha Hp Hpoly Hline Hdens
              ltac:(fold n; lia))
    as (s1 & vertices & Hpress & Hadd & Hlen & Hnew & _ & Hll & _ & _
        & Ha1 & Hp1 & Hv1 & Hd1 & _ & _).
  destruct (add_new_vertex_total (xy poly) e ltac:(fold n; lia))
    as (a & _ & Hlt & Hadd').
  rewrite Hadd' in Hadd. apply ok_inj in Hadd.
  assert (Hends : nth_error vertices 0 = nth_error (xy poly) 0
                  /\ nth_error vertices n = nth_error (xy poly) (n - 1)).
  { rewrite <- Hadd. apply inserted_ends. fold n. lia. }
  destruct Hends as [H0 Hlast]. fold n in Hlen.
  assert (Hvne : vertices <> []).
  { intros E. rewrite E in Hlen. discriminate. }
  assert (Hring : close_ring vertices = vertices).
  { apply close_ring_closed; [lia |].
    rewrite Hlen. replace (S n - 1) with n by lia. congruence. }
  rewrite Hring in Hnew.
  assert (Hrange : Forall (fun i => i < length vertices)
                     (vref_indices (VPair 0 (n - 1)))).
  { cbn [vref_indices]. repeat constructor; lia. }
  destruct (assign_rows_in_range (VPair 0 (n - 1)) (data_coords e2)
              vertices Hrange) as (rows & Hrows & Lrows & Hin_rows & Hout).
  assert (Hline1 : exists line1, nth_error (lines s1) p = Some line1).
  { destruct (nth_error (lines s1) p) as [l1 |] eqn:E; [now exists l1 |].
    apply nth_error_None in E.
    assert (p < length (lines s)) by (apply nth_error_Some; congruence).
    lia. }
  destruct Hline1 as (line1 & Hline1).
  set (s2 := add_vertex s1).
  destruct (move_commit s2 e2 p (mkPolygon vertices false d) line1 rows
              Hnew Hline1)
    as (ps & ls & Hps & Hls & Hnth & _).
  exists (with_lastevent (with_lines (with_polygons s2 ps) ls) (Some e2)).
  exists (set_xy_raw rows (mkPolygon vertices false d)).
  split.
  { cbn [run step bind ok]. rewrite Hpress. cbn [bind ok]. fold s2.
    unfold mouse_move_callback. rewrite Hin2, Hb2. cbn [negb Nat.eqb].
    subst s2. unfold add_vertex. fields. unfold add_vertex in Hps, Hls.
    cbn [polygons lines with_add_vertex] in Hps, Hls.
    rewrite Hv1, Hv, Ha1, Hp1. cbn [negb the_index bind ok].
    apply getitem_some in Hnew. rewrite Hnew. cbn [bind ok xy].
    unfold data_coords in Hrows. rewrite Hrows. cbn [bind ok].
    rewrite Hps. cbn [bind ok]. rewrite Hls. reflexivity. }
  fields. cbn [set_xy_raw xy].
  split; [assumption |]. split; [congruence |].
  assert (R0 : nth_error rows 0 = Some (data_coords e2))
    by (apply Hin_rows; cbn [vref_indices In]; auto).
  assert (Rn : nth_error rows n = nth_error (xy poly) 0).
  { rewrite Hout; [congruence |].
    cbn [vref_indices In]. intros [E | [E | []]]; lia. }
  split; [assumption |]. split.
  { apply Hin_rows. cbn [vref_indices In]. auto. }
  split; [assumption |].
  intros [_ Hclosed]. rewrite Lrows, Hlen in Hclosed.
  replace (S n - 1) with n in Hclosed by lia. congruence.
Qed.

(** ** A drag made of several moves *)

Lemma translate_zero (dx dy : R) (rows : list point) :
  dx = 0%R -> dy = 0%R -> translate dx dy rows = rows.
Proof.
  intros -> ->. unfold translate. rewrite <- (map_id rows) at 2.
  apply map_ext. intros [x y]. cbn [fst snd]. f_equal; lra.
Qed.

Lemma translate_compose (a b c d : R) (rows : list point) :
  translate a b (translate c d rows) = translate (c + a) (d + b) rows.
Proof.
  unfold translate. rewrite map_map. apply map_ext.
  intros [x y]. cbn [fst snd]. f_equal; lra.
Qed.

Lemma last_cons_default {A : Type} (a d : A) (t : list A) :
  last (a :: t) d = last t a.
Proof.
  revert a d. induction t as [| b t IH]; intros a d; [reflexivity |].
  change (last (a :: b :: t) d) with (last (b :: t) d).
  now rewrite (IH b d), (IH b a).
Qed.

(** One move of a polygon drag, with what the next move needs. *)
Lemma drag_step
  (s : State) (e le : Event) (p : nat) (poly : Polygon) (line : Line2D) :
  ev_inaxes e = true ->
  ev_button e = 1 ->
  add_vertex_flag s = false ->
  ivert s = None ->
  ipoly s = Some p ->
  lastevent s = Some le ->
  nth_error (polygons s) p = Some poly ->
  nth_error (lines s) p = Some line ->
  exists s',
    mouse_move_callback s e = ok s'
    /\ nth_error (polygons s') p
       = Some (set_xy_raw
                 (translate (ev_xdata e - ev_xdata le)
                            (ev_ydata e - ev_ydata le) (xy poly)) poly)
    /\ (exists line', nth_error (lines s') p = Some line')
    /\ (forall q, q <> p -> nth_error (polygons s') q = nth_error (polygons s) q)
    /\ densities s' = densities s
    /\ add_vertex_flag s' = false
    /\ ivert s' = None
    /\ ipoly s' = Some p
    /\ lastevent s' = Some e.
Proof.
  intros Hin Hb Ha Hv Hp Hle Hpoly Hline.
  set (dx := (ev_xdata e - ev_xdata le)%R).
  set (dy := (ev_ydata e - ev_ydata le)%R).
  destruct (update_at_some (set_xy_raw (translate dx dy (xy poly))) _ _ _ Hpoly)
    as (ps & Hps & _ & Np & Op).
  destruct (update_at_some (l_set_data (translate dx dy (xy poly))) _ _ _ Hline)
    as (ls & Hls & _ & Nl & _).
  unfold mouse_move_callback. rewrite Hin, Hb, Hv, Ha, Hp, Hle.
  cbn [negb Nat.eqb the_index bind ok].
  apply getitem_some in Hpoly. rewrite Hpoly. cbn [bind ok].
  fold dx dy. rewrite Hps. cbn [bind ok]. rewrite Hls. cbn [bind ok].
  eexists. split; [reflexivity |]. fields.
  split; [assumption |]. split; [eauto |]. repeat split; auto.
Qed.

(** X15. A polygon drag made of any number of moves on the model axes with
    the primary button held ends where one move to the last pointer position
    would: the selected polygon is its starting rows translated by the
    difference between the last event's model position and the position of
    the event recorded before the drag, whatever the path in between (the
    coordinates being real numbers, the sums are exact).  The other
    polygons and the densities are not touched, and the last event is
    recorded for the next move. *)
Theorem drag_depends_on_endpoints
  (es : list Event) (s : State) (le : Event) (p : nat)
  (poly : Polygon) (line : Line2D) :
  Forall (fun e => ev_inaxes e = true /\ ev_button e = 1) es ->
  add_vertex_flag s = false ->
  ivert s = None ->
  ipoly s = Some p ->
  lastevent s = Some le ->
  nth_error (polygons s) p = Some poly ->
  nth_error (lines s) p = Some line ->
  exists s' poly',
    run s (map Move es) = ok s'
    /\ nth_error (polygons s') p = Some poly'
    /\ xy poly'
       = translate (ev_xdata (last es le) - ev_xdata le)
                   (ev_ydata (last es le) - ev_ydata le) (xy poly)
    /\ (forall q, q <> p -> nth_error (polygons s') q = nth_error (polygons s) q)
    /\ densities s' = densities s
    /\ lastevent s' = Some (last es le).
Proof.
  revert s le poly line.
  induction es as [| e t IH]; intros s le poly line Hall Ha Hv Hp Hle Hpoly Hline.
  - exists s, poly. cbn [map run last]. repeat split; auto.
    symmetry. apply translate_zero; lra.
  - inversion Hall as [| ? ? [Hin Hb] Ht]; subst.
    destruct (drag_step s e le p poly line Hin Hb Ha Hv Hp Hle Hpoly Hline)
      as (s1 & Hmove & Hpoly1 & (line1 & Hline1) & Hother1 & Hd1 & Ha1 & Hv1
          & Hp1 & Hle1).
    destruct (IH s1 e _ line1 Ht Ha1 Hv1 Hp1 Hle1 Hpoly1 Hline1)
      as (s' & poly' & Hrun & Hpoly' & Hxy & Hother & Hd & Hlast).
    exists s', poly'. cbn [map run step]. rewrite Hmove. cbn [bind ok].
    rewrite last_cons_default.
    split; [assumption |]. split; [assumption |]. split.
    { rewrite Hxy. cbn [set_xy_raw xy]. rewrite translate_compose.
      f_equal; lra. }
    split.
    { intros q Hq. rewrite Hother, Hother1 by assumption. reflexivity. }
    split; [congruence | assumption].
Qed.

(** ** The saved background and how the callbacks end *)

Lemma canvas_transfer (s s' : State) :
  canvas_ok s ->
  (drawing s' = true -> drawing s = true) ->
  ivert s' = ivert s \/ ivert s' = None ->
  background s' = background s \/ background s' = true ->
  canvas_ok s'.
Proof.
  intros [Hd Hv] Ed Ev Eb. split.
  - intros H. destruct Eb as [-> | ->]; auto.
  - intros H. destruct Eb as [-> | ->]; [| reflexivity].
    destruct Ev as [Ev | Ev]; [| congruence]. apply Hv. congruence.
Qed.

Lemma canvas_button_release (s : State) (e : Event) :
  wf s -> highlight_ok s -> canvas_ok s ->
  canvas_ok (button_release_callback s e).
Proof.
  intros Hwf Hhl H. unfold button_release_callback.
  destruct (negb (ev_inaxes e)); [assumption |].
  destruct (negb (ev_button e =? 1)); [assumption |].
  set (s1 := if add_vertex_flag s then with_add_vertex s false else s).
  assert (H1 : canvas_ok s1 /\ drawing s1 = drawing s /\ ivert s1 = ivert s
               /\ ipoly s1 = ipoly s).
  { subst s1. destruct (add_vertex_flag s); [| auto].
    split; [apply (canvas_transfer s); auto | auto]. }
  destruct H1 as (H1 & Ed & Ev & Ep). clearbody s1.
  assert (Hsel : ivert s1 <> None \/ ipoly s1 <> None ->
                 canvas_ok
                   (with_lastevent
                      (with_ivert (unanimate (with_background s1 false)) None)
                      None)).
  { intros Hsome. split; fields; [| congruence].
    intros Hdraw. exfalso. change (drawing s1 = true) in Hdraw.
    rewrite Ed in Hdraw. rewrite Ev, Ep in Hsome.
    pose proof (wf_drawing s Hwf Hdraw). pose proof (hl_drawing s Hhl Hdraw).
    destruct Hsome; congruence. }
  destruct (ivert s1) eqn:E1; [apply Hsel; left; discriminate |].
  destruct (ipoly s1) eqn:E2; [apply Hsel; right; discriminate |].
  assumption.
Qed.

Lemma canvas_mouse_move (s s' : State) (e : Event) :
  canvas_ok s -> mouse_move_callback s e = ok s' -> canvas_ok s'.
Proof.
  intros H. unfold mouse_move_callback.
  destruct (negb (ev_inaxes e)); [intros Hs; apply ok_inj in Hs; now subst |].
  destruct (negb (ev_button e =? 1));
    [intros Hs; apply ok_inj in Hs; now subst |].
  assert (Hbody :
    forall r : Result (list point),
      (new_xy <- r ;;
       p <- the_index (ipoly s) ;;
       ps <- update_at (polygons s) p (set_xy_raw new_xy) ;;
       ls <- update_at (lines s) p (l_set_data new_xy) ;;
       ok (with_lastevent (with_lines (with_polygons s ps) ls) (Some e)))
      = ok s' ->
      canvas_ok s').
  { intros [? | rows]; cbn [bind]; [discriminate |].
    destruct (the_index (ipoly s)) as [? | p]; cbn [bind]; [discriminate |].
    destruct (update_at (polygons s) p _) as [? | ps]; cbn [bind];
      [discriminate |].
    destruct (update_at (lines s) p _) as [? | ls]; cbn [bind];
      [discriminate |].
    intros Hs. apply ok_inj in Hs. subst s'.
    apply (canvas_transfer s); auto. }
  destruct (ivert s) as [v |].
  - destruct (add_vertex_flag s);
      [intros Hs; apply ok_inj in Hs; now subst | apply Hbody].
  - destruct (ipoly s) as [p |];
      [| intros Hs; apply ok_inj in Hs; now subst].
    destruct (add_vertex_flag s);
      [intros Hs; apply ok_inj in Hs; now subst | apply Hbody].
Qed.

Lemma canvas_delete_polygon (s s' : State) :
  canvas_ok s -> delete_polygon s = ok s' -> canvas_ok s'.
Proof.
  intros H. unfold delete_polygon.
  assert (Hrest :
    match ivert s with
    | Some v =>
        p <- the_index (ipoly s) ;;
        poly <- getitem (polygons s) p ;;
        _ <- getitem (lines s) p ;;
        if 4 <? length (xy poly) then
          let poly' := set_xy (drop_indices (vref_indices v) 0 (xy poly)) poly in
          ps <- setitem (polygons s) p poly' ;;
          ls <- update_at (lines s) p (l_set_data (xy poly')) ;;
          ok (with_ivert (with_lines (with_polygons s ps) ls) None)
        else ok s
    | None =>
        match ipoly s with
        | Some p =>
            ps <- pop_at (polygons s) p ;;
            ls <- pop_at (lines s) p ;;
            ds <- pop_at (densities s) p ;;
            ok (with_ipoly
                  (with_densities (with_lines (with_polygons s ps) ls) ds)
                  None)
        | None => ok s
        end
    end = ok s' -> canvas_ok s').
  { destruct (ivert s) as [v |] eqn:Ev.
    - destruct (the_index (ipoly s)) as [? | p]; cbn [bind]; [discriminate |].
      destruct (getitem (polygons s) p) as [? | poly]; cbn [bind];
        [discriminate |].
      destruct (getitem (lines s) p) as [? | line]; cbn [bind];
        [discriminate |].
      destruct (4 <? length (xy poly));
        [| intros Hs; apply ok_inj in Hs; now subst].
      cbn zeta.
      destruct (setitem (polygons s) p _) as [? | ps]; cbn [bind];
        [discriminate |].
      destruct (update_at (lines s) p _) as [? | ls]; cbn [bind];
        [discriminate |].
      intros Hs. apply ok_inj in Hs. subst s'.
      apply (canvas_transfer s); auto.
    - destruct (ipoly s) as [p |];
        [| intros Hs; apply ok_inj in Hs; now subst].
      destruct (pop_at (polygons s) p) as [? | ps]; cbn [bind];
        [discriminate |].
      destruct (pop_at (lines s) p) as [? | ls]; cbn [bind];
        [discriminate |].
      destruct (pop_at (densities s) p) as [? | ds]; cbn [bind];
        [discriminate |].
      intros Hs. apply ok_inj in Hs. subst s'.
      apply (canvas_transfer s); auto. }
  destruct (drawing s); [| exact Hrest].
  destruct (xy_buf s) as [[| b buf] |]; try exact Hrest.
  intros Hs. apply ok_inj in Hs. subst s'.
  apply (canvas_transfer s); auto.
Qed.

Lemma canvas_set_density (s s' : State) (value : R) :
  canvas_ok s -> set_density s value = ok s' -> canvas_ok s'.
Proof.
  intros H. unfold set_density. fields.
  destruct (ipoly s) as [p |].
  - destruct (setitem (densities s) p value) as [? | ds]; cbn [bind];
      [discriminate |].
    destruct (update_at (polygons s) p _) as [? | ps]; cbn [bind];
      [discriminate |].
    intros Hs. apply ok_inj in Hs. subst s'.
    apply (canvas_transfer s); auto.
  - intros Hs. apply ok_inj in Hs. subst s'.
    apply (canvas_transfer s); auto.
Qed.

Lemma canvas_button_press (s s' : State) (e : Event) :
  canvas_ok s -> button_press_callback s e = ok s' -> canvas_ok s'.
Proof.
  intros H. unfold button_press_callback.
  destruct (negb (ev_inaxes e)); [intros Hs; apply ok_inj in Hs; now subst |].
  destruct (drawing s) eqn:Hdr.
  - rewrite andb_false_r. cbn [negb andb].
    destruct (ev_button e =? 1).
    + destruct (xy_buf s) as [buf |]; [| discriminate].
      intros Hs. apply ok_inj in Hs. subst s'.
      apply (canvas_transfer s); auto.
    + destruct (ev_button e =? 3);
        [| intros Hs; apply ok_inj in Hs; now subst].
      destruct (xy_buf s) as [buf |]; [| discriminate].
      destruct (3 <=? length buf);
        [| intros Hs; apply ok_inj in Hs; now subst].
      cbn zeta.
      destruct (update_at _ _ (l_set_color Green)) as [? | ls];
        cbn [bind]; [discriminate |].
      intros Hs. apply ok_inj in Hs. subst s'.
      apply (canvas_transfer s); auto; fields; discriminate.
  - cbn [negb]. rewrite andb_true_r.
    destruct ((ev_button e =? 1) && negb (length (polygons s) =? 0));
      [| intros Hs; apply ok_inj in Hs; now subst].
    cbn [add_vertex_flag with_lastevent].
    destruct (add_vertex_flag s); cbn [negb].
    + cbn [ipoly polygons lines densities with_lastevent].
      destruct (ipoly s) as [p |];
        [| intros Hs; apply ok_inj in Hs; subst s';
           apply (canvas_transfer s); auto].
      destruct (getitem (polygons s) p) as [? | old]; cbn [bind];
        [discriminate |].
      destruct (add_new_vertex (xy old) e) as [? | vertices]; cbn [bind];
        [discriminate |].
      destruct (getitem (densities s) p) as [? | d]; cbn [bind];
        [discriminate |].
      destruct (getitem (lines s) p) as [? | line]; cbn [bind];
        [discriminate |].
      destruct (pop_at (polygons s) p) as [? | ps]; cbn [bind];
        [discriminate |].
      destruct (pop_at (lines s) p) as [? | ls]; cbn [bind];
        [discriminate |].
      destruct (update_at _ p (l_set_color Green)) as [? | ls'];
        cbn [bind]; [discriminate |].
      intros Hs. apply ok_inj in Hs. subst s'.
      apply (canvas_transfer s); auto.
    + set (u := unhighlight (with_lastevent s (Some e))).
      destruct (get_polygon_vertice_id _ e) as [? | [rp rv]] eqn:Ehit;
        cbn [bind]; [discriminate |].
      apply hit_test_range in Ehit as [_ Hrv].
      fields. cbn [fst snd]. destruct rp as [p |].
      * destruct (getitem (densities u) p) as [? | d]; cbn [bind];
          [discriminate |].
        destruct (update_at (polygons u) p _) as [? | ps]; cbn [bind];
          [discriminate |].
        destruct (update_at (lines u) p _) as [? | ls]; cbn [bind];
          [discriminate |].
        intros Hs. apply ok_inj in Hs. subst s'.
        split; fields; reflexivity.
      * intros Hs. apply ok_inj in Hs. subst s'. split; fields.
        -- intros Hd. subst u. cbn in Hd. congruence.
        -- intros Hne. destruct rv as [v |]; [| congruence].
           destruct (Hrv v eq_refl) as (p & _ & Hp & _). discriminate.
Qed.

Lemma canvas_step (s s' : State) (i : Input) :
  wf s -> highlight_ok s -> canvas_ok s -> step s i = ok s' -> canvas_ok s'.
Proof.
  intros Hwf Hhl H. destruct i as [e | e | e | | | | | | value]; cbn [step];
    intros Hs; try (apply ok_inj in Hs; subst s').
  - eapply canvas_button_press; eauto.
  - now apply canvas_button_release.
  - eapply canvas_mouse_move; eauto.
  - eapply canvas_delete_polygon; eauto.
  - split; reflexivity.
  - unfold cancel_drawing. destruct (add_vertex_flag s).
    + apply (canvas_transfer s); auto.
    + apply (canvas_transfer s); auto; fields; discriminate.
  - assumption.
  - apply (canvas_transfer s); auto.
  - eapply canvas_set_density; eauto.
Qed.

Lemma reachable_canvas (s : State) : reachable s -> canvas_ok s.
Proof.
  induction 1 as [| s i s' Hr IH Hs].
  - split; [discriminate | intros H; now elim H].
  - eapply canvas_step; eauto using reachable_wf, reachable_highlight.
Qed.

(** While the add-vertex mode is armed a press does not touch the saved
    background. *)
Lemma press_armed_keeps_background (s s' : State) (e : Event) :
  add_vertex_flag s = true ->
  button_press_callback s e = ok s' ->
  background s' = background s.
Proof.
  intros Ha. unfold button_press_callback.
  destruct (negb (ev_inaxes e)); [intros Hs; apply ok_inj in Hs; now subst |].
  destruct ((ev_button e =? 1) && negb (drawing s)
            && negb (length (polygons s) =? 0)).
  - cbn [add_vertex_flag with_lastevent]. rewrite Ha. cbn [negb].
    cbn [ipoly polygons lines densities with_lastevent].
    destruct (ipoly s) as [p |];
      [| intros Hs; apply ok_inj in Hs; now subst].
    destruct (getitem (polygons s) p) as [? | old]; cbn [bind];
      [discriminate |].
    destruct (add_new_vertex (xy old) e) as [? | vertices]; cbn [bind];
      [discriminate |].
    destruct (getitem (densities s) p) as [? | d]; cbn [bind];
      [discriminate |].
    destruct (getitem (lines s) p) as [? | line]; cbn [bind];
      [discriminate |].
    destruct (pop_at (polygons s) p) as [? | ps]; cbn [bind];
      [discriminate |].
    destruct (pop_at (lines s) p) as [? | ls]; cbn [bind];
      [discriminate |].
    destruct (update_at _ p (l_set_color Green)) as [? | ls'];
      cbn [bind]; [discriminate |].
    intros Hs. apply ok_inj in Hs. now subst.
  - destruct (drawing s); [| intros Hs; apply ok_inj in Hs; now subst].
    destruct (ev_button e =? 1).
    + destruct (xy_buf s) as [buf |]; [| discriminate].
      intros Hs. apply ok_inj in Hs. now subst.
    + destruct (ev_button e =? 3);
        [| intros Hs; apply ok_inj in Hs; now subst].
      destruct (xy_buf s) as [buf |]; [| discriminate].
      destruct (3 <=? length buf);
        [| intros Hs; apply ok_inj in Hs; now subst].
      cbn zeta.
      destruct (update_at _ _ (l_set_color Green)) as [? | ls];
        cbn [bind]; [discriminate |].
      intros Hs. apply ok_inj in Hs. now subst.
Qed.

(** X1. In every state the editor reaches from its initial state, each
    callback does one of three things.  It does its writes, leaves a state
    reached the same way and returns.  Or it is a move that drags the whole
    selected polygon while [self.background] is [None] (no vertex is
    selected then): it does its writes and then raises [TypeError] from
    [restore_region].  Or it is a move that drags a whole polygon when no
    previous event is recorded: it raises [AttributeError] before it writes
    anything.  The press, the release, the key commands and the density
    setter always return. *)
Theorem callbacks_return (s : State) (i : Input) :
  reachable s ->
  (exists s',
     step s i = ok s'
     /\ reachable s'
     /\ (ending s i = ok tt
         \/ (exists e p,
               i = Move e
               /\ ending s i = raise TypeError
               /\ background s = false
               /\ ivert s = None
               /\ ipoly s = Some p)))
  \/ (exists e, i = Move e
                /\ step s i = raise AttributeError
                /\ lastevent s = None /\ ivert s = None).
Proof.
  intros Hr. pose proof (reachable_wf s Hr) as Hwf.
  destruct (reachable_canvas s Hr) as [Hcd Hcv].
  destruct (step_total s i Hwf) as [[s' Hs] | Herr]; [| now right].
  left. exists s'. split; [assumption |].
  split; [eapply reach_step; eauto |].
  unfold ending, restore_region.
  destruct i as [e | e | e | | | | | | value]; try (left; reflexivity).
  - (* press *)
    left. unfold press_restores.
    destruct (negb (ev_inaxes e)); [reflexivity |].
    destruct ((ev_button e =? 1) && negb (drawing s)
              && negb (length (polygons s) =? 0)); [reflexivity |].
    destruct (drawing s) eqn:Hd; [| reflexivity].
    rewrite (Hcd eq_refl). now destruct (ev_button e =? 1).
  - (* move *)
    unfold move_restores.
    destruct (negb (ev_inaxes e)); [left; reflexivity |].
    destruct (negb (ev_button e =? 1)); [left; reflexivity |].
    destruct (ivert s) as [v |] eqn:Ev.
    + left. rewrite Hcv by discriminate.
      now destruct (negb (add_vertex_flag s)).
    + destruct (ipoly s) as [p |] eqn:Ep; [| left; reflexivity].
      destruct (negb (add_vertex_flag s)); [| left; reflexivity].
      destruct (background s) eqn:Hb; [left; reflexivity |].
      right. exists e, p. repeat split; reflexivity.
  - (* delete *)
    left. unfold delete_restores.
    assert (Hrest :
      (if match ivert s, ipoly s with
          | Some _, Some p =>
              match nth_error (polygons s) p with
              | Some poly => 4 <? length (xy poly)
              | None => false
              end
          | _, _ => false
          end
       then if background s then ok tt else raise TypeError
       else ok tt) = ok tt).
    { destruct (ivert s) as [v |]; [| reflexivity].
      rewrite Hcv by discriminate.
      destruct (ipoly s) as [p |]; [| reflexivity].
      destruct (nth_error (polygons s) p) as [poly |]; [| reflexivity].
      now destruct (4 <? length (xy poly)). }
    destruct (drawing s) eqn:Hd; [| exact Hrest].
    destruct (xy_buf s) as [[| b buf] |]; try exact Hrest.
    now rewrite (Hcd eq_refl).
Qed.

End Callbacks.

(** ** The statements at work on the sample data *)

Lemma commit_three_points :
  exists s',
    button_press_callback id_transform contains_nothing
      (drawing_state [(0, 0); (10, 0); (5, 10)]%R) (click 3 1 1) = ok s'
    /\ polygons s'
       = [] ++ [mkPolygon (close_ring [(0, 0); (10, 0); (5, 10)]%R) false 7%R]
    /\ densities s' = [] ++ [7%R]
    /\ length (lines s') = 1
    /\ ipoly s' = Some 0
    /\ xy_buf s' = None
    /\ drawing s' = false.
Proof.
  apply (proj1 (commit_on_secondary_click id_transform contains_nothing
                  (drawing_state [(0, 0); (10, 0); (5, 10)]%R) (click 3 1 1)
                  [(0, 0); (10, 0); (5, 10)]%R
                  eq_refl eq_refl eq_refl eq_refl eq_refl)).
  simpl. lia.
Defined.

Lemma delete_square_vertex :
  exists s' poly',
    delete_polygon square_state = ok s'
    /\ nth_error (polygons s') 0 = Some poly'
    /\ S (length (xy poly')) = 5
    /\ (forall j, j < 2 -> nth_error (xy poly') j = nth_error square j)
    /\ (forall j, 2 <= j -> nth_error (xy poly') j = nth_error square (S j))
    /\ (forall q, q <> 0 ->
                  nth_error (polygons s') q
                  = nth_error (polygons square_state) q)
    /\ length (polygons s') = 1
    /\ densities s' = [0%R]
    /\ ivert s' = None
    /\ ipoly s' = Some 0.
Proof.
  apply (delete_interior_vertex square_state 0 2
           (mkPolygon square false 0%R) (mkLine square Green false));
    try reflexivity; simpl; lia.
Defined.

(** Four rows, vertex 1 picked: the delete command changes nothing, and the
    array still has four rows, not three. *)
Lemma delete_at_four_rows_keeps_vertex :
  map (fun q => length (xy q)) (polygons vertex_state) = [4]
  /\ ivert vertex_state = Some (VIdx 1)
  /\ exists s',
       delete_polygon vertex_state = ok s'
       /\ map (fun q => length (xy q)) (polygons s') = [4].
Proof.
  split; [reflexivity |]. split; [reflexivity |].
  exists vertex_state. split; reflexivity.
Qed.

Lemma delete_triangle_vertex_noop :
  delete_polygon vertex_state = ok vertex_state.
Proof.
  apply (delete_vertex_at_minimum vertex_state 0 (VIdx 1) triangle_poly);
    try reflexivity. simpl. lia.
Defined.

Lemma cancel_while_armed :
  cancel_drawing armed_state = with_add_vertex armed_state false.
Proof.
  apply (proj1 (cancel_drawing_effect armed_state)). reflexivity.
Defined.

(** Not armed, not drawing, polygon 0 selected: after the cancel command
    polygon 0 is still the selected polygon. *)
Lemma cancel_keeps_selected_polygon :
  add_vertex_flag selected_state = false
  /\ drawing selected_state = false
  /\ ipoly selected_state = Some 0
  /\ ipoly (cancel_drawing selected_state) <> None.
Proof.
  repeat split; try reflexivity. simpl. discriminate.
Qed.

Lemma sqrt_above (c x : R) : (0 <= c -> c * c < x -> c < sqrt x)%R.
Proof.
  intros Hc Hx. rewrite <- (sqrt_square c Hc) at 1.
  apply sqrt_lt_1_alt. split; [nra | assumption].
Qed.

Lemma sqrt_below (c x : R) : (0 <= x -> 0 <= c -> x < c * c -> sqrt x < c)%R.
Proof.
  intros Hx Hc Hlt. rewrite <- (sqrt_square c Hc).
  apply sqrt_lt_1_alt. split; assumption.
Qed.

(** A press at pixel (8, 0): the nearest vertex is row 1 of the triangle,
    3 pixels away on the screen (and 6 units away in model coordinates), so
    it is a vertex hit. *)
Lemma hit_test_on_triangle :
  get_polygon_vertice_id halve (bbox_contains halve) two_polygons near_vertex
  = ok (Some 0, Some (VIdx 1)).
Proof.
  destruct (hit_test_resolution halve (bbox_contains halve)
              two_polygons near_vertex)
    as (p & poly & i & vtx & Hp & Hi & Hmin & Hhit & _).
  - discriminate.
  - repeat constructor; discriminate.
  - pose proof (Hmin 0 triangle_poly 1 (10, 0)%R eq_refl eq_refl) as Hle.
    assert (Hrow1 : (sqrt ((10 / 2 - 8) ^ 2 + (0 / 2 - 0) ^ 2) < 4)%R).
    { apply sqrt_below; lra. }
    rewrite Hhit
      by (unfold halve, near_vertex in *; cbn [fst snd ev_x ev_y] in *; lra).
    clear Hhit. unfold halve, near_vertex in Hle.
    cbn [fst snd ev_x ev_y] in Hle.
    assert (Hfar : forall x y : R,
              vtx = (x, y) ->
              (4 * 4 < (x / 2 - 8) ^ 2 + (y / 2 - 0) ^ 2)%R -> False).
    { intros x y -> Hxy. cbn [fst snd] in Hle.
      pose proof (sqrt_above 4 _ ltac:(lra) Hxy). lra. }
    destruct p as [| [| p]]; cbn [two_polygons nth_error] in Hp;
      [| | destruct p; discriminate];
      inversion Hp; subst poly;
      cbn [xy triangle_poly triangle far_triangle] in Hi |- *;
      destruct i as [| [| [| [| i]]]]; cbn [nth_error] in Hi;
      try (destruct i; discriminate);
      inversion Hi as [Hv]; symmetry in Hv;
      try reflexivity;
      exfalso; apply (Hfar _ _ Hv); lra.
Defined.

(** A press at pixel (1, 1): the nearest vertex is the seam of the
    triangle, so the pair of its two rows is returned. *)
Lemma hit_test_on_seam :
  get_polygon_vertice_id halve (bbox_contains halve) two_polygons near_seam
  = ok (Some 0, Some (VPair 0 3)).
Proof.
  destruct (hit_test_cases halve (bbox_contains halve)
              two_polygons near_seam)
    as (p & poly & i & vtx & Hp & Hi & Hmin & Hhit & _).
  - discriminate.
  - repeat constructor; discriminate.
  - pose proof (Hmin 0 triangle_poly 0 (0, 0)%R eq_refl eq_refl) as Hle.
    assert (Hrow0 : (sqrt ((0 / 2 - 1) ^ 2 + (0 / 2 - 1) ^ 2) < 2)%R).
    { apply sqrt_below; lra. }
    rewrite Hhit
      by (unfold pixel_dist, epsilon, halve, near_seam in *;
          cbn [fst snd ev_x ev_y] in *; lra).
    clear Hhit. unfold pixel_dist, halve, near_seam in Hle.
    cbn [fst snd ev_x ev_y] in Hle.
    assert (Hfar : forall x y : R,
              vtx = (x, y) ->
              (2 * 2 < (x / 2 - 1) ^ 2 + (y / 2 - 1) ^ 2)%R -> False).
    { intros x y -> Hxy. cbn [fst snd] in Hle.
      pose proof (sqrt_above 2 _ ltac:(lra) Hxy). lra. }
    destruct p as [| [| p]]; cbn [two_polygons nth_error] in Hp;
      [| | destruct p; discriminate];
      inversion Hp; subst poly;
      cbn [xy triangle_poly triangle far_triangle] in Hi |- *;
      destruct i as [| [| [| [| i]]]]; cbn [nth_error] in Hi;
      try (destruct i; discriminate);
      inversion Hi as [Hv]; symmetry in Hv;
      try reflexivity;
      exfalso; apply (Hfar _ _ Hv); lra.
Qed.

Lemma bbox_of_triangle :
  bbox_contains halve triangle (25, 4)%R = false.
Proof.
  unfold bbox_contains, triangle, halve, Rle_bool.
  cbn [existsb fst snd].
  repeat match goal with
         | |- context [Rle_dec ?a ?b] => destruct (Rle_dec a b); try lra
         end; reflexivity.
Qed.

Lemma bbox_of_far_triangle :
  bbox_contains halve far_triangle (25, 4)%R = true.
Proof.
  unfold bbox_contains, far_triangle, halve, Rle_bool.
  cbn [existsb fst snd].
  repeat match goal with
         | |- context [Rle_dec ?a ?b] => destruct (Rle_dec a b); try lra
         end; reflexivity.
Qed.

(** A press at pixel (25, 4): every vertex is more than 5 pixels away, the
    triangle does not contain the pixel and the second polygon does, so the
    second polygon is hit and no vertex. *)
Lemma hit_test_inside_second_polygon :
  get_polygon_vertice_id halve (bbox_contains halve)
    two_polygons inside_far_triangle
  = ok (Some 1, None).
Proof.
  destruct (hit_test_cases halve (bbox_contains halve)
              two_polygons inside_far_triangle)
    as (p & poly & i & vtx & Hp & Hi & _ & _ & Hmiss).
  - discriminate.
  - repeat constructor; discriminate.
  - assert (Hfar : (epsilon <= pixel_dist halve inside_far_triangle vtx)%R).
    { unfold epsilon, pixel_dist, halve, inside_far_triangle.
      cbn [fst snd ev_x ev_y].
      apply Rlt_le, sqrt_above; [lra |].
      destruct p as [| [| p]]; cbn [two_polygons nth_error] in Hp;
        [| | destruct p; discriminate];
        inversion Hp; subst poly;
        cbn [xy triangle_poly triangle far_triangle] in Hi;
        destruct i as [| [| [| [| i]]]]; cbn [nth_error] in Hi;
        try (destruct i; discriminate);
        inversion Hi; subst vtx; cbn [fst snd]; lra. }
    destruct (Hmiss Hfar) as (r & Hres & Hr). rewrite Hres. clear Hmiss Hres.
    destruct r as [[| [| q]] |].
    + destruct Hr as [(poly' & Hn & Hc) _]. inversion Hn; subst poly'.
      unfold inside_far_triangle in Hc.
      cbn [xy triangle_poly ev_x ev_y] in Hc.
      rewrite bbox_of_triangle in Hc. discriminate.
    + reflexivity.
    + destruct Hr as [(poly' & Hn & _) _]. destruct q; discriminate.
    + exfalso.
      pose proof (Hr (mkPolygon far_triangle false 0%R)
                    ltac:(right; left; reflexivity)) as Hc.
      unfold inside_far_triangle in Hc. cbn [xy ev_x ev_y] in Hc.
      rewrite bbox_of_far_triangle in Hc. discriminate.
Qed.

Lemma triangle_strictly_convex : strictly_convex triangle.
Proof.
  unfold strictly_convex. cbn [triangle length Nat.sub].
  split; [lia |]. split; [reflexivity |]. left.
  intros j k Hj Hk Hkj Hnext.
  destruct j as [| [| [| j]]]; try lia;
    destruct k as [| [| [| k]]]; try lia;
    try (exfalso; apply Hnext; reflexivity);
    unfold cross, row, ring_next; cbn; lra.
Qed.



(** The same on the closing segment of the triangle, a strictly convex
    ring. *)
Lemma insert_on_triangle_closing_segment :
  exists delta : R,
    (0 < delta)%R
    /\ forall e,
         (Rabs (ev_xdata e
                - fst (midpoint (row triangle 2)
                                (row triangle (ring_next (length triangle - 1) 2))))
          < delta)%R ->
         (Rabs (ev_ydata e
                - snd (midpoint (row triangle 2)
                                (row triangle (ring_next (length triangle - 1) 2))))
          < delta)%R ->
         add_new_vertex triangle e
         = ok (firstn (2 + 1) triangle
                 ++ (ev_xdata e, ev_ydata e) :: skipn (2 + 1) triangle).
Proof.
  apply (insertion_near_midpoint triangle 2).
  - simpl. lia.
  - apply strictly_convex_clear; [exact triangle_strictly_convex |].
    simpl. lia.
Qed.

(** A click exactly on vertex 1 of the square: the angles of the two
    segments that meet there are [nan], and the point is inserted after the
    first of them, at position 1. *)
Lemma insert_on_a_vertex :
  add_new_vertex square (click 1 10 0)
  = ok [(0, 0); (10, 0); (10, 0); (10, 10); (0, 10); (0, 0)]%R.
Proof.
  apply (insertion_at_vertex square (click 1 10 0) 0).
  - simpl. lia.
  - right. reflexivity.
  - intros j Hj. lia.
Qed.

Lemma armed_click_on_triangle :
  exists s1 poly1,
    button_press_callback id_transform contains_nothing
      armed_state (click 1 5 1) = ok s1
    /\ nth_error (polygons s1) 0 = Some poly1
    /\ S (length (xy triangle_poly)) <= length (xy poly1)
    /\ add_vertex_flag s1 = true
    /\ add_vertex_flag (button_release_callback s1 (click 1 5 1)) = false
    /\ (forall e3 s3,
          button_press_callback id_transform contains_nothing
            (button_release_callback s1 (click 1 5 1)) e3 = ok s3 ->
          map xy (polygons s3) = map xy (polygons s1)).
Proof.
  apply (armed_click_disarms_on_release id_transform contains_nothing
           armed_state (click 1 5 1) (click 1 5 1) 0
           triangle_poly triangle_line 0%R); try reflexivity.
  simpl. lia.
Defined.

(** Armed, triangle selected: after the press and the release of one
    insertion click the add-vertex mode is off. *)
Lemma armed_click_leaves_mode_off :
  add_vertex_flag armed_state = true
  /\ ipoly armed_state = Some 0
  /\ exists s1,
       button_press_callback id_transform contains_nothing
         armed_state (click 1 5 1) = ok s1
       /\ add_vertex_flag (button_release_callback s1 (click 1 5 1)) = false.
Proof.
  split; [reflexivity |]. split; [reflexivity |].
  destruct (press_armed id_transform contains_nothing armed_state
              (click 1 5 1) 0 triangle_poly triangle_line 0%R)
    as (s1 & _ & Hpress & _); try reflexivity.
  { simpl. lia. }
  exists s1. split; [assumption |]. now apply release_disarms.
Qed.

Lemma drag_triangle :
  exists s' poly',
    mouse_move_callback dragging_state (click 1 7 3) = ok s'
    /\ nth_error (polygons s') 0 = Some poly'
    /\ xy poly'
       = map (fun q =>
                ((fst q + (ev_xdata (click 1 7 3) - ev_xdata (click 1 5 1)))%R,
                 (snd q + (ev_ydata (click 1 7 3) - ev_ydata (click 1 5 1)))%R))
             (xy triangle_poly)
    /\ (forall i j a b a' b',
          nth_error (xy triangle_poly) i = Some a ->
          nth_error (xy triangle_poly) j = Some b ->
          nth_error (xy poly') i = Some a' ->
          nth_error (xy poly') j = Some b' ->
          euclid a' b' = euclid a b)
    /\ (forall q, q <> 0 ->
          nth_error (polygons s') q = nth_error (polygons dragging_state) q)
    /\ densities s' = densities dragging_state
    /\ lastevent s' = Some (click 1 7 3).
Proof.
  apply (polygon_drag_translates dragging_state (click 1 7 3) (click 1 5 1)
           0 triangle_poly triangle_line); reflexivity.
Defined.

Lemma drag_triangle_seam :
  exists s' poly',
    mouse_move_callback seam_state (click 1 1 1) = ok s'
    /\ nth_error (polygons s') 0 = Some poly'
    /\ length (xy poly') = length (xy triangle_poly)
    /\ nth_error (xy poly') 0
       = Some (ev_xdata (click 1 1 1), ev_ydata (click 1 1 1))
    /\ nth_error (xy poly') (length (xy poly') - 1)
       = Some (ev_xdata (click 1 1 1), ev_ydata (click 1 1 1))
    /\ (forall j, j <> 0 -> j <> length (xy triangle_poly) - 1 ->
                  nth_error (xy poly') j = nth_error (xy triangle_poly) j).
Proof.
  apply (seam_drag_writes_both_rows seam_state (click 1 1 1) 0
           triangle_poly triangle_line); try reflexivity.
  discriminate.
Defined.

(** New polygon, clicks at (0,0), (10,0), (5,10), secondary click: one
    polygon with those vertices plus the seam row, selected. *)
Lemma draw_triangle_commits :
  run id_transform contains_nothing init_state draw_triangle
  = ok selected_state.
Proof.
  unfold draw_triangle. cbn [run step bind ok new_polygon].
  unfold button_press_callback. cbn -[close_ring].
  match goal with
  | |- context [close_ring ?buf] =>
      assert (Hc : close_ring buf = triangle);
      [| rewrite !Hc; reflexivity]
  end.
  unfold close_ring. cbn [last].
  match goal with
  | |- context [point_eq_dec ?a ?b] =>
      destruct (point_eq_dec a b) as [E | _]; [| reflexivity]
  end.
  inversion E. lra.
Qed.

Lemma selected_state_reachable :
  reachable id_transform contains_nothing selected_state.
Proof.
  apply (run_reachable id_transform contains_nothing draw_triangle init_state).
  - apply reach_init.
  - exact draw_triangle_commits.
Defined.

Lemma valid_after_drawing_triangle :
  selection_valid selected_state
  /\ (forall e,
        mouse_move_callback selected_state e <> raise IndexError
        /\ mouse_move_callback selected_state e <> raise TypeError)
  /\ (exists s', delete_polygon selected_state = ok s').
Proof.
  apply (selection_stays_valid id_transform contains_nothing).
  exact selected_state_reachable.
Defined.

(** ** The further properties at work on the sample data *)

Lemma move_on_selected_triangle :
  (exists s',
     step id_transform contains_nothing selected_state (Move (click 1 7 3))
     = ok s'
     /\ reachable id_transform contains_nothing s'
     /\ (ending selected_state (Move (click 1 7 3)) = ok tt
         \/ (exists e p,
               Move (click 1 7 3) = Move e
               /\ ending selected_state (Move (click 1 7 3)) = raise TypeError
               /\ background selected_state = false
               /\ ivert selected_state = None
               /\ ipoly selected_state = Some p)))
  \/ (exists e,
        Move (click 1 7 3) = Move e
        /\ step id_transform contains_nothing selected_state
             (Move (click 1 7 3)) = raise AttributeError
        /\ lastevent selected_state = None /\ ivert selected_state = None).
Proof.
  apply (callbacks_return id_transform contains_nothing selected_state
           (Move (click 1 7 3))).
  exact selected_state_reachable.
Defined.

(** The drag that ends in [TypeError] can be reached: select the triangle,
    release on the axes (the background is dropped), arm the add-vertex mode,
    press to insert a vertex and, with the button still down, switch the mode
    off and move. *)
Lemma move_without_background :
  exists s s',
    reachable id_transform contains_nothing s
    /\ step id_transform contains_nothing s (Move (click 1 7 3)) = ok s'
    /\ ending s (Move (click 1 7 3)) = raise TypeError.
Proof.
  set (s1 := button_release_callback selected_state (click 1 5 1)).
  set (s2 := add_vertex s1).
  destruct (press_armed id_transform contains_nothing s2 (click 1 5 1) 0
              triangle_poly triangle_line 0%R)
    as (s3 & vertices & Hpress & _ & _ & Hnew & _ & Hll & _ & _ & Ha3 & Hp3
        & Hv3 & _ & _ & Hle3); try reflexivity.
  { simpl. lia. }
  pose proof (press_armed_keeps_background id_transform contains_nothing
                s2 s3 (click 1 5 1) eq_refl Hpress) as Hb3.
  assert (Hline : exists line3, nth_error (lines s3) 0 = Some line3).
  { destruct (nth_error (lines s3) 0) as [l3 |] eqn:E; [now exists l3 |].
    apply nth_error_None in E. rewrite Hll in E. simpl in E. lia. }
  destruct Hline as (line3 & Hline3).
  destruct (drag_step (add_vertex s3) (click 1 7 3) (click 1 5 1) 0
              _ line3 eq_refl eq_refl
              ltac:(unfold add_vertex; cbn; now rewrite Ha3)
              Hv3 Hp3 Hle3 Hnew Hline3) as (s5 & Hmove & _).
  exists (add_vertex s3), s5. split; [| split].
  - apply (reach_step id_transform contains_nothing s3 KeyA);
      [| reflexivity].
    apply (reach_step id_transform contains_nothing s2 (Press (click 1 5 1)));
      [| exact Hpress].
    apply (reach_step id_transform contains_nothing s1 KeyA); [| reflexivity].
    apply (reach_step id_transform contains_nothing selected_state
             (Release (click 1 5 1))); [| reflexivity].
    exact selected_state_reachable.
  - exact Hmove.
  - unfold ending, move_restores, restore_region, add_vertex.
    cbn [ivert ipoly add_vertex_flag background with_add_vertex
         click ev_inaxes ev_button negb Nat.eqb].
    rewrite Hv3, Hp3, Ha3, Hb3. reflexivity.
Qed.

Lemma move_after_release_on_triangle :
  button_press_callback id_transform contains_nothing
    (button_release_callback selected_state (click 1 5 1)) outside
  = ok (button_release_callback selected_state (click 1 5 1))
  /\ mouse_move_callback
       (button_release_callback selected_state (click 1 5 1)) (click 1 7 3)
     = raise AttributeError.
Proof.
  apply (move_after_release_raises id_transform contains_nothing
           selected_state (click 1 5 1) outside (click 1 7 3) 0);
    reflexivity.
Defined.

Lemma delete_selected_triangle :
  exists s',
    delete_polygon selected_state = ok s'
    /\ polygons s'
       = firstn 0 (polygons selected_state)
           ++ skipn 1 (polygons selected_state)
    /\ lines s'
       = firstn 0 (lines selected_state) ++ skipn 1 (lines selected_state)
    /\ densities s'
       = firstn 0 (densities selected_state)
           ++ skipn 1 (densities selected_state)
    /\ (forall j, j < 0 ->
          nth_error (polygons s') j = nth_error (polygons selected_state) j
          /\ nth_error (lines s') j = nth_error (lines selected_state) j
          /\ nth_error (densities s') j
             = nth_error (densities selected_state) j)
    /\ (forall j, 0 <= j ->
          nth_error (polygons s') j
          = nth_error (polygons selected_state) (S j)
          /\ nth_error (lines s') j = nth_error (lines selected_state) (S j)
          /\ nth_error (densities s') j
             = nth_error (densities selected_state) (S j))
    /\ ipoly s' = None
    /\ ivert s' = None
    /\ drawing s' = false
    /\ density s' = density selected_state.
Proof.
  apply (delete_selected_polygon selected_state 0); try reflexivity;
    simpl; lia.
Defined.

Lemma delete_square_seam :
  exists s' poly',
    delete_polygon square_seam_state = ok s'
    /\ nth_error (polygons s') 0 = Some poly'
    /\ xy poly' = close_ring (removelast (tl square))
    /\ ring_closed (xy poly')
    /\ (nth_error square 1 <> nth_error square (length square - 2) ->
        xy poly' = removelast (tl square) ++ firstn 1 (tl square)
        /\ S (length (xy poly')) = length square)
    /\ (forall q, q <> 0 ->
          nth_error (polygons s') q
          = nth_error (polygons square_seam_state) q)
    /\ densities s' = densities square_seam_state
    /\ ipoly s' = Some 0
    /\ ivert s' = None.
Proof.
  apply (delete_seam_vertex square_seam_state 0
           (mkPolygon square false 0%R) (mkLine square Green false));
    first [reflexivity | simpl; lia].
Defined.

Lemma click_then_delete_on_buffer :
  exists s1,
    button_press_callback id_transform contains_nothing
      (drawing_state [(0, 0)%R]) (click 1 10 0) = ok s1
    /\ xy_buf s1 = Some ([(0, 0)%R] ++ [data_coords (click 1 10 0)])
    /\ delete_polygon s1 = ok (drawing_state [(0, 0)%R]).
Proof.
  apply (click_then_delete_restores id_transform contains_nothing
           (drawing_state [(0, 0)%R]) (click 1 10 0) [(0, 0)%R]);
    reflexivity.
Defined.

Lemma add_vertex_to_triangle :
  exists k rows,
    add_new_vertex triangle (click 1 5 1) = ok rows
    /\ 1 <= k <= length triangle - 1
    /\ length rows = S (length triangle)
    /\ nth_error rows k = Some (data_coords (click 1 5 1))
    /\ firstn k rows ++ skipn (S k) rows = triangle
    /\ nth_error rows 0 = nth_error triangle 0
    /\ nth_error rows (length rows - 1)
       = nth_error triangle (length triangle - 1)
    /\ (ring_closed triangle -> ring_closed rows).
Proof.
  apply (add_new_vertex_keeps_rows triangle (click 1 5 1)). simpl. lia.
Defined.

Lemma display_after_drawing_triangle :
  map p_color (polygons selected_state) = densities selected_state
  /\ map l_data (lines selected_state) = map xy (polygons selected_state).
Proof.
  apply (display_stays_consistent id_transform contains_nothing).
  exact selected_state_reachable.
Defined.

Lemma model_after_drawing_triangle :
  length (model selected_state) = length (polygons selected_state)
  /\ length (densities selected_state) = length (polygons selected_state)
  /\ (forall j poly,
        nth_error (polygons selected_state) j = Some poly ->
        3 <= length (xy poly)
        /\ exists d,
             nth_error (densities selected_state) j = Some d
             /\ nth_error (model selected_state) j = Some (xy poly, d)).
Proof.
  apply (model_pairs_every_polygon id_transform contains_nothing).
  exact selected_state_reachable.
Defined.

Lemma ylim_of_two_values :
  exists lo hi,
    data_ylim [1; -2]%R 0 0 = ok (lo, hi)
    /\ (lo <= 0 <= hi)%R
    /\ (forall x, In x [1; -2]%R -> (lo <= x <= hi)%R).
Proof.
  apply (proj2 (data_ylim_encloses [1; -2]%R 0 0)).
  - discriminate.
  - lra.
  - lra.
Defined.

Lemma session_from_initial_state :
  exists s',
    run id_transform contains_nothing init_state
      (KeyN :: map Press [click 1 0 0; click 1 10 0; click 1 5 10]
         ++ [Press (click 3 5 10)]) = ok s'
    /\ polygons s'
       = map (p_set_animated false) (polygons init_state)
           ++ [mkPolygon
                 (close_ring
                    (map data_coords
                       [click 1 0 0; click 1 10 0; click 1 5 10]))
                 false (density init_state)]
    /\ map xy (polygons s')
       = map xy (polygons init_state)
           ++ [close_ring
                 (map data_coords [click 1 0 0; click 1 10 0; click 1 5 10])]
    /\ densities s' = densities init_state ++ [density init_state]
    /\ length (lines s') = S (length (lines init_state))
    /\ ipoly s' = Some (length (polygons init_state))
    /\ ivert s' = None
    /\ drawing s' = false
    /\ xy_buf s' = None
    /\ density s' = density init_state.
Proof.
  apply (drawing_session_appends_polygon id_transform contains_nothing
           init_state [click 1 0 0; click 1 10 0; click 1 5 10]
           (click 3 5 10));
    first [reflexivity | simpl; lia | repeat constructor].
Defined.

Lemma cancel_after_one_click :
  exists s',
    run id_transform contains_nothing armed_state
      (KeyN :: flat_map click_events [click 1 0 0] ++ [KeyEscape]) = ok s'
    /\ map xy (polygons s') = map xy (polygons armed_state)
    /\ densities s' = densities armed_state
    /\ ipoly s' = None
    /\ ivert s' = None
    /\ add_vertex_flag s' = false
    /\ xy_buf s' = Some []
    /\ (add_vertex_flag armed_state = false \/ [click 1 0 0] <> [] ->
        drawing s' = false)
    /\ (add_vertex_flag armed_state = true -> [click 1 0 0] = [] ->
        drawing s' = true).
Proof.
  apply (cancel_after_clicks id_transform contains_nothing armed_state
           [click 1 0 0]).
  repeat constructor.
Defined.

Lemma highlight_after_drawing_triangle :
  (forall j poly,
     nth_error (polygons selected_state) j = Some poly ->
     p_animated poly = true -> ipoly selected_state = Some j)
  /\ (forall j line,
        nth_error (lines selected_state) j = Some line ->
        l_animated line = true \/ l_color line = Green ->
        ipoly selected_state = Some j)
  /\ (drawing selected_state = true ->
      ipoly selected_state = None /\ ivert selected_state = None).
Proof.
  apply (only_selection_highlighted id_transform contains_nothing).
  exact selected_state_reachable.
Defined.

Lemma rings_after_release_on_triangle :
  all_closed (button_release_callback selected_state (click 1 5 1))
  /\ selection_fresh (button_release_callback selected_state (click 1 5 1)).
Proof.
  apply (rings_stay_closed id_transform contains_nothing selected_state
           (button_release_callback selected_state (click 1 5 1))
           (Release (click 1 5 1))).
  - exact selected_state_reachable.
  - repeat constructor. discriminate.
  - intros v p poly H. discriminate.
  - intros (H & _). discriminate.
  - reflexivity.
Defined.

Lemma stale_seam_on_triangle :
  exists s3 poly3,
    run id_transform contains_nothing armed_seam_state
      [Press (click 1 5 1); KeyA; Move (click 1 7 3)] = ok s3
    /\ nth_error (polygons s3) 0 = Some poly3
    /\ length (xy poly3) = S (length (xy triangle_poly))
    /\ nth_error (xy poly3) 0 = Some (data_coords (click 1 7 3))
    /\ nth_error (xy poly3) (length (xy triangle_poly) - 1)
       = Some (data_coords (click 1 7 3))
    /\ nth_error (xy poly3) (length (xy triangle_poly))
       = nth_error (xy triangle_poly) 0
    /\ ~ ring_closed (xy poly3).
Proof.
  apply (stale_seam_opens_ring id_transform contains_nothing
           armed_seam_state (click 1 5 1) (click 1 7 3) 0
           triangle_poly triangle_line 0%R); try reflexivity.
  - simpl. lia.
  - split; [discriminate | reflexivity].
  - simpl. intros H. inversion H. lra.
Defined.

Lemma drag_triangle_in_two_moves :
  exists s' poly',
    run id_transform contains_nothing dragging_state
      (map Move [click 1 6 6; click 1 7 3]) = ok s'
    /\ nth_error (polygons s') 0 = Some poly'
    /\ xy poly'
       = translate
           (ev_xdata (last [click 1 6 6; click 1 7 3] (click 1 5 1))
            - ev_xdata (click 1 5 1))
           (ev_ydata (last [click 1 6 6; click 1 7 3] (click 1 5 1))
            - ev_ydata (click 1 5 1))
           (xy triangle_poly)
    /\ (forall q, q <> 0 ->
          nth_error (polygons s') q = nth_error (polygons dragging_state) q)
    /\ densities s' = densities dragging_state
    /\ lastevent s'
       = Some (last [click 1 6 6; click 1 7 3] (click 1 5 1)).
Proof.
  apply (drag_depends_on_endpoints id_transform contains_nothing
           [click 1 6 6; click 1 7 3] dragging_state (click 1 5 1) 0
           triangle_poly triangle_line);
    first [reflexivity | repeat constructor].
Defined.
